(** * SurakshaPay fraud-detection service

    A shallow embedding of [fraud_detection_service.py]: the rule engine
    ([FraudDetectionService]), its per-user activity ledger, the two Flask
    routes that drive it and the pattern-based intent extractor.

    Layout: [Py] holds the fragment of the Python runtime the service
    relies on (strings, numbers as they arrive from JSON, [str(int(..))]),
    [Re] the fragment of the [re] module its patterns use, [Svc] the service
    itself.  The properties are stated and proved after the definitions. *)

From Stdlib Require Import ZArith QArith Lia String Ascii List.
From stdpp Require Import gmap strings list fin_maps.
Close Scope Q_scope.

(* ===================================================================== *)
(** ** Python runtime fragment *)
(* ===================================================================== *)

Module Py.

(** A Python [str] is a sequence of Unicode code points. *)
Definition char := N.
Definition pystr := list char.

(** String literals are written as in the source file, which is UTF-8
    encoded: [py] decodes the bytes of a literal into code points. *)
Fixpoint utf8_decode (bs : list N) : pystr :=
  match bs with
  | [] => []
  | b0 :: r0 =>
    if (b0 <? 128)%N then b0 :: utf8_decode r0
    else match r0 with
    | [] => []
    | b1 :: r1 =>
      if (b0 <? 224)%N then ((b0 - 192) * 64 + (b1 - 128))%N :: utf8_decode r1
      else match r1 with
      | [] => []
      | b2 :: r2 =>
        if (b0 <? 240)%N
        then (((b0 - 224) * 64 + (b1 - 128)) * 64 + (b2 - 128))%N :: utf8_decode r2
        else match r2 with
        | [] => []
        | b3 :: r3 =>
          ((((b0 - 240) * 64 + (b1 - 128)) * 64 + (b2 - 128)) * 64 + (b3 - 128))%N
            :: utf8_decode r3
        end
      end
    end
  end.

Definition py (s : string) : pystr :=
  utf8_decode (map N_of_ascii (list_ascii_of_string s)).

(** *** Character classes *)

Definition is_ascii (c : char) : bool := (c <? 128)%N.

Definition in_range (lo hi c : N) : bool := (lo <=? c)%N && (c <=? hi)%N.

Definition ascii_upper (c : char) : bool := in_range 65 90 c.
Definition ascii_lower_letter (c : char) : bool := in_range 97 122 c.
Definition ascii_digit (c : char) : bool := in_range 48 57 c.

(** [str.isspace()], which is also what [\s] matches in a [str] pattern:
    the code points CPython classifies as whitespace. *)
Definition is_space (c : char) : bool :=
  in_range 9 13 c || in_range 28 32 c || (c =? 133)%N || (c =? 160)%N
  || (c =? 5760)%N || in_range 8192 8202 c || (c =? 8232)%N || (c =? 8233)%N
  || (c =? 8239)%N || (c =? 8287)%N || (c =? 12288)%N.

(** The part of CPython's Unicode database the service reaches through
    [str.lower()], [\d], [\b] and [float()] for text outside ASCII.  The
    database is not part of the repository: it is a parameter of the model,
    and everything below is proved for every database.  Inside ASCII the
    behaviour is written out. *)
Class Unicode := {
  (** [s.lower()] for a string that has a non-ASCII character *)
  unicode_lower : pystr → pystr;
  (** the value of a non-ASCII decimal digit (category Nd), if it is one *)
  unicode_decimal : char → option Z;
  (** [c.isalnum()] for a non-ASCII character *)
  unicode_alnum : char → bool
}.

Section WithUnicode.
Context {U : Unicode}.

(** The decimal value of a character [\d] matches. *)
Definition decimal_value (c : char) : option Z :=
  if is_ascii c then
    if ascii_digit c then Some (Z.of_N c - 48)%Z else None
  else unicode_decimal c.

Definition is_digit (c : char) : bool := bool_decide (is_Some (decimal_value c)).

(** A word character in the sense of [\w] and [\b]. *)
Definition is_word (c : char) : bool :=
  if is_ascii c then
    ascii_upper c || ascii_lower_letter c || ascii_digit c || (c =? 95)%N
  else unicode_alnum c.

(** [s.lower()] *)
Definition lower_char (c : char) : char :=
  if ascii_upper c then (c + 32)%N else c.

Definition str_lower (s : pystr) : pystr :=
  if forallb is_ascii s then map lower_char s else unicode_lower s.

End WithUnicode.

(** [needle in hay] on strings: substring search. *)
Fixpoint starts_with (p s : pystr) : bool :=
  match p, s with
  | [], _ => true
  | _ :: _, [] => false
  | a :: p', b :: s' => (a =? b)%N && starts_with p' s'
  end.

Fixpoint contains (needle hay : pystr) : bool :=
  starts_with needle hay
  || match hay with
     | [] => false
     | _ :: hay' => contains needle hay'
     end.

(** [s.strip()] *)
Fixpoint lstrip (s : pystr) : pystr :=
  match s with
  | c :: s' => if is_space c then lstrip s' else s
  | [] => []
  end.

Definition strip (s : pystr) : pystr := rev (lstrip (rev (lstrip s))).

(** *** Exceptions and results *)

Inductive exn :=
| TypeError | ValueError | OverflowError | KeyError | AttributeError.

Inductive result (A : Type) :=
| Ok (a : A)
| Raise (e : exn).
Arguments Ok {A} a.
Arguments Raise {A} e.

(** *** Numbers as they arrive in a JSON payload *)

(** A Python [float].  A finite float is modelled by the rational number it
    denotes: comparison with an [int], truncation by [int()] and the test
    [x % 1000 == 0] are all exact on floats, so they are functions of that
    value. *)
Inductive pyfloat :=
| FFin (q : Q)
| FInf (negative : bool)
| FNan.

(** What [request.get_json()] can put under a key. *)
#[warnings="-register-all"]
Inductive json :=
| JNull
| JBool (b : bool)
| JInt (z : Z)
| JFloat (f : pyfloat)
| JStr (s : pystr)
| JArr (l : list json)
| JObj (l : list (pystr * json)).

(** The values Python's arithmetic accepts; [bool] is a subclass of [int]. *)
Inductive number :=
| NInt (z : Z)
| NFloat (f : pyfloat).

Definition as_number (v : json) : option number :=
  match v with
  | JBool b => Some (NInt (Z.b2z b))
  | JInt z => Some (NInt z)
  | JFloat f => Some (NFloat f)
  | _ => None
  end.

(** [x > k] for an integer literal [k] *)
Definition num_gt (x : number) (k : Z) : bool :=
  match x with
  | NInt z => (k <? z)%Z
  | NFloat (FFin q) => (k * Z.pos (Qden q) <? Qnum q)%Z
  | NFloat (FInf negative) => negb negative
  | NFloat FNan => false
  end.

(** [int(x)]: truncation towards zero; not defined on infinities and NaN. *)
Definition num_int (x : number) : result Z :=
  match x with
  | NInt z => Ok z
  | NFloat (FFin q) => Ok (Z.quot (Qnum q) (Z.pos (Qden q)))
  | NFloat (FInf _) => Raise OverflowError
  | NFloat FNan => Raise ValueError
  end.

(** [x % k == 0] for a positive integer literal [k] *)
Definition num_mod_is_zero (x : number) (k : Z) : bool :=
  match x with
  | NInt z => (z mod k =? 0)%Z
  | NFloat (FFin q) => (Qnum q mod (k * Z.pos (Qden q)) =? 0)%Z
  | NFloat _ => false
  end.

(** *** [str(n)] for an [int] *)

Definition digit_char (d : Z) : char := (48 + Z.to_N d)%N.

(** Decimal digits of a non-negative integer, most significant first.  The
    fuel bounds the number of digits; [S (log2 n)] is always enough. *)
Fixpoint digits_upto (fuel : nat) (n : Z) : pystr :=
  match fuel with
  | O => []
  | S fuel' =>
    if (n <? 10)%Z then [digit_char n]
    else digits_upto fuel' (n / 10)%Z ++ [digit_char (n mod 10)%Z]
  end.

Definition digits (n : Z) : pystr := digits_upto (S (Z.to_nat (Z.log2 n))) n.

Definition str_of_int (z : Z) : pystr :=
  if (z <? 0)%Z then 45%N :: digits (- z)%Z else digits z.

(** [len(set(s))] *)
Definition distinct_chars (s : pystr) : nat :=
  size (list_to_set s : gset char).

(** [float(s)] for a string of decimal digits, which is all the service
    passes to it (the text a [(\d+)] group matched): the integer the digits
    denote, rounded to the nearest double (ties to even), infinite beyond
    the range of doubles. *)
Definition round_to_double (n : Z) : pyfloat :=
  let bits := (Z.log2 n + 1)%Z in
  if (bits <=? 53)%Z then FFin (inject_Z n)
  else
    let sh := (bits - 53)%Z in
    let q := Z.shiftr n sh in
    let rem := (n - Z.shiftl q sh)%Z in
    let half := Z.shiftl 1 (sh - 1) in
    let q' := if (half <? rem)%Z || ((rem =? half)%Z && Z.odd q) then (q + 1)%Z else q in
    let v := Z.shiftl q' sh in
    if (2 ^ 1024 <=? v)%Z then FInf false else FFin (inject_Z v).

Section WithUnicode.
Context {U : Unicode}.

Fixpoint digits_value (acc : Z) (s : pystr) : option Z :=
  match s with
  | [] => Some acc
  | c :: s' => d ← decimal_value c; digits_value (10 * acc + d)%Z s'
  end.

Definition float_of_digits (s : pystr) : result pyfloat :=
  match s with
  | [] => Raise ValueError
  | _ :: _ =>
    match digits_value 0 s with
    | Some n => Ok (round_to_double n)
    | None => Raise ValueError
    end
  end.

End WithUnicode.

(** A database with nothing outside ASCII: no cased letter, no decimal
    digit, no alphanumeric character.  It is what the runs on concrete
    requests below use.  Their text is ASCII, where the database is never
    consulted, apart from the catalog's keywords in Indic scripts, which
    only go through [lower()]; those scripts have no case, so CPython
    leaves the keywords unchanged as well. *)
Definition ascii_database : Unicode :=
  {| unicode_lower := map lower_char;
     unicode_decimal := λ _, None;
     unicode_alnum := λ _, false |}.

End Py.

(* ===================================================================== *)
(** ** The fragment of [re] the service's patterns use *)
(* ===================================================================== *)

Module Re.
Import Py.

(** One item of a character set. *)
Inductive citem :=
| IChar (c : char)
| IRange (lo hi : char)
| ISpace   (* \s *)
| IDigit   (* \d *)
| IWord.   (* \w *)

Definition cset := list citem.

(** Patterns.  Every quantifier in the service's patterns applies to a
    single character or class, so repetition is a node of its own; all
    quantifiers are greedy. *)
Inductive regex :=
| Empty
| Chars (cs : cset) (lo : nat) (hi : option nat)
| WordBoundary
| Seq (r1 r2 : regex)
| Alt (r1 r2 : regex)
| Group (i : nat) (r : regex).

(** *** Reading a pattern *)

Definition special (c : char) : bool :=
  bool_decide (c ∈ py ".^$*+?{}[]\|()").

Definition escape (c : char) : option (citem + regex) :=
  if (c =? 115)%N then Some (inl ISpace)            (* \s *)
  else if (c =? 100)%N then Some (inl IDigit)       (* \d *)
  else if (c =? 119)%N then Some (inl IWord)        (* \w *)
  else if (c =? 98)%N then Some (inr WordBoundary)  (* \b *)
  else if special c then Some (inl (IChar c))
  else None.

(** The items of a [[...]] set, up to the closing bracket. *)
Fixpoint parse_set (fuel : nat) (s : pystr) : option (cset * pystr) :=
  match fuel with
  | O => None
  | S fuel' =>
    match s with
    | [] => None
    | 93%N :: rest => Some ([], rest)
    | 92%N :: c :: rest =>
      match escape c with
      | Some (inl it) =>
        '(items, rest') ← parse_set fuel' rest; Some (it :: items, rest')
      | _ => None
      end
    | lo :: 45%N :: hi :: rest =>
      if (hi =? 93)%N
      then '(items, rest') ← parse_set fuel' (45%N :: hi :: rest);
           Some (IChar lo :: items, rest')
      else '(items, rest') ← parse_set fuel' rest;
           Some (IRange lo hi :: items, rest')
    | c :: rest =>
      '(items, rest') ← parse_set fuel' rest; Some (IChar c :: items, rest')
    end
  end.

(** A decimal number inside [{m,n}]. *)
Fixpoint parse_nat (acc : nat) (s : pystr) : nat * pystr :=
  match s with
  | c :: rest =>
    if ascii_digit c then parse_nat (10 * acc + N.to_nat (c - 48)) rest
    else (acc, s)
  | [] => (acc, [])
  end.

(** The quantifier that follows an atom, if any: its bounds and the rest. *)
Definition parse_quant (s : pystr) : option (nat * option nat * pystr) :=
  match s with
  | 43%N :: rest => Some (1, None, rest)          (* + *)
  | 42%N :: rest => Some (0, None, rest)          (* * *)
  | 63%N :: rest => Some (0, Some 1, rest)        (* ? *)
  | 123%N :: rest =>                              (* {m}, {m,}, {m,n} *)
    let '(m, r1) := parse_nat 0 rest in
    match r1 with
    | 125%N :: r2 => Some (m, Some m, r2)
    | 44%N :: 125%N :: r2 => Some (m, None, r2)
    | 44%N :: r2 =>
      let '(n, r3) := parse_nat 0 r2 in
      match r3 with
      | 125%N :: r4 => Some (m, Some n, r4)
      | _ => None
      end
    | _ => None
    end
  | _ => Some (1, Some 1, s)
  end.

(** A one-character atom with the quantifier that follows it. *)
Definition quantified (cs : cset) (s : pystr) : option (regex * pystr) :=
  '(lo, hi, rest) ← parse_quant s; Some (Chars cs lo hi, rest).

(** An atom no quantifier may follow in this fragment. *)
Definition unquantified (r : regex) (s : pystr) : option (regex * pystr) :=
  match s with
  | c :: _ =>
    if bool_decide (c ∈ py "+*?{") then None else Some (r, s)
  | [] => Some (r, s)
  end.

(** Alternatives, sequences and atoms; [g] is the number the next group
    gets (groups are numbered by their opening parenthesis, from 1). *)
Fixpoint parse_alt (fuel : nat) (s : pystr) (g : nat)
    : option (regex * pystr * nat) :=
  match fuel with
  | O => None
  | S fuel' =>
    '(r1, s1, g1) ← parse_seq fuel' s g;
    match s1 with
    | 124%N :: s2 =>
      '(r2, s3, g2) ← parse_alt fuel' s2 g1; Some (Alt r1 r2, s3, g2)
    | _ => Some (r1, s1, g1)
    end
  end
with parse_seq (fuel : nat) (s : pystr) (g : nat)
    : option (regex * pystr * nat) :=
  match fuel with
  | O => None
  | S fuel' =>
    match s with
    | [] => Some (Empty, s, g)
    | c :: _ =>
      if (c =? 41)%N || (c =? 124)%N then Some (Empty, s, g)
      else
        '(a, s1, g1) ← parse_atom fuel' s g;
        '(r, s2, g2) ← parse_seq fuel' s1 g1;
        Some (Seq a r, s2, g2)
    end
  end
with parse_atom (fuel : nat) (s : pystr) (g : nat)
    : option (regex * pystr * nat) :=
  match fuel with
  | O => None
  | S fuel' =>
    match s with
    | [] => None
    | 40%N :: s1 =>                                   (* ( ... ) *)
      '(r, s2, g') ← parse_alt fuel' s1 (S g);
      match s2 with
      | 41%N :: s3 => '(r', s4) ← unquantified (Group g r) s3; Some (r', s4, g')
      | _ => None
      end
    | 91%N :: s1 =>                                   (* [ ... ] *)
      match s1 with
      | 94%N :: _ => None
      | _ =>
        '(cs, s2) ← parse_set (length s1) s1;
        '(r, s3) ← quantified cs s2; Some (r, s3, g)
      end
    | 92%N :: c :: s1 =>                              (* \x *)
      match escape c with
      | Some (inl it) => '(r, s2) ← quantified [it] s1; Some (r, s2, g)
      | Some (inr r) => '(r', s2) ← unquantified r s1; Some (r', s2, g)
      | None => None
      end
    | c :: s1 =>
      if special c then None
      else '(r, s2) ← quantified [IChar c] s1; Some (r, s2, g)
    end
  end.

(** [re.compile]: [None] stands for a pattern outside the fragment. *)
Definition compile (pattern : pystr) : option regex :=
  match parse_alt (3 * length pattern + 3) pattern 1 with
  | Some (r, [], _) => Some r
  | _ => None
  end.

(** *** Matching *)

Section Matching.
Context {U : Unicode}.

Definition citem_mem (it : citem) (c : char) : bool :=
  match it with
  | IChar a => (a =? c)%N
  | IRange lo hi => in_range lo hi c
  | ISpace => is_space c
  | IDigit => is_digit c
  | IWord => is_word c
  end.

Definition cset_mem (cs : cset) (c : char) : bool :=
  existsb (λ it, citem_mem it c) cs.

Definition below (hi : option nat) (n : nat) : bool :=
  match hi with
  | Some h => n <? h
  | None => true
  end.

Definition captures := gmap nat pystr.

Section Run.
Context {R : Type}.

(** Greedy repetition: having taken [n] characters, take one more if the
    set and the upper bound allow it and the rest of the pattern then
    matches; otherwise stop here if [lo] is reached. *)
Fixpoint greedy (cs : cset) (lo : nat) (hi : option nat) (n : nat)
    (prev : option char) (s : pystr)
    (k : option char → pystr → option R) : option R :=
  let stop := if lo <=? n then k prev s else None in
  match s with
  | c :: s' =>
    if cset_mem cs c && below hi n then
      match greedy cs lo hi (S n) (Some c) s' k with
      | Some res => Some res
      | None => stop
      end
    else stop
  | [] => stop
  end.

Definition word_before (prev : option char) : bool :=
  match prev with
  | Some c => is_word c
  | None => false
  end.

Definition word_after (s : pystr) : bool :=
  match s with
  | c :: _ => is_word c
  | [] => false
  end.

(** The backtracking matcher: [run r prev s caps k] matches [r] at the
    front of [s] ([prev] is the character before it) and hands what is left
    to [k]; when [k] fails, the next way of matching [r] is tried. *)
Fixpoint run (r : regex) (prev : option char) (s : pystr) (caps : captures)
    (k : option char → pystr → captures → option R) : option R :=
  match r with
  | Empty => k prev s caps
  | Chars cs lo hi => greedy cs lo hi 0 prev s (λ p s', k p s' caps)
  | WordBoundary =>
    if xorb (word_before prev) (word_after s) then k prev s caps else None
  | Seq r1 r2 => run r1 prev s caps (λ p s' caps', run r2 p s' caps' k)
  | Alt r1 r2 =>
    match run r1 prev s caps k with
    | Some res => Some res
    | None => run r2 prev s caps k
    end
  | Group i r1 =>
    run r1 prev s caps
      (λ p s' caps', k p s' (<[i := take (length s - length s') s]> caps'))
  end.

End Run.

(** The leftmost match: try every start position in turn. *)
Fixpoint search_from (r : regex) (prev : option char) (s : pystr)
    : option captures :=
  match run r prev s ∅ (λ _ _ caps, Some caps) with
  | Some caps => Some caps
  | None =>
    match s with
    | c :: s' => search_from r (Some c) s'
    | [] => None
    end
  end.

(** [re.search(pattern, text)]: the groups of the leftmost match, [None]
    when nothing matches (or the pattern is outside the fragment, which
    none of the service's patterns is). *)
Definition search (pattern text : pystr) : option captures :=
  r ← compile pattern; search_from r None text.

(** [match.group(i)] *)
Definition group (m : captures) (i : nat) : pystr := default [] (m !! i).

End Matching.
End Re.

(* ===================================================================== *)
(** ** The service *)
(* ===================================================================== *)

Module Svc.
Import Py.

(** *** Time *)

(** A naive local [datetime], as the number of microseconds on the wall
    clock's own time line; a [timedelta] is a difference of two. *)
Definition datetime := Z.

Definition timedelta_minutes (n : Z) : Z := (n * 60000000)%Z.
Definition timedelta_hours (n : Z) : Z := (n * 3600000000)%Z.
Definition timedelta_days (n : Z) : Z := (n * 86400000000)%Z.

(** [t.hour] *)
Definition hour (t : datetime) : Z := ((t / 3600000000) mod 24)%Z.

(** *** Data *)

(** The request dict ([data: Dict[str, Any]]).  [None] is an absent key.
    The text fields and [user_id] carry the types the service's signatures
    give them ([user_id: str], [command: str]); [amount] is kept as the raw
    JSON value, because the amount rule's behaviour depends on its type.
    [timestamp] is the key [log_transaction] writes: the stored text is
    [datetime.isoformat()] and is only ever read back through
    [datetime.fromisoformat], which inverts it, so the field holds the
    datetime itself.  A [timestamp] sent by the client is overwritten before
    anything reads it.  [other_keys] are the keys the service never looks
    at; they only matter for the emptiness test of the route. *)
Record payload := {
  user_id : option pystr;
  amount : option json;
  description : option pystr;
  voice_command : option pystr;
  recipient_name : option pystr;
  timestamp : option datetime;
  other_keys : list (pystr * json)
}.

Definition empty_payload : payload :=
  {| user_id := None; amount := None; description := None;
     voice_command := None; recipient_name := None; timestamp := None;
     other_keys := [] |}.

Global Instance payload_inhabited : Inhabited payload := populate empty_payload.

(** [transaction_data['timestamp'] = t] *)
Definition set_timestamp (t : datetime) (p : payload) : payload :=
  {| user_id := user_id p; amount := amount p; description := description p;
     voice_command := voice_command p; recipient_name := recipient_name p;
     timestamp := Some t; other_keys := other_keys p |}.

(** An entry of [voice_command_history]: [{'command': .., 'timestamp': ..}]. *)
Record voice_record := {
  command : pystr;
  command_timestamp : datetime
}.

(** Request dicts are Python objects: the ledger stores references to them,
    and [log_transaction] writes into the object it is given.  [heap] is the
    store of these objects, a [loc] a reference to one. *)
Definition loc := positive.

Record state := {
  heap : gmap loc payload;
  transaction_history : gmap pystr (list loc);
  voice_command_history : gmap pystr (list voice_record)
}.

(** [FraudDetectionService()] *)
Definition init : state :=
  {| heap := ∅; transaction_history := ∅; voice_command_history := ∅ |}.

(** *** Computations: state and exceptions *)

Definition M (A : Type) : Type := state → result A * state.

Definition ret {A} (a : A) : M A := λ st, (Ok a, st).

Definition bind {A B} (m : M A) (f : A → M B) : M B :=
  λ st,
    match m st with
    | (Ok a, st') => f a st'
    | (Raise e, st') => (Raise e, st')
    end.

Definition raise {A} (e : exn) : M A := λ st, (Raise e, st).

Definition gets {A} (f : state → A) : M A := λ st, (Ok (f st), st).

Definition modify (f : state → state) : M unit := λ st, (Ok tt, f st).

Global Instance M_ret : MRet M := @ret.
Global Instance M_bind : MBind M := λ A B f m, bind m f.

(** Reading the dict behind a reference. *)
Definition deref (l : loc) : M payload := gets (λ st, heap st !!! l).

(** A list comprehension with a filter that may raise. *)
Fixpoint filterM {A} (keep : A → M bool) (l : list A) : M (list A) :=
  match l with
  | [] => mret []
  | x :: l' =>
    b ← keep x;
    rest ← filterM keep l';
    mret (if b : bool then x :: rest else rest)
  end.

(** Truth value of a [str] *)
Definition nonempty (s : pystr) : bool :=
  match s with
  | [] => false
  | _ :: _ => true
  end.

(** [l[-n:]] *)
Definition last_n {A} (n : nat) (l : list A) : list A := drop (length l - n) l.

(** *** Fraud detection patterns *)

Definition GAMBLING_KEYWORDS : list pystr := map py [
  (* English *)
  "bet"; "gambling"; "casino"; "poker"; "lottery"; "jackpot"; "wager"; "stake";
  "betting"; "gamble"; "slot"; "roulette"; "blackjack"; "baccarat"; "craps";
  "sportsbook"; "bookmaker"; "odds"; "handicap"; "spread"; "parlay";
  (* Hindi *)
  "शर्त"; "जुआ"; "कैसीनो"; "लॉटरी"; "जैकपॉट"; "सट्टा"; "बाजी"; "पैसा";
  "रुपया"; "टिकट"; "नंबर"; "गेम"; "खेल"; "जीत"; "हार"; "पैसा";
  (* Bengali *)
  "বাজি"; "জুয়া"; "ক্যাসিনো"; "লটারি"; "জ্যাকপট"; "টিকিট"; "নম্বর";
  "গেম"; "খেলা"; "জয়"; "হার"; "টাকা";
  (* Tamil *)
  "பந்தயம்"; "சூதாட்டம்"; "லாட்டரி"; "ஜாக்பாட்"; "டிக்கெட்"; "எண்";
  "விளையாட்டு"; "விளையாடு"; "வெற்றி"; "தோல்வி"; "பணம்";
  (* Telugu *)
  "జూదం"; "లాటరీ"; "కాసినో"; "జాక్పాట్"; "టికెట్"; "సంఖ్య";
  "గేమ్"; "ఆడు"; "గెలుపు"; "ఓటమి"; "డబ్బు"
]%string.

Definition SUSPICIOUS_PATTERNS : list pystr := map py [
  "\b\d{4,6}\b";                               (* 4-6 digit numbers *)
  "\b\d{10,}\b";                               (* long number sequences *)
  "urgent|emergency|quick|fast|immediate";     (* urgency keywords *)
  "secret|confidential|private";               (* secrecy keywords *)
  "call me|contact me|message me"              (* contact requests *)
]%string.

(** Transaction limits and patterns *)
Definition MAX_DAILY_TRANSACTIONS : nat := 10.
Definition MAX_HOURLY_TRANSACTIONS : nat := 5.
Definition MAX_SINGLE_TRANSACTION : Z := 50000.
Definition SUSPICIOUS_AMOUNT_THRESHOLD : Z := 10000.

(** *** [FraudDetectionService] *)

(** The readings of [datetime.now()] one call of [detect_fraud] takes: one
    in [_check_transaction_patterns], one per stored command in the list
    comprehension of [_check_voice_patterns], one in [_check_time_patterns]
    and one for the verdict's timestamp. *)
Record clock := {
  now_transactions : datetime;
  now_voice : nat → datetime;
  now_time : datetime;
  now_verdict : datetime
}.

Record verdict := {
  is_fraud : bool;
  risk_score : Z;
  fraud_indicators : list string;
  (** [min(risk_score / 100, 1.0)], as the rational the float denotes *)
  confidence : Q;
  verdict_timestamp : datetime
}.

Section WithUnicode.
Context {U : Unicode}.

Definition add_text (field : option pystr) (text_to_check : pystr) : pystr :=
  match field with
  | Some s =>
    if nonempty s then text_to_check ++ str_lower s ++ py " " else text_to_check
  | None => text_to_check
  end.

Definition _check_gambling_keywords (data : loc) : M bool :=
  d ← deref data;
  let text_to_check := [] in
  let text_to_check := add_text (description d) text_to_check in
  let text_to_check := add_text (voice_command d) text_to_check in
  let text_to_check := add_text (recipient_name d) text_to_check in
  mret (existsb (λ keyword, contains (str_lower keyword) text_to_check)
          GAMBLING_KEYWORDS).

(** [tx['timestamp']] of a stored transaction *)
Definition stored_timestamp (tx : loc) : M datetime :=
  d ← deref tx;
  match timestamp d with
  | Some t => mret t
  | None => raise KeyError
  end.

Definition within (now : datetime) (window : Z) (tx : loc) : M bool :=
  t ← stored_timestamp tx;
  mret (bool_decide (now - t < window)%Z).

Definition _check_transaction_patterns (data : loc) (now : datetime) : M bool :=
  d ← deref data;
  match user_id d with
  | None => mret false
  | Some user_id =>
    if negb (nonempty user_id) then mret false
    else
      user_transactions ←
        gets (λ st, default [] (transaction_history st !! user_id));
      recent_transactions ←
        filterM (within now (timedelta_hours 1)) user_transactions;
      if bool_decide (MAX_HOURLY_TRANSACTIONS < length recent_transactions)
      then mret true
      else
        daily_transactions ←
          filterM (within now (timedelta_days 1)) user_transactions;
        if bool_decide (MAX_DAILY_TRANSACTIONS < length daily_transactions)
        then mret true
        else mret false
  end.

Definition _check_amount_patterns (data : loc) : M bool :=
  d ← deref data;
  let amount := default (JInt 0) (amount d) in
  match as_number amount with
  | None => raise TypeError          (* amount > MAX_SINGLE_TRANSACTION *)
  | Some a =>
    if num_gt a MAX_SINGLE_TRANSACTION then mret true
    else
      match num_int a with           (* int(amount) *)
      | Raise e => raise e
      | Ok n =>
        let amount_str := str_of_int n in
        if bool_decide (distinct_chars amount_str = 1) then mret true
        else if num_gt a SUSPICIOUS_AMOUNT_THRESHOLD && num_mod_is_zero a 1000
        then mret true
        else mret false
      end
  end.

(** The commands of the list comprehension, the [i]-th one tested against
    the [i]-th reading of the clock. *)
Fixpoint recent_commands (now : nat → datetime) (i : nat)
    (cmds : list voice_record) : list voice_record :=
  match cmds with
  | [] => []
  | cmd :: cmds' =>
    let rest := recent_commands now (S i) cmds' in
    if bool_decide (now i - command_timestamp cmd < timedelta_minutes 5)%Z
    then cmd :: rest else rest
  end.

Definition _check_voice_patterns (data : loc) (now : nat → datetime) : M bool :=
  d ← deref data;
  let voice_command := default [] (voice_command d) in
  if negb (nonempty voice_command) then mret false
  else
    let voice_lower := str_lower voice_command in
    if existsb (λ pattern, bool_decide (is_Some (Re.search pattern voice_lower)))
         SUSPICIOUS_PATTERNS
    then mret true
    else
      match user_id d with
      | None => mret false
      | Some user_id =>
        if negb (nonempty user_id) then mret false
        else
          user_commands ←
            gets (λ st, default [] (voice_command_history st !! user_id));
          if bool_decide (3 < length (recent_commands now 0 user_commands))
          then mret true
          else mret false
      end.

Definition _check_time_patterns (data : loc) (now : datetime) : M bool :=
  let hour := hour now in
  if bool_decide (2 ≤ hour ≤ 5)%Z then mret true else mret false.

(** [if rule: fraud_indicators.append(tag); risk_score += weight] *)
Definition flag (rule : bool) (tag : string) (weight : Z)
    (acc : list string * Z) : list string * Z :=
  if rule then (acc.1 ++ [tag], (acc.2 + weight)%Z) else acc.

Definition detect_fraud (data : loc) (clk : clock) : M verdict :=
  let acc := ([], 0%Z) in
  gambling ← _check_gambling_keywords data;
  let acc := flag gambling "gambling_keywords_detected" 30 acc in
  transactions ← _check_transaction_patterns data (now_transactions clk);
  let acc := flag transactions "suspicious_transaction_pattern" 25 acc in
  amounts ← _check_amount_patterns data;
  let acc := flag amounts "suspicious_amount_pattern" 20 acc in
  voice ← _check_voice_patterns data (now_voice clk);
  let acc := flag voice "suspicious_voice_pattern" 15 acc in
  time ← _check_time_patterns data (now_time clk);
  let acc := flag time "suspicious_time_pattern" 10 acc in
  let '(fraud_indicators, risk_score) := acc in
  let is_fraud :=
    bool_decide (50 ≤ risk_score)%Z || bool_decide (2 ≤ length fraud_indicators) in
  mret {| is_fraud := is_fraud;
          risk_score := Z.min risk_score 100;
          fraud_indicators := fraud_indicators;
          confidence :=
            (let c := Qmake risk_score 100 in if Qle_bool c 1 then c else 1%Q);
          verdict_timestamp := now_verdict clk |}.

End WithUnicode.

(** [log_transaction]: the dict is stamped in place and its reference
    appended; only the last 100 references are kept. *)
Definition log_transaction (user_id : pystr) (transaction_data : loc)
    (now : datetime) : M unit :=
  modify (λ st,
    let history := default [] (transaction_history st !! user_id) in
    let history := history ++ [transaction_data] in
    let history :=
      if bool_decide (100 < length history) then last_n 100 history else history in
    {| heap := alter (set_timestamp now) transaction_data (heap st);
       transaction_history := <[user_id := history]> (transaction_history st);
       voice_command_history := voice_command_history st |}).

(** [log_voice_command]: a new record is appended; only the last 50 are kept. *)
Definition log_voice_command (user_id : pystr) (cmd : pystr)
    (now : datetime) : M unit :=
  modify (λ st,
    let history := default [] (voice_command_history st !! user_id) in
    let history := history ++ [{| command := cmd; command_timestamp := now |}] in
    let history :=
      if bool_decide (50 < length history) then last_n 50 history else history in
    {| heap := heap st;
       transaction_history := transaction_history st;
       voice_command_history := <[user_id := history]> (voice_command_history st) |}).

(** *** The [/detect-fraud] route *)

Inductive response (A : Type) :=
| Reply (a : A)
| Failure (status : nat) (error : string).
Arguments Reply {A} a.
Arguments Failure {A} status error.

(** [not data] for the parsed payload: an empty dict. *)
Definition empty_dict (p : payload) : bool :=
  bool_decide (user_id p = None) && bool_decide (amount p = None)
  && bool_decide (description p = None) && bool_decide (voice_command p = None)
  && bool_decide (recipient_name p = None) && bool_decide (timestamp p = None)
  && match other_keys p with [] => true | _ :: _ => false end.

(** [request.get_json()] builds a new dict. *)
Definition new_dict (p : payload) : M loc :=
  λ st,
    let l := fresh (dom (heap st)) in
    (Ok l, {| heap := <[l := p]> (heap st);
              transaction_history := transaction_history st;
              voice_command_history := voice_command_history st |}).

(** The clock readings of one request to the route. *)
Record route_clock := {
  now_log_transaction : datetime;
  now_log_voice : datetime;
  now_detect : clock
}.

Section WithUnicode.
Context {U : Unicode}.

Definition detect_fraud_body (body : payload) (clk : route_clock) : M verdict :=
  data ← new_dict body;
  d ← deref data;
  match user_id d with
  | Some user_id =>
    if nonempty user_id then
      log_transaction user_id data (now_log_transaction clk);;
      match voice_command d with
      | Some cmd => log_voice_command user_id cmd (now_log_voice clk)
      | None => mret tt
      end
    else mret tt
  | None => mret tt
  end;;
  detect_fraud data (now_detect clk).

Definition detect_fraud_route (body : payload) (clk : route_clock)
    : state → response verdict * state :=
  λ st,
    if empty_dict body then (Failure 400 "No data provided", st)
    else
      match detect_fraud_body body clk st with
      | (Ok result, st') => (Reply result, st')
      | (Raise _, st') => (Failure 500 "Internal server error", st')
      end.

End WithUnicode.

(** *** Voice commands *)

(** The dict [extract_voice_intent] returns; absent keys are [None].  The
    confidence literals are kept as the decimal fractions written in the
    source. *)
Record voice_intent := {
  intent : string;
  intent_amount : option pyfloat;
  recipient : option pystr;
  intent_confidence : Q;
  original_command : option pystr
}.

Definition send_patterns : list pystr := map py [
  "send\s+(\d+)\s+to\s+([a-zA-Z\s]+)";
  "(\d+)\s+rupees?\s+to\s+([a-zA-Z\s]+)";
  "([a-zA-Z\s]+)\s+ko\s+(\d+)\s+bhej";
  "([a-zA-Z\s]+)\s+को\s+(\d+)\s+भेज"
]%string.

Definition receive_patterns : list pystr := map py [
  "receive\s+money";
  "show\s+qr";
  "qr\s+code";
  "पैसा\s+ले";
  "क्यूआर\s+दिखा"
]%string.

Definition balance_patterns : list pystr := map py [
  "balance";
  "how\s+much";
  "कितना\s+पैसा";
  "बैलेंस";
  "बाकी"
]%string.

Definition history_patterns : list pystr := map py [
  "history";
  "transactions";
  "list";
  "इतिहास";
  "लिस्ट"
]%string.

Definition help_patterns : list pystr := map py [
  "help";
  "what\s+can\s+you\s+do";
  "मदद";
  "क्या\s+कर\s+सकते\s+हो"
]%string.

Section WithUnicode.
Context {U : Unicode}.

(** What the body of the first loop returns for a pattern that matched. *)
Definition send_money (pattern : pystr) (m : Re.captures) : result voice_intent :=
  if contains (py "ko") pattern || contains (py "को") pattern then
    (* Hindi pattern: name ko amount bhej *)
    match float_of_digits (Re.group m 2) with
    | Ok a =>
      Ok {| intent := "send_money";
            recipient := Some (strip (Re.group m 1));
            intent_amount := Some a;
            intent_confidence := 9 # 10;
            original_command := None |}
    | Raise e => Raise e
    end
  else
    (* English pattern: send amount to name *)
    match float_of_digits (Re.group m 1) with
    | Ok a =>
      Ok {| intent := "send_money";
            intent_amount := Some a;
            recipient := Some (strip (Re.group m 2));
            intent_confidence := 9 # 10;
            original_command := None |}
    | Raise e => Raise e
    end.

(** [for pattern in send_patterns: match = re.search(..); if match: return ..] *)
Fixpoint first_send (patterns : list pystr) (cmd : pystr)
    : option (result voice_intent) :=
  match patterns with
  | [] => None
  | pattern :: patterns' =>
    match Re.search pattern cmd with
    | Some m => Some (send_money pattern m)
    | None => first_send patterns' cmd
    end
  end.

(** [for pattern in patterns: if re.search(pattern, command): return ..] *)
Definition any_match (patterns : list pystr) (cmd : pystr) : bool :=
  existsb (λ pattern, bool_decide (is_Some (Re.search pattern cmd))) patterns.

Definition plain_intent (name : string) : voice_intent :=
  {| intent := name; intent_amount := None; recipient := None;
     intent_confidence := 8 # 10; original_command := None |}.

Definition extract_voice_intent (cmd : pystr) : result voice_intent :=
  match first_send send_patterns cmd with
  | Some r => r
  | None =>
    if any_match receive_patterns cmd then Ok (plain_intent "receive_money")
    else if any_match balance_patterns cmd then Ok (plain_intent "check_balance")
    else if any_match history_patterns cmd then Ok (plain_intent "view_history")
    else if any_match help_patterns cmd then Ok (plain_intent "help")
    else
      Ok {| intent := "unknown"; intent_amount := None; recipient := None;
            intent_confidence := 1 # 10; original_command := Some cmd |}
  end.

(** *** The [/process-voice] route *)

(** Its payload: [{'command': .., 'user_id': ..}]. *)
Record voice_payload := {
  payload_command : option pystr;
  payload_user_id : option pystr
}.

Definition process_voice (body : voice_payload) (now : datetime)
    : state → response voice_intent * state :=
  λ st,
    match payload_command body with
    | None => (Failure 400 "No command provided", st)
    | Some c =>
      let cmd := str_lower c in
      let user_id := default [] (payload_user_id body) in
      let st' :=
        if nonempty user_id then (log_voice_command user_id cmd now st).2 else st in
      match extract_voice_intent cmd with
      | Ok result => (Reply result, st')
      | Raise _ => (Failure 500 "Internal server error", st')
      end
    end.

End WithUnicode.

End Svc.

(* ===================================================================== *)
(** ** Vocabulary of the properties *)
(* ===================================================================== *)

Import Py Svc.

Global Instance exn_eq_dec : EqDecision exn.
Proof. solve_decision. Defined.

Global Instance result_eq_dec `{EqDecision A} : EqDecision (result A).
Proof. solve_decision. Defined.

(** *** Computations that only read *)

(** A computation is read-only when it hands back the state it was given,
    whether it returns or raises. *)
Definition readonly {A} (m : M A) : Prop := ∀ st, (m st).2 = st.

(** *** Concrete requests *)

Module Example.

Definition request (user : option string) (amt : option json)
    (voice : option string) : payload :=
  {| user_id := py <$> user; amount := amt; description := None;
     voice_command := py <$> voice; recipient_name := None;
     timestamp := None; other_keys := [] |}.

(** A wall-clock time [h] hours and [m] minutes into a day. *)
Definition at_time (h m : Z) : datetime := (h * 3600000000 + m * 60000000)%Z.

(** A clock that reads [t] throughout one call. *)
Definition steady (t : datetime) : clock :=
  {| now_transactions := t; now_voice := λ _, t; now_time := t; now_verdict := t |}.

Definition steady_route (t : datetime) : route_clock :=
  {| now_log_transaction := t; now_log_voice := t; now_detect := steady t |}.

(** The store after a caller has built the dict [p]; the dict is at [1]. *)
Definition with_dict (p : payload) : state := (new_dict p init).2.

End Example.

(** *** Rules and verdicts *)

(** The five rules as the specification lists them: indicator, weight and
    predicate, in the order [detect_fraud] consults them. *)
Definition rule_table `{U : Unicode} (data : loc) (clk : clock)
    : list (string * Z * M bool) :=
  [ ("gambling_keywords_detected"%string, 30%Z, _check_gambling_keywords data);
    ("suspicious_transaction_pattern"%string, 25%Z,
       _check_transaction_patterns data (now_transactions clk));
    ("suspicious_amount_pattern"%string, 20%Z, _check_amount_patterns data);
    ("suspicious_voice_pattern"%string, 15%Z,
       _check_voice_patterns data (now_voice clk));
    ("suspicious_time_pattern"%string, 10%Z,
       _check_time_patterns data (now_time clk)) ].

(** A rule is triggered in a state when its predicate returns [True] there. *)
Definition triggered_rules `{U : Unicode} (data : loc) (clk : clock) (st : state)
    : list (string * Z * M bool) :=
  filter (λ rule, (rule.2 st).1 = Ok true) (rule_table data clk).

Definition indicator_of (rule : string * Z * M bool) : string := rule.1.1.
Definition weight_of (rule : string * Z * M bool) : Z := rule.1.2.
Definition total (weights : list Z) : Z := foldr Z.add 0%Z weights.

(** The verdict [detect_fraud] builds from the five outcomes. *)
Definition assemble (g t a vo ti : bool) (clk : clock) : verdict :=
  let acc := flag ti "suspicious_time_pattern" 10
    (flag vo "suspicious_voice_pattern" 15
      (flag a "suspicious_amount_pattern" 20
        (flag t "suspicious_transaction_pattern" 25
          (flag g "gambling_keywords_detected" 30 ([], 0%Z))))) in
  {| is_fraud := bool_decide (50 ≤ acc.2)%Z || bool_decide (2 ≤ length acc.1);
     risk_score := Z.min acc.2 100;
     fraud_indicators := acc.1;
     confidence := (let c := Qmake acc.2 100 in if Qle_bool c 1 then c else 1%Q);
     verdict_timestamp := now_verdict clk |}.

(** The amount rule as a function of the request dict. *)
Definition amount_rule (d : payload) : result bool :=
  match as_number (default (JInt 0) (amount d)) with
  | None => Raise TypeError
  | Some a =>
    if num_gt a MAX_SINGLE_TRANSACTION then Ok true
    else
      match num_int a with
      | Raise e => Raise e
      | Ok n =>
        Ok (bool_decide (distinct_chars (str_of_int n) = 1)
            || num_gt a SUSPICIOUS_AMOUNT_THRESHOLD && num_mod_is_zero a 1000)
      end
  end.

Section RequestRules.
Context {U : Unicode}.

(** The gambling rule as a function of the request dict. *)
Definition gambling_rule (d : payload) : bool :=
  existsb
    (λ keyword,
       contains (str_lower keyword)
         (add_text (recipient_name d)
            (add_text (voice_command d) (add_text (description d) []))))
    GAMBLING_KEYWORDS.

End RequestRules.

(** The indicators of the rules that read nothing but the request. *)
Definition non_history_indicators : list string :=
  ["gambling_keywords_detected"; "suspicious_amount_pattern"]%string.


(** The amount is present and not a number. *)
Definition non_numeric_amount (d : payload) : Prop :=
  match amount d with
  | Some v => as_number v = None
  | None => False
  end.

(** The number written with [m] ones. *)
Definition repunit (m : nat) : Z := ((10 ^ Z.of_nat m - 1) / 9)%Z.

(** A number all of whose decimal digits are the same digit [d]: one digit
    is enough. *)
Definition repdigit (n : Z) : Prop :=
  ∃ d k, (0 ≤ d ≤ 9)%Z ∧ n = (d * repunit (S k))%Z.


(** *** The ledger as the rules read it *)

(** The references and the voice records stored for an identity. *)
Definition transactions_of (st : state) (user : pystr) : list loc :=
  default [] (transaction_history st !! user).

Definition commands_of (st : state) (user : pystr) : list voice_record :=
  default [] (voice_command_history st !! user).

(** The stamp of a stored dict. *)
Definition stamp (st : state) (tx : loc) : option datetime :=
  timestamp (heap st !!! tx).

(** [now - timestamp < window] for a stored transaction. *)
Definition in_window (st : state) (now : datetime) (window : Z) (tx : loc) : Prop :=
  match stamp st tx with
  | Some t => (now - t < window)%Z
  | None => False
  end.

Global Instance in_window_dec st now window tx : Decision (in_window st now window tx).
Proof. unfold in_window. destruct (stamp st tx); apply _. Defined.

(** [countWithin] of the specification, for transactions. *)
Definition count_within (st : state) (user : pystr) (now : datetime) (window : Z) : nat :=
  length (filter (in_window st now window) (transactions_of st user)).

(** Every transaction stored for [user] carries a stamp. *)
Definition stamped (st : state) (user : pystr) : Prop :=
  Forall (λ tx, is_Some (stamp st tx)) (transactions_of st user).

(** What the request gives the history rules to read. *)
Definition history_readable (st : state) (data : loc) : Prop :=
  match user_id (heap st !!! data) with
  | Some user => stamped st user
  | None => True
  end.

(** The dicts an identity's history refers to, as a reader sees them. *)
Definition transaction_records (st : state) (user : pystr) : list payload :=
  (λ tx, heap st !!! tx) <$> transactions_of st user.

(** The times at which the transactions stored for [user] were stamped. *)
Definition transaction_times (st : state) (user : pystr) : list datetime :=
  (λ tx, default 0%Z (stamp st tx)) <$> transactions_of st user.

(** The times of the voice records stored for [user]. *)
Definition command_times (st : state) (user : pystr) : list datetime :=
  command_timestamp <$> commands_of st user.

(** A list of times that never goes back. *)
Definition nondecreasing (l : list Z) : Prop :=
  ∀ i j x y, i ≤ j → l !! i = Some x → l !! j = Some y → (x ≤ y)%Z.

(** Every stored transaction, of every identity, carries a stamp. *)
Definition ledger_stamped (st : state) : Prop := ∀ user, stamped st user.

(** *** Sequences of ledger operations *)

(** What a caller of the service object can do to the ledger: build a dict,
    hand a dict to [log_transaction], log a voice command. *)
Inductive call :=
| NewDict (p : payload)
| LogTransaction (user : pystr) (data : loc) (now : datetime)
| LogVoiceCommand (user : pystr) (cmd : pystr) (now : datetime).

Definition perform (st : state) (c : call) : state :=
  match c with
  | NewDict p => (new_dict p st).2
  | LogTransaction user data now => (log_transaction user data now st).2
  | LogVoiceCommand user cmd now => (log_voice_command user cmd now st).2
  end.

Definition perform_all (cs : list call) (st : state) : state := foldl perform st cs.

(** The dicts logged for [user], oldest first. *)
Definition logged_transactions (user : pystr) (cs : list call) : list loc :=
  omap (λ c, match c with
             | LogTransaction u data _ => if decide (u = user) then Some data else None
             | _ => None
             end) cs.

(** The commands logged for [user], oldest first. *)
Definition logged_commands (user : pystr) (cs : list call) : list voice_record :=
  omap (λ c, match c with
             | LogVoiceCommand u cmd now =>
               if decide (u = user)
               then Some {| command := cmd; command_timestamp := now |} else None
             | _ => None
             end) cs.

(** The dicts handed to [log_transaction], for any identity. *)
Definition logged_dicts (cs : list call) : list loc :=
  omap (λ c, match c with LogTransaction _ data _ => Some data | _ => None end) cs.

(** The clock readings of the logging calls, in call order. *)
Definition call_times (cs : list call) : list datetime :=
  omap (λ c, match c with
             | NewDict _ => None
             | LogTransaction _ _ now | LogVoiceCommand _ _ now => Some now
             end) cs.

(** Every dict handed to [log_transaction] exists when it is handed over. *)
Fixpoint dicts_exist (st : state) (cs : list call) : Prop :=
  match cs with
  | [] => True
  | c :: cs' =>
    match c with
    | LogTransaction _ data _ => is_Some (heap st !! data)
    | _ => True
    end
    ∧ dicts_exist (perform st c) cs'
  end.

(** What holds of the stored transactions after a sequence of calls. *)
Definition ledger_ok (cs : list call) (st : state) : Prop :=
  (∀ user tx, tx ∈ transactions_of st user → tx ∈ logged_dicts cs)
  ∧ (∀ tx, tx ∈ logged_dicts cs →
       is_Some (heap st !! tx) ∧ ∃ t, stamp st tx = Some t ∧ t ∈ call_times cs)
  ∧ (∀ user, nondecreasing (transaction_times st user)).

(** [n] requests of one identity, one minute apart from [9:00] on: each
    builds its dict and logs it. *)
Definition burst (user : pystr) (n : nat) : list call :=
  flat_map
    (λ i, [NewDict (Example.request None (Some (JInt 250)) None);
           LogTransaction user (Pos.of_nat (S i)) (Example.at_time 9 (Z.of_nat i))])
    (seq 0 n).

(** The calls the route makes on the ledger before it evaluates the rules,
    for a payload that carries [user]; [data] is the dict it has parsed. *)
Definition route_calls (body : payload) (clk : route_clock) (user : pystr)
    (data : loc) : list call :=
  [NewDict body; LogTransaction user data (now_log_transaction clk)]
  ++ match voice_command body with
     | Some cmd => [LogVoiceCommand user cmd (now_log_voice clk)]
     | None => []
     end.

(** The ledger after the route has served [body] at each of [minutes]
    (minutes past 9:00), in turn. *)
Definition served `{U : Unicode} (body : payload) (minutes : list Z) (st : state)
    : state :=
  foldl (λ st m, (detect_fraud_route body (Example.steady_route (Example.at_time 9 m)) st).2)
        st minutes.

(** *** Patterns and intents *)

Section Matches.
Context {U : Unicode}.
Import Re.

(** The texts a pattern can consume (leaving aside what [\b] asks of the
    surrounding characters). *)
Fixpoint consumes (r : regex) (w : pystr) : Prop :=
  match r with
  | Empty | WordBoundary => w = []
  | Chars cs lo hi => Forall (λ c, cset_mem cs c = true) w ∧ lo ≤ length w
  | Seq r1 r2 => ∃ w1 w2, w = w1 ++ w2 ∧ consumes r1 w1 ∧ consumes r2 w2
  | Alt r1 r2 => consumes r1 w ∨ consumes r2 w
  | Group _ r1 => consumes r1 w
  end.

(** The groups a pattern sets: each group it goes through is bound to a
    text its body can consume. *)
Fixpoint binds (r : regex) (caps caps' : captures) : Prop :=
  match r with
  | Empty | WordBoundary | Chars _ _ _ => caps' = caps
  | Seq r1 r2 => ∃ mid, binds r1 caps mid ∧ binds r2 mid caps'
  | Alt r1 r2 => binds r1 caps caps' ∨ binds r2 caps caps'
  | Group i r1 =>
    ∃ mid w, binds r1 caps mid ∧ consumes r1 w ∧ caps' = <[i := w]> mid
  end.

End Matches.

(** Some pattern of a group matches somewhere in the command. *)
Definition matches `{U : Unicode} (patterns : list pystr) (cmd : pystr) : Prop :=
  ∃ pattern, pattern ∈ patterns ∧ is_Some (Re.search pattern cmd).

(** The dict returned for a send-money command. *)
Definition send_intent (amt : pyfloat) (who : pystr) : voice_intent :=
  {| intent := "send_money"; intent_amount := Some amt; recipient := Some who;
     intent_confidence := 9 # 10; original_command := None |}.

(** The dict returned when no group matches. *)
Definition unknown_intent (cmd : pystr) : voice_intent :=
  {| intent := "unknown"; intent_amount := None; recipient := None;
     intent_confidence := 1 # 10; original_command := Some cmd |}.

(** *** The routes as a client sees them *)

(** The ledger once the [/detect-fraud] route has recorded the request,
    before it evaluates the rules. *)
Definition recorded (body : payload) (clk : route_clock) (st : state) : state :=
  let data := fresh (dom (heap st)) in
  match user_id body with
  | Some user =>
    if nonempty user then perform_all (route_calls body clk user data) st
    else (new_dict body st).2
  | None => (new_dict body st).2
  end.

(** The payload carries no usable [user_id]: the key is absent or empty. *)
Definition anonymous (body : payload) : Prop :=
  user_id body = None ∨ user_id body = Some [].

(** The requests a client can send to the two routes. *)
Inductive api_call :=
| PostDetectFraud (body : payload) (clk : route_clock)
| PostProcessVoice (body : voice_payload) (now : datetime).

Definition serve `{U : Unicode} (st : state) (c : api_call) : state :=
  match c with
  | PostDetectFraud body clk => (detect_fraud_route body clk st).2
  | PostProcessVoice body now => (process_voice body now st).2
  end.

(** The ledger after the service, started afresh, has served [cs] in turn. *)
Definition serve_all `{U : Unicode} (cs : list api_call) : state := foldl serve init cs.

(** The ledger operations a request performs on the ledger it finds. *)
Definition operations `{U : Unicode} (st : state) (c : api_call) : list call :=
  match c with
  | PostDetectFraud body clk =>
    if empty_dict body then []
    else
      match user_id body with
      | Some user =>
        if nonempty user
        then route_calls body clk user (fresh (dom (heap st)))
        else [NewDict body]
      | None => [NewDict body]
      end
  | PostProcessVoice body now =>
    match payload_command body with
    | Some c =>
      let user := default [] (payload_user_id body) in
      if nonempty user then [LogVoiceCommand user (str_lower c) now] else []
    | None => []
    end
  end.

(** All the operations of a sequence of requests, from the ledger [st] on. *)
Fixpoint trace `{U : Unicode} (st : state) (cs : list api_call) : list call :=
  match cs with
  | [] => []
  | c :: cs' => operations st c ++ trace (serve st c) cs'
  end.

(** The clock readings a request logs with, in the order it takes them. *)
Definition readings (c : api_call) : list datetime :=
  match c with
  | PostDetectFraud _ clk => [now_log_transaction clk; now_log_voice clk]
  | PostProcessVoice _ now => [now]
  end.

(** What holds of every ledger the routes build: each stored reference
    points to an existing, stamped dict; no dict is stored twice, neither
    in one history nor in two; the histories are within their bounds. *)
Record route_ledger (st : state) : Prop := {
  stored_exist : ∀ user tx, tx ∈ transactions_of st user → is_Some (heap st !! tx);
  stored_stamped : ledger_stamped st;
  stored_once : ∀ user, NoDup (transactions_of st user);
  stored_apart : ∀ user other tx,
    tx ∈ transactions_of st user → tx ∈ transactions_of st other → user = other;
  stored_bounded : ∀ user,
    length (transactions_of st user) ≤ 100 ∧ length (commands_of st user) ≤ 50
}.

(** *** The gambling rule, field by field *)




(** *** The voice rule *)

(** The part of the voice rule that counts recent commands. *)
Definition voice_rate (d : payload) (now : nat → datetime) (st : state) : bool :=
  match user_id d with
  | Some user =>
    nonempty user
    && bool_decide (3 < length (recent_commands now 0 (commands_of st user)))
  | None => false
  end.

(** The voice rule as a function of the request dict, the clock readings
    and the ledger. *)
Definition voice_rule `{U : Unicode} (d : payload) (now : nat → datetime)
    (st : state) : bool :=
  match voice_command d with
  | Some cmd =>
    nonempty cmd
    && (any_match SUSPICIOUS_PATTERNS (str_lower cmd) || voice_rate d now st)
  | None => false
  end.

(** The stored voice commands that are less than five minutes old at [t]. *)
Definition recent_at (t : datetime) (cmds : list voice_record) : list voice_record :=
  filter (λ r, (t - command_timestamp r < timedelta_minutes 5)%Z) cmds.

(** The fixed phrases of the urgency, secrecy and contact patterns. *)
Definition alarm_phrases : list pystr := map py [
  "urgent"; "emergency"; "quick"; "fast"; "immediate";
  "secret"; "confidential"; "private";
  "call me"; "contact me"; "message me"
]%string.

(** The character before a position: the last one of the text passed over,
    or the one before that text. *)
Definition last_or (prev : option char) (w : pystr) : option char :=
  match last w with
  | Some c => Some c
  | None => prev
  end.

Section Wording.
Context {U : Unicode}.

(** A run of [lo] to [hi] decimal digits with a word boundary on both
    sides: [\b\d{lo,hi}\b] found in [text]. *)
Definition digit_run (lo : nat) (hi : option nat) (text : pystr) : Prop :=
  ∃ pre w post,
    text = pre ++ w ++ post
    ∧ Forall (λ c, is_digit c = true) w
    ∧ lo ≤ length w ∧ match hi with Some h => length w ≤ h | None => True end
    ∧ xorb (Re.word_before (last pre)) (Re.word_after (w ++ post)) = true
    ∧ xorb (Re.word_before (last_or (last pre) w)) (Re.word_after post) = true.

(** The wordings the voice rule looks for. *)
Definition suspicious_wording (text : pystr) : Prop :=
  digit_run 4 (Some 6) text ∨ digit_run 10 None text
  ∨ ∃ phrase, phrase ∈ alarm_phrases ∧ contains phrase text = true.

End Wording.

(** *** What patterns match *)

Section Spans.
Context {U : Unicode}.
Import Re.

(** The texts a pattern matches exactly (what [\b] asks of the surrounding
    characters left aside, as in [consumes]): repetition counts are within
    both bounds. *)
Fixpoint spans (r : regex) (w : pystr) : Prop :=
  match r with
  | Empty | WordBoundary => w = []
  | Chars cs lo hi =>
    Forall (λ c, cset_mem cs c = true) w ∧ lo ≤ length w
    ∧ match hi with Some h => length w ≤ h | None => True end
  | Seq r1 r2 => ∃ w1 w2, w = w1 ++ w2 ∧ spans r1 w1 ∧ spans r2 w2
  | Alt r1 r2 => spans r1 w ∨ spans r2 w
  | Group _ r1 => spans r1 w
  end.

(** Patterns without [\b]. *)
Fixpoint boundary_free (r : regex) : bool :=
  match r with
  | Empty | Chars _ _ _ => true
  | WordBoundary => false
  | Seq r1 r2 | Alt r1 r2 => boundary_free r1 && boundary_free r2
  | Group _ r1 => boundary_free r1
  end.

End Spans.

(** The pattern that matches the text [l] and nothing else. *)
Definition literal (l : pystr) : Re.regex :=
  foldr (λ c r, Re.Seq (Re.Chars [Re.IChar c] 1 (Some 1)) r) Re.Empty l.

(** [l|l1|l2|...] *)
Fixpoint one_of (l : pystr) (ls : list pystr) : Re.regex :=
  match ls with
  | [] => literal l
  | l' :: ls' => Re.Alt (literal l) (one_of l' ls')
  end.

(** The continuation [search] ends a match with. *)
Definition found : option char → pystr → Re.captures → option Re.captures :=
  λ _ _ caps, Some caps.

(** *** Send commands *)

(** An ASCII letter or a whitespace character: what [[a-zA-Z\s]] matches. *)
Definition name_char (c : char) : bool :=
  ascii_lower_letter c || ascii_upper c || is_space c.

(** No whitespace at either end. *)
Definition stripped (s : pystr) : Prop :=
  (∀ c, head s = Some c → is_space c = false)
  ∧ (∀ c, last s = Some c → is_space c = false).

(** The intents that carry no parameter. *)
Definition plain_intents : list voice_intent :=
  plain_intent <$> ["receive_money"; "check_balance"; "view_history"; "help"]%string.

(** The command [send <n> to <name>]. *)
Definition send_command (n : Z) (name : pystr) : pystr :=
  py "send " ++ str_of_int n ++ py " to " ++ name.

(** A name the send patterns take whole: ASCII letters and whitespace,
    beginning with a letter. *)
Definition plain_name (name : pystr) : Prop :=
  Forall (λ c, name_char c = true) name
  ∧ ∃ c rest, name = c :: rest ∧ is_space c = false.

(** [int(x)] of a finite float: truncation towards zero. *)
Definition truncated (q : Q) : Z := Z.quot (Qnum q) (Z.pos (Qden q)).

(** *** Name-first send commands *)

(** Every way of stopping a greedy repetition inside [x], after [n]
    characters, is below the lower bound or refused by the continuation. *)
Fixpoint stops_fail {R} (lo : nat) (k : option char → pystr → option R)
    (rest : pystr) (n : nat) (prev : option char) (x : pystr) : Prop :=
  (lo ≤ n → k prev (x ++ rest) = None)
  ∧ match x with
    | [] => True
    | c :: x' => stops_fail lo k rest (S n) (Some c) x'
    end.

(** The command [<name> ko <n> bhej]. *)
Definition ko_command (n : Z) (name : pystr) : pystr :=
  name ++ py " ko " ++ str_of_int n ++ py " bhej".

(** A name of ASCII letters and ASCII whitespace. *)
Definition ascii_name (name : pystr) : Prop :=
  name ≠ [] ∧ Forall (λ c, name_char c = true ∧ is_ascii c = true) name.

(* ===================================================================== *)
(** ** Properties *)
(* ===================================================================== *)

Set Warnings "-clear-no-such-hyp".

(** *** Computations that only read *)

Lemma readonly_ret {A} (a : A) : readonly (mret a).
Proof. by intros st. Qed.

Lemma readonly_raise {A} (e : exn) : readonly (raise (A:=A) e).
Proof. by intros st. Qed.

Lemma readonly_gets {A} (f : state → A) : readonly (gets f).
Proof. by intros st. Qed.

Lemma readonly_deref l : readonly (deref l).
Proof. apply readonly_gets. Qed.

Lemma readonly_bind {A B} (m : M A) (f : A → M B) :
  readonly m → (∀ a, readonly (f a)) → readonly (m ≫= f).
Proof.
  intros Hm Hf st. unfold mbind, M_bind, bind.
  specialize (Hm st). destruct (m st) as [[a|e] st1]; simpl in *; subst; [apply Hf | done].
Qed.

(** Running a bind whose first part only reads. *)
Lemma run_bind {A B} (m : M A) (f : A → M B) st :
  readonly m →
  (m ≫= f) st = match (m st).1 with
                | Ok a => f a st
                | Raise e => (Raise e, st)
                end.
Proof.
  intros Hm. unfold mbind, M_bind, bind. specialize (Hm st).
  destruct (m st) as [[a|e] st1]; simpl in *; by subst.
Qed.

Lemma run_deref {B} l (f : payload → M B) st :
  (deref l ≫= f) st = f (heap st !!! l) st.
Proof. done. Qed.

Lemma run_gets {A B} (g : state → A) (f : A → M B) st :
  (gets g ≫= f) st = f (g st) st.
Proof. done. Qed.

Create HintDb readonly discriminated.
#[export] Hint Resolve readonly_ret readonly_raise readonly_gets readonly_deref : readonly.

Ltac readonly_step :=
  match goal with
  | |- readonly (_ ≫= _) => apply readonly_bind; [| intros ?]
  | |- readonly (if ?b then _ else _) => destruct b
  | |- readonly (match ?x with _ => _ end) => destruct x
  | |- readonly _ => solve [auto with readonly]
  end.

Ltac solve_readonly := repeat readonly_step.

Lemma readonly_filterM {A} (keep : A → M bool) (l : list A) :
  (∀ x, readonly (keep x)) → readonly (filterM keep l).
Proof. intros Hk. induction l as [|x l IH]; simpl; solve_readonly. Qed.

Section ReadOnlyRules.
Context {U : Unicode}.

Lemma readonly_stored_timestamp tx : readonly (stored_timestamp tx).
Proof. unfold stored_timestamp. solve_readonly. Qed.

Lemma readonly_within now window tx : readonly (within now window tx).
Proof. unfold within. pose proof readonly_stored_timestamp. solve_readonly. Qed.

Lemma readonly_check_gambling_keywords data :
  readonly (_check_gambling_keywords data).
Proof. unfold _check_gambling_keywords. solve_readonly. Qed.

Lemma readonly_check_transaction_patterns data now :
  readonly (_check_transaction_patterns data now).
Proof.
  unfold _check_transaction_patterns.
  pose proof (λ w, readonly_filterM (within now w)) as Hf.
  pose proof readonly_within.
  solve_readonly.
Qed.

Lemma readonly_check_amount_patterns data :
  readonly (_check_amount_patterns data).
Proof. unfold _check_amount_patterns. solve_readonly. Qed.

Lemma readonly_check_voice_patterns data now :
  readonly (_check_voice_patterns data now).
Proof. unfold _check_voice_patterns. solve_readonly. Qed.

Lemma readonly_check_time_patterns data now :
  readonly (_check_time_patterns data now).
Proof. unfold _check_time_patterns. solve_readonly. Qed.

End ReadOnlyRules.

#[export] Hint Resolve readonly_stored_timestamp readonly_within
  readonly_check_gambling_keywords readonly_check_transaction_patterns
  readonly_check_amount_patterns readonly_check_voice_patterns
  readonly_check_time_patterns : readonly.

(** *** The aggregator *)

Section DetectFraud.
Context {U : Unicode}.

Lemma readonly_detect_fraud data clk : readonly (detect_fraud data clk).
Proof. unfold detect_fraud. solve_readonly. Qed.

Lemma check_time_patterns_run data now st :
  _check_time_patterns data now st = (Ok (bool_decide (2 ≤ hour now ≤ 5)%Z), st).
Proof. unfold _check_time_patterns. by case_bool_decide. Qed.

(** [detect_fraud] returns exactly when the first four rules return, with
    the verdict assembled from the five outcomes, in the state it started
    from. *)
Lemma detect_fraud_run data clk st :
  detect_fraud data clk st =
    match (_check_gambling_keywords data st).1 with
    | Raise e => (Raise e, st)
    | Ok g =>
      match (_check_transaction_patterns data (now_transactions clk) st).1 with
      | Raise e => (Raise e, st)
      | Ok t =>
        match (_check_amount_patterns data st).1 with
        | Raise e => (Raise e, st)
        | Ok a =>
          match (_check_voice_patterns data (now_voice clk) st).1 with
          | Raise e => (Raise e, st)
          | Ok vo =>
            (Ok (assemble g t a vo (bool_decide (2 ≤ hour (now_time clk) ≤ 5)%Z) clk), st)
          end
        end
      end
    end.
Proof.
  unfold detect_fraud.
  rewrite run_bind by auto with readonly.
  destruct (_ .1) as [g|e]; [|done].
  rewrite run_bind by auto with readonly.
  destruct (_ .1) as [t|e]; [|done].
  rewrite run_bind by auto with readonly.
  destruct (_ .1) as [a|e]; [|done].
  rewrite run_bind by auto with readonly.
  destruct (_ .1) as [vo|e]; [|done].
  rewrite run_bind by auto with readonly.
  rewrite check_time_patterns_run. simpl.
  unfold assemble.
  by destruct (flag _ _ _ _).
Qed.

Lemma detect_fraud_inv data clk st v st' :
  detect_fraud data clk st = (Ok v, st') →
  st' = st ∧
  ∃ g t a vo,
    (_check_gambling_keywords data st).1 = Ok g ∧
    (_check_transaction_patterns data (now_transactions clk) st).1 = Ok t ∧
    (_check_amount_patterns data st).1 = Ok a ∧
    (_check_voice_patterns data (now_voice clk) st).1 = Ok vo ∧
    v = assemble g t a vo (bool_decide (2 ≤ hour (now_time clk) ≤ 5)%Z) clk.
Proof.
  rewrite detect_fraud_run.
  destruct (_ .1) as [g|e]; [|done].
  destruct (_ .1) as [t|e]; [|done].
  destruct (_ .1) as [a|e]; [|done].
  destruct (_ .1) as [vo|e]; [|done].
  intros [= <- <-]. split; [done|]. by exists g, t, a, vo.
Qed.

Lemma triggered_rules_run data clk st g t a vo :
  (_check_gambling_keywords data st).1 = Ok g →
  (_check_transaction_patterns data (now_transactions clk) st).1 = Ok t →
  (_check_amount_patterns data st).1 = Ok a →
  (_check_voice_patterns data (now_voice clk) st).1 = Ok vo →
  let ti := bool_decide (2 ≤ hour (now_time clk) ≤ 5)%Z in
  indicator_of <$> triggered_rules data clk st
    = (assemble g t a vo ti clk).(fraud_indicators) ∧
  total (weight_of <$> triggered_rules data clk st)
    = total ((if g then [30] else []) ++ (if t then [25] else [])
             ++ (if a then [20] else []) ++ (if vo then [15] else [])
             ++ (if ti then [10] else []))%Z.
Proof.
  intros Hg Ht Ha Hvo ti.
  unfold triggered_rules, rule_table.
  rewrite !filter_cons, filter_nil. cbn [fst snd].
  rewrite Hg, Ht, Ha, Hvo, check_time_patterns_run. cbn [fst snd]. fold ti.
  destruct g, t, a, vo, ti; simpl;
    repeat (case_decide; simplify_eq); done.
Qed.

End DetectFraud.

(** *** The ledger as the rules read it *)

Section Rules.
Context {U : Unicode}.

Lemma filterM_within st now window (l : list loc) :
  Forall (λ tx, is_Some (stamp st tx)) l →
  filterM (within now window) l st = (Ok (filter (in_window st now window) l), st).
Proof.
  induction 1 as [|tx l [t Ht] _ IH]; [done|].
  cbn [filterM]. rewrite run_bind by auto with readonly.
  unfold within at 1, stored_timestamp.
  rewrite !run_bind by solve_readonly.
  unfold stamp in Ht. cbn. rewrite Ht. cbn.
  rewrite run_bind by (apply readonly_filterM; auto with readonly).
  rewrite IH. cbn.
  case_bool_decide as Hw; case_decide as Hw'; try done;
    unfold in_window, stamp in Hw'; rewrite Ht in Hw'; done.
Qed.

Lemma check_transaction_patterns_run data now st :
  history_readable st data →
  _check_transaction_patterns data now st =
    (Ok match user_id (heap st !!! data) with
        | Some user =>
          nonempty user
          && (bool_decide (5 < count_within st user now (timedelta_hours 1))
              || bool_decide (10 < count_within st user now (timedelta_days 1)))
        | None => false
        end, st).
Proof.
  unfold history_readable, _check_transaction_patterns, count_within.
  rewrite run_bind by auto with readonly. cbn.
  destruct (user_id _) as [user|]; [|done].
  intros Hst. destruct (nonempty user); [|done]. cbn.
  rewrite run_bind by auto with readonly. cbn.
  fold (transactions_of st user).
  rewrite run_bind by (apply readonly_filterM; auto with readonly).
  rewrite filterM_within by done. cbn.
  unfold MAX_HOURLY_TRANSACTIONS, MAX_DAILY_TRANSACTIONS.
  case_bool_decide; [done|].
  rewrite run_bind by (apply readonly_filterM; auto with readonly).
  rewrite filterM_within by done. cbn.
  by case_bool_decide.
Qed.

Lemma check_gambling_keywords_returns data st :
  ∃ g, _check_gambling_keywords data st = (Ok g, st).
Proof. unfold _check_gambling_keywords. rewrite run_deref. by eexists. Qed.


Lemma check_amount_patterns_run data st :
  _check_amount_patterns data st = (amount_rule (heap st !!! data), st).
Proof.
  unfold _check_amount_patterns, amount_rule.
  rewrite run_bind by auto with readonly. cbn.
  destruct (as_number _) as [a|]; [|done].
  destruct (num_gt a MAX_SINGLE_TRANSACTION); [done|].
  destruct (num_int a) as [n|e]; [|done].
  case_bool_decide; [done|]. cbn.
  by destruct (_ && _).
Qed.


Lemma amount_rule_non_numeric d :
  non_numeric_amount d → amount_rule d = Raise TypeError.
Proof.
  unfold non_numeric_amount, amount_rule.
  destruct (amount d) as [v|]; [|done]. cbn. by intros ->.
Qed.


End Rules.


Section Aggregator.
Context {U : Unicode}.

Lemma assemble_indicators g t a vo ti clk :
  fraud_indicators (assemble g t a vo ti clk) =
    (if g then ["gambling_keywords_detected"%string] else [])
    ++ (if t then ["suspicious_transaction_pattern"%string] else [])
    ++ (if a then ["suspicious_amount_pattern"%string] else [])
    ++ (if vo then ["suspicious_voice_pattern"%string] else [])
    ++ (if ti then ["suspicious_time_pattern"%string] else []).
Proof. by destruct g, t, a, vo, ti. Qed.



(** Membership of each tag in the assembled verdict. *)
Lemma elem_of_flagged (b : bool) (x y : string) :
  y ∈ (if b then [x] else []) ↔ b = true ∧ y = x.
Proof. destruct b; [rewrite list_elem_of_singleton | rewrite elem_of_nil]; naive_solver. Qed.

Ltac tag_membership :=
  rewrite assemble_indicators, !elem_of_app, !elem_of_flagged; naive_solver.

Lemma assemble_has_gambling g t a vo ti clk :
  "gambling_keywords_detected"%string ∈ fraud_indicators (assemble g t a vo ti clk)
  ↔ g = true.
Proof. tag_membership. Qed.

Lemma assemble_has_transaction g t a vo ti clk :
  "suspicious_transaction_pattern"%string ∈ fraud_indicators (assemble g t a vo ti clk)
  ↔ t = true.
Proof. tag_membership. Qed.

Lemma assemble_has_amount g t a vo ti clk :
  "suspicious_amount_pattern"%string ∈ fraud_indicators (assemble g t a vo ti clk)
  ↔ a = true.
Proof. tag_membership. Qed.

Lemma assemble_has_time g t a vo ti clk :
  "suspicious_time_pattern"%string ∈ fraud_indicators (assemble g t a vo ti clk)
  ↔ ti = true.
Proof. tag_membership. Qed.

End Aggregator.





(** C8.  The unusual-hour rule returns [True] exactly when the hour of the
    clock reading it takes lies in [2,5]; its outcome is the same for every
    request and every ledger; and in every verdict [detect_fraud] returns,
    [suspicious_time_pattern] is present exactly in that case: always at
    hour 3, never at hour 10. *)
Theorem unusual_hour_rule `{U : Unicode} (data : loc) (clk : clock) (st : state) :
  let now := now_time clk in
  _check_time_patterns data now st = (Ok (bool_decide (2 ≤ hour now ≤ 5)%Z), st)
  ∧ (∀ data' st', (_check_time_patterns data' now st').1
                  = (_check_time_patterns data now st).1)
  ∧ (∀ v st', detect_fraud data clk st = (Ok v, st') →
       ("suspicious_time_pattern"%string ∈ fraud_indicators v ↔ (2 ≤ hour now ≤ 5)%Z)
       ∧ (hour now = 3%Z → "suspicious_time_pattern"%string ∈ fraud_indicators v)
       ∧ (hour now = 10%Z → "suspicious_time_pattern"%string ∉ fraud_indicators v)).
Proof.
  intros now. split_and!.
  - apply check_time_patterns_run.
  - intros data' st'. by rewrite !check_time_patterns_run.
  - intros v st' (-> & g & t & a & vo & _ & _ & _ & _ & ->)%detect_fraud_inv.
    rewrite assemble_has_time, bool_decide_eq_true. fold now.
    split_and!; [done | lia | lia].
Qed.

Lemma unusual_hour_rule_witness :
  let data := 1%positive in
  let st := Example.with_dict (Example.request None (Some (JInt 12345)) None) in
  (∃ v, detect_fraud (U:=ascii_database) data (Example.steady (Example.at_time 3 0)) st
          = (Ok v, st)
        ∧ "suspicious_time_pattern"%string ∈ fraud_indicators v)
  ∧ (∃ v, detect_fraud (U:=ascii_database) data (Example.steady (Example.at_time 10 0)) st
          = (Ok v, st)
        ∧ "suspicious_time_pattern"%string ∉ fraud_indicators v).
Proof.
  intros data st. split.
  - eexists. split; [by vm_compute|].
    eapply (unusual_hour_rule (U:=ascii_database) data
              (Example.steady (Example.at_time 3 0)) st); by vm_compute.
  - eexists. split; [by vm_compute|].
    eapply (unusual_hour_rule (U:=ascii_database) data
              (Example.steady (Example.at_time 10 0)) st); by vm_compute.
Defined.

(** *** Rules that do not read the ledger *)

Section RequestOnly.
Context {U : Unicode}.

Lemma check_gambling_keywords_run data st :
  _check_gambling_keywords data st = (Ok (gambling_rule (heap st !!! data)), st).
Proof. unfold _check_gambling_keywords. by rewrite run_deref. Qed.

End RequestOnly.

(** C9.  Evaluating the same request twice, on the same ledger and with the
    same clock readings, gives the same outcome: the second call starts from
    the state the first one left, which is the state the first one started
    from.  Moreover the presence of [gambling_keywords_detected] and
    [suspicious_amount_pattern] in a verdict is a function of the request dict
    alone: it is the same on any two ledgers and clocks. *)
Theorem detect_fraud_twice `{U : Unicode} (data : loc) (clk : clock) (st : state) :
  let first := detect_fraud data clk st in
  let second := detect_fraud data clk first.2 in
  second = first
  ∧ (∀ v1 v2, first.1 = Ok v1 → second.1 = Ok v2 →
       ∀ tag, tag ∈ non_history_indicators →
         (tag ∈ fraud_indicators v1 ↔ tag ∈ fraud_indicators v2))
  ∧ (∀ data' clk' st' v v' s s',
       heap st' !!! data' = heap st !!! data →
       detect_fraud data clk st = (Ok v, s) →
       detect_fraud data' clk' st' = (Ok v', s') →
       ∀ tag, tag ∈ non_history_indicators →
         (tag ∈ fraud_indicators v ↔ tag ∈ fraud_indicators v')).
Proof.
  intros first second.
  assert (second = first) as Heq.
  { subst first second. by rewrite readonly_detect_fraud. }
  split_and!; [done | |].
  - intros v1 v2 H1 H2 tag _. rewrite Heq, H1 in H2. by injection H2 as ->.
  - intros data' clk' st' v v' s s' Hd
      (-> & g & t & a & vo & Hg & _ & Ha & _ & ->)%detect_fraud_inv
      (-> & g' & t' & a' & vo' & Hg' & _ & Ha' & _ & ->)%detect_fraud_inv tag Htag.
    rewrite check_gambling_keywords_run in Hg, Hg'.
    rewrite check_amount_patterns_run in Ha, Ha'.
    rewrite Hd in Hg', Ha'. cbn [fst] in Hg, Hg', Ha, Ha'.
    injection Hg as <-. injection Hg' as <-.
    rewrite Ha in Ha'. injection Ha' as <-.
    unfold non_history_indicators in Htag.
    apply elem_of_cons in Htag as [->|Htag].
    { by rewrite !assemble_has_gambling. }
    apply list_elem_of_singleton in Htag as ->.
    by rewrite !assemble_has_amount.
Qed.

Lemma detect_fraud_twice_witness :
  let data := 1%positive in
  let st := Example.with_dict
              (Example.request None (Some (JInt 11111)) (Some "urgent"%string)) in
  let clk := Example.steady (Example.at_time 10 0) in
  let first := detect_fraud (U:=ascii_database) data clk st in
  ∃ v, first = (Ok v, st)
       ∧ detect_fraud (U:=ascii_database) data clk first.2 = (Ok v, st)
       ∧ "suspicious_amount_pattern"%string ∈ fraud_indicators v.
Proof.
  intros data st clk first.
  destruct (detect_fraud_twice (U:=ascii_database) data clk st) as (Hsame & _ & _).
  cbv zeta in Hsame. fold first in Hsame.
  eexists. split; [vm_compute; reflexivity|].
  split.
  - etrans; [exact Hsame | vm_compute; reflexivity].
  - apply (bool_decide_unpack _). vm_compute. exact I.
Defined.

(** *** The ledger *)

Lemma last_n_all {A} (n : nat) (l : list A) : length l ≤ n → last_n n l = l.
Proof. intros Hl. unfold last_n. by replace (length l - n) with 0 by lia. Qed.

Lemma last_n_length {A} (n : nat) (l : list A) :
  length (last_n n l) = n `min` length l.
Proof. unfold last_n. rewrite length_drop. lia. Qed.

Lemma last_n_trim {A} (n : nat) (l : list A) :
  (if bool_decide (n < length l) then last_n n l else l) = last_n n l.
Proof. case_bool_decide; [done|]. rewrite last_n_all; [done|lia]. Qed.

Lemma last_n_snoc {A} (n : nat) (l : list A) (x : A) :
  0 < n → last_n n (last_n n l ++ [x]) = last_n n (l ++ [x]).
Proof.
  intros Hn. unfold last_n. rewrite !length_app, length_drop. cbn.
  destruct (decide (length l ≤ n)) as [Hle|Hgt].
  - replace (length l - n) with 0 by lia. by rewrite drop_0, Nat.sub_0_r.
  - rewrite (drop_app_le l) by lia.
    rewrite drop_app_le by (rewrite length_drop; lia).
    rewrite drop_drop. do 2 f_equal. lia.
Qed.

Lemma log_transaction_run user data now st :
  log_transaction user data now st =
    (Ok tt,
     {| heap := alter (set_timestamp now) data (heap st);
        transaction_history :=
          <[user := last_n 100 (transactions_of st user ++ [data])]>
            (transaction_history st);
        voice_command_history := voice_command_history st |}).
Proof.
  unfold log_transaction, modify. cbv zeta.
  fold (transactions_of st user). by rewrite last_n_trim.
Qed.

Lemma log_voice_command_run user cmd now st :
  log_voice_command user cmd now st =
    (Ok tt,
     {| heap := heap st;
        transaction_history := transaction_history st;
        voice_command_history :=
          <[user := last_n 50 (commands_of st user
                                ++ [{| command := cmd; command_timestamp := now |}])]>
            (voice_command_history st) |}).
Proof.
  unfold log_voice_command, modify. cbv zeta.
  fold (commands_of st user). by rewrite last_n_trim.
Qed.

Lemma transactions_of_log_transaction user data now st other :
  transactions_of (log_transaction user data now st).2 other =
    if decide (user = other) then last_n 100 (transactions_of st user ++ [data])
    else transactions_of st other.
Proof.
  rewrite log_transaction_run. unfold transactions_of at 1. cbn.
  rewrite lookup_insert. by case_decide.
Qed.

Lemma commands_of_log_voice_command user cmd now st other :
  commands_of (log_voice_command user cmd now st).2 other =
    if decide (user = other)
    then last_n 50 (commands_of st user
                      ++ [{| command := cmd; command_timestamp := now |}])
    else commands_of st other.
Proof.
  rewrite log_voice_command_run. unfold commands_of at 1. cbn.
  rewrite lookup_insert. by case_decide.
Qed.

Lemma heap_log_transaction user data now st l :
  heap (log_transaction user data now st).2 !! l =
    if decide (data = l) then set_timestamp now <$> heap st !! l else heap st !! l.
Proof.
  rewrite log_transaction_run. cbn. rewrite lookup_alter.
  case_decide; by subst.
Qed.

Lemma deref_log_transaction_ne user data now st l :
  l ≠ data → heap (log_transaction user data now st).2 !!! l = heap st !!! l.
Proof.
  intros Hne. rewrite !lookup_total_alt, heap_log_transaction.
  by rewrite decide_False.
Qed.

(** What each operation leaves alone. *)
Lemma log_voice_command_frame user cmd now st :
  let st' := (log_voice_command user cmd now st).2 in
  heap st' = heap st
  ∧ transaction_history st' = transaction_history st
  ∧ ∀ other, other ≠ user →
      voice_command_history st' !! other = voice_command_history st !! other.
Proof.
  intros st'. subst st'. rewrite log_voice_command_run. cbn.
  split_and!; [done..|]. intros other Hne. by rewrite lookup_insert_ne.
Qed.

Lemma log_transaction_frame user data now st :
  let st' := (log_transaction user data now st).2 in
  voice_command_history st' = voice_command_history st
  ∧ (∀ other, other ≠ user →
       transaction_history st' !! other = transaction_history st !! other)
  ∧ (∀ l, l ≠ data → heap st' !! l = heap st !! l)
  ∧ heap st' !! data = set_timestamp now <$> heap st !! data
  ∧ (∀ other, other ≠ user → data ∉ transactions_of st other →
       transaction_records st' other = transaction_records st other).
Proof.
  intros st'. split_and!.
  - subst st'. by rewrite log_transaction_run.
  - intros other Hne. subst st'. rewrite log_transaction_run. cbn.
    by rewrite lookup_insert_ne.
  - intros l Hne. subst st'. rewrite heap_log_transaction. by rewrite decide_False.
  - subst st'. rewrite heap_log_transaction. by rewrite decide_True.
  - intros other Hne Hnotin. unfold transaction_records. subst st'.
    rewrite transactions_of_log_transaction, decide_False by done.
    apply list_fmap_ext. intros i tx Htx.
    apply deref_log_transaction_ne. intros ->.
    apply Hnotin. by eapply list_elem_of_lookup_2.
Qed.

(** C10 (as amended).  [detect_fraud] hands back the whole state it was
    given: the store of dicts and both histories of every identity.
    [log_voice_command] changes nothing but the voice history of the identity
    it is given.  [log_transaction] changes the transaction history of the
    identity it is given and stamps the dict it is given in place: every other
    dict, the voice histories and the lists of the other identities stay as
    they were, and so do the records of another identity as long as its
    history does not hold that same dict. *)
Theorem ledger_frame `{U : Unicode} :
  (∀ data clk st, (detect_fraud data clk st).2 = st)
  ∧ (∀ user cmd now st,
       let st' := (log_voice_command user cmd now st).2 in
       heap st' = heap st
       ∧ transaction_history st' = transaction_history st
       ∧ ∀ other, other ≠ user →
           voice_command_history st' !! other = voice_command_history st !! other)
  ∧ (∀ user data now st,
       let st' := (log_transaction user data now st).2 in
       voice_command_history st' = voice_command_history st
       ∧ (∀ other, other ≠ user →
            transaction_history st' !! other = transaction_history st !! other)
       ∧ (∀ l, l ≠ data → heap st' !! l = heap st !! l)
       ∧ heap st' !! data = set_timestamp now <$> heap st !! data
       ∧ (∀ other, other ≠ user → data ∉ transactions_of st other →
            transaction_records st' other = transaction_records st other)).
Proof.
  split_and!.
  - intros data clk st. apply readonly_detect_fraud.
  - apply log_voice_command_frame.
  - apply log_transaction_frame.
Qed.

(** The claim as first stated fails: logging for one identity a dict that
    another identity's history already holds changes that other identity's
    records. *)
Lemma shared_dict_is_restamped :
  let alice := py "alice" in
  let bob := py "bob" in
  let st0 := Example.with_dict (Example.request None (Some (JInt 250)) None) in
  let st := (log_transaction alice 1%positive (Example.at_time 9 0) st0).2 in
  let st' := (log_transaction bob 1%positive (Example.at_time 10 0) st).2 in
  alice ≠ bob ∧ transaction_records st' alice ≠ transaction_records st alice.
Proof. vm_compute. split; discriminate. Qed.

Lemma ledger_frame_witness :
  let alice := py "alice" in
  let bob := py "bob" in
  let st0 := (new_dict (Example.request None (Some (JInt 7)) None)
                (Example.with_dict (Example.request None (Some (JInt 250)) None))).2 in
  let st := (log_transaction alice 1%positive (Example.at_time 9 0) st0).2 in
  let st' := (log_transaction bob 2%positive (Example.at_time 10 0) st).2 in
  transaction_records st' alice = transaction_records st alice.
Proof.
  intros alice bob st0 st st'.
  destruct (ledger_frame (U:=ascii_database)) as (_ & _ & Hlog).
  destruct (Hlog bob 2%positive (Example.at_time 10 0) st) as (_ & _ & _ & _ & Hrec).
  apply Hrec.
  - vm_compute. discriminate.
  - apply (bool_decide_unpack _). vm_compute. exact I.
Defined.

(** *** Sequences of ledger operations *)

Lemma perform_all_snoc cs c st :
  perform_all (cs ++ [c]) st = perform (perform_all cs st) c.
Proof. unfold perform_all. by rewrite foldl_app. Qed.

Lemma transactions_of_init user : transactions_of init user = [].
Proof. done. Qed.

Lemma commands_of_init user : commands_of init user = [].
Proof. done. Qed.

Lemma transactions_of_new_dict p st user :
  transactions_of (new_dict p st).2 user = transactions_of st user.
Proof. done. Qed.

Lemma transactions_of_log_voice_command u cmd now st user :
  transactions_of (log_voice_command u cmd now st).2 user = transactions_of st user.
Proof. by rewrite log_voice_command_run. Qed.

Lemma commands_of_new_dict p st user :
  commands_of (new_dict p st).2 user = commands_of st user.
Proof. done. Qed.

Lemma commands_of_log_transaction u data now st user :
  commands_of (log_transaction u data now st).2 user = commands_of st user.
Proof. by rewrite log_transaction_run. Qed.

Lemma logged_transactions_snoc user cs c :
  logged_transactions user (cs ++ [c]) =
    logged_transactions user cs
    ++ match c with
       | LogTransaction u data _ => if decide (u = user) then [data] else []
       | _ => []
       end.
Proof.
  unfold logged_transactions. rewrite omap_app. f_equal.
  destruct c; try done. cbn. by case_decide.
Qed.

Lemma logged_commands_snoc user cs c :
  logged_commands user (cs ++ [c]) =
    logged_commands user cs
    ++ match c with
       | LogVoiceCommand u cmd now =>
         if decide (u = user)
         then [{| command := cmd; command_timestamp := now |}] else []
       | _ => []
       end.
Proof.
  unfold logged_commands. rewrite omap_app. f_equal.
  destruct c; try done. cbn. by case_decide.
Qed.

Lemma logged_dicts_snoc cs c :
  logged_dicts (cs ++ [c]) =
    logged_dicts cs ++ match c with LogTransaction _ data _ => [data] | _ => [] end.
Proof. unfold logged_dicts. rewrite omap_app. f_equal. by destruct c. Qed.

Lemma call_times_snoc cs c :
  call_times (cs ++ [c]) =
    call_times cs ++ match c with
                     | NewDict _ => []
                     | LogTransaction _ _ now | LogVoiceCommand _ _ now => [now]
                     end.
Proof. unfold call_times. rewrite omap_app. f_equal. by destruct c. Qed.

(** The histories hold the most recent entries, whatever the calls. *)
Lemma transactions_of_perform_all cs user :
  transactions_of (perform_all cs init) user
    = last_n 100 (logged_transactions user cs).
Proof.
  induction cs as [|c cs IH] using rev_ind; [done|].
  rewrite perform_all_snoc, logged_transactions_snoc.
  destruct c as [p|u data now|u cmd now]; cbn [perform].
  - by rewrite transactions_of_new_dict, app_nil_r.
  - rewrite transactions_of_log_transaction.
    case_decide as Hu; [subst u|by rewrite app_nil_r].
    rewrite IH. apply last_n_snoc. lia.
  - by rewrite transactions_of_log_voice_command, app_nil_r.
Qed.

Lemma commands_of_perform_all cs user :
  commands_of (perform_all cs init) user = last_n 50 (logged_commands user cs).
Proof.
  induction cs as [|c cs IH] using rev_ind; [done|].
  rewrite perform_all_snoc, logged_commands_snoc.
  destruct c as [p|u data now|u cmd now]; cbn [perform].
  - by rewrite commands_of_new_dict, app_nil_r.
  - by rewrite commands_of_log_transaction, app_nil_r.
  - rewrite commands_of_log_voice_command.
    case_decide as Hu; [subst u|by rewrite app_nil_r].
    rewrite IH. apply last_n_snoc. lia.
Qed.

Lemma nondecreasing_nil : nondecreasing [].
Proof. by intros i j x y _ ?. Qed.

Lemma nondecreasing_snoc l t :
  nondecreasing l → (∀ x, x ∈ l → (x ≤ t)%Z) → nondecreasing (l ++ [t]).
Proof.
  intros Hl Ht i j x y Hij Hi Hj.
  apply lookup_snoc_Some in Hi as [[Hi1 Hi2]|[Hi1 ->]];
    apply lookup_snoc_Some in Hj as [[Hj1 Hj2]|[Hj1 ->]].
  - by apply (Hl i j x y).
  - apply Ht. by eapply list_elem_of_lookup_2.
  - lia.
  - lia.
Qed.

Lemma nondecreasing_drop n l : nondecreasing l → nondecreasing (drop n l).
Proof.
  intros Hl i j x y Hij Hi Hj. rewrite lookup_drop in Hi, Hj.
  eapply (Hl (n + i) (n + j)); [lia|done..].
Qed.

Lemma nondecreasing_app_l l k : nondecreasing (l ++ k) → nondecreasing l.
Proof.
  intros Hl i j x y Hij Hi Hj.
  eapply (Hl i j); [done|by apply lookup_app_l_Some..].
Qed.

Lemma nondecreasing_snoc_bound l t x :
  nondecreasing (l ++ [t]) → x ∈ l → (x ≤ t)%Z.
Proof.
  intros Hl [i Hi]%list_elem_of_lookup_1.
  eapply (Hl i (length l)).
  - apply lookup_lt_Some in Hi. lia.
  - by apply lookup_app_l_Some.
  - by rewrite list_lookup_middle.
Qed.

Lemma nondecreasing_last_n n l : nondecreasing l → nondecreasing (last_n n l).
Proof. apply nondecreasing_drop. Qed.

Lemma elem_of_last_n {A} n (l : list A) x : x ∈ last_n n l → x ∈ l.
Proof. unfold last_n. intros [i Hi]%list_elem_of_lookup_1.
  rewrite lookup_drop in Hi. by eapply list_elem_of_lookup_2. Qed.

Lemma fmap_last_n {A B} (f : A → B) n (l : list A) :
  f <$> last_n n l = last_n n (f <$> l).
Proof. unfold last_n. by rewrite fmap_drop, length_fmap. Qed.

(** How the operations change the stamp of a dict. *)
Lemma stamp_new_dict p st tx :
  is_Some (heap st !! tx) → stamp (new_dict p st).2 tx = stamp st tx.
Proof.
  intros Htx. unfold stamp. cbn. rewrite !lookup_total_alt.
  rewrite lookup_insert_ne; [done|].
  intros <-. apply (is_fresh (dom (heap st))). by apply elem_of_dom.
Qed.

Lemma heap_new_dict_old p st tx :
  is_Some (heap st !! tx) → is_Some (heap (new_dict p st).2 !! tx).
Proof.
  intros Htx. cbn. rewrite lookup_insert_ne; [done|].
  intros <-. apply (is_fresh (dom (heap st))). by apply elem_of_dom.
Qed.

Lemma stamp_log_voice_command u cmd now st tx :
  stamp (log_voice_command u cmd now st).2 tx = stamp st tx.
Proof. by rewrite log_voice_command_run. Qed.

Lemma stamp_log_transaction_ne u data now st tx :
  tx ≠ data → stamp (log_transaction u data now st).2 tx = stamp st tx.
Proof. intros Hne. unfold stamp. by rewrite deref_log_transaction_ne. Qed.

Lemma stamp_log_transaction_eq u data now st :
  is_Some (heap st !! data) →
  stamp (log_transaction u data now st).2 data = Some now.
Proof.
  intros [p Hp]. unfold stamp.
  rewrite lookup_total_alt, heap_log_transaction, decide_True, Hp by done. done.
Qed.

Lemma heap_log_transaction_old u data now st tx :
  is_Some (heap st !! tx) → is_Some (heap (log_transaction u data now st).2 !! tx).
Proof.
  intros [p Hp]. rewrite heap_log_transaction, Hp. case_decide; by eexists.
Qed.

Lemma dicts_exist_snoc st cs c :
  dicts_exist st (cs ++ [c]) ↔
    dicts_exist st cs
    ∧ match c with
      | LogTransaction _ data _ => is_Some (heap (perform_all cs st) !! data)
      | _ => True
      end.
Proof.
  revert st. induction cs as [|c' cs IH]; intros st; cbn.
  - tauto.
  - rewrite IH. tauto.
Qed.

(** The voice histories are ordered whenever the clock readings are. *)
Lemma voice_invariant cs :
  nondecreasing (call_times cs) →
  let st := perform_all cs init in
  (∀ user r, r ∈ commands_of st user → command_timestamp r ∈ call_times cs)
  ∧ (∀ user, nondecreasing (command_times st user)).
Proof.
  induction cs as [|c cs IH] using rev_ind.
  { intros _. cbv zeta. change (perform_all [] init) with init. split.
    - intros user r. rewrite commands_of_init. by intros ?%elem_of_nil.
    - intros user. apply nondecreasing_nil. }
  cbv zeta in *. rewrite call_times_snoc, perform_all_snoc.
  intros Htimes. set (st := perform_all cs init) in *.
  destruct c as [p|u data now|u cmd now]; cbn [perform];
    rewrite ?app_nil_r in *.
  - by apply IH.
  - destruct IH as [Hd He]; [by eapply nondecreasing_app_l|]. split.
    + intros user r. rewrite commands_of_log_transaction.
      intros Hr. apply elem_of_app. left. by apply (Hd user).
    + intros user. unfold command_times.
      rewrite commands_of_log_transaction. apply He.
  - destruct IH as [Hd He]; [by eapply nondecreasing_app_l|]. split.
    + intros user r. rewrite commands_of_log_voice_command.
      case_decide as Hu.
      * intros [Hr| ->%list_elem_of_singleton]%elem_of_last_n%elem_of_app.
        -- apply elem_of_app. left. by apply (Hd u).
        -- apply elem_of_app. right. by apply list_elem_of_singleton.
      * intros Hr. apply elem_of_app. left. by apply (Hd user).
    + intros user. unfold command_times.
      rewrite commands_of_log_voice_command.
      case_decide as Hu; [|apply He].
      rewrite fmap_last_n, fmap_app, list_fmap_singleton. cbn [command_timestamp].
      apply nondecreasing_last_n, nondecreasing_snoc; [apply He|].
      intros x (r & -> & Hr)%list_elem_of_fmap.
      eapply nondecreasing_snoc_bound; [done|]. by apply (Hd u).
Qed.

Lemma ledger_invariant cs :
  nondecreasing (call_times cs) → NoDup (logged_dicts cs) → dicts_exist init cs →
  ledger_ok cs (perform_all cs init).
Proof.
  induction cs as [|c cs IH] using rev_ind.
  { intros _ _ _. change (perform_all [] init) with init. split_and!.
    - intros user tx. rewrite transactions_of_init. by intros ?%elem_of_nil.
    - intros tx ?%elem_of_nil. done.
    - intros user. apply nondecreasing_nil. }
  unfold ledger_ok in *.
  rewrite call_times_snoc, logged_dicts_snoc, perform_all_snoc, dicts_exist_snoc.
  intros Htimes Hnodup [Hexist Hheap].
  set (st := perform_all cs init) in *.
  destruct c as [p|u data now|u cmd now]; cbn [perform].
  - (* a new dict *)
    rewrite !app_nil_r in *.
    destruct IH as (Ha & Hb & Hc); [done..|].
    split_and!; [exact Ha | |].
    + intros tx Htx. destruct (Hb tx Htx) as [Hex (t & Ht & Hin)].
      split; [by apply heap_new_dict_old|].
      exists t. by rewrite stamp_new_dict.
    + intros user. unfold transaction_times.
      rewrite transactions_of_new_dict.
      erewrite list_fmap_ext; [apply (Hc user)|].
      intros i tx Htx. cbv beta. rewrite stamp_new_dict; [done|].
      apply Hb, (Ha user). by eapply list_elem_of_lookup_2.
  - (* a transaction *)
    apply NoDup_app in Hnodup as (Hnodup & Hfresh & _).
    assert (data ∉ logged_dicts cs) as Hdata.
    { intros Hin. apply (Hfresh data Hin). by apply list_elem_of_singleton. }
    destruct IH as (Ha & Hb & Hc); [by eapply nondecreasing_app_l | done..|].
    assert (∀ user tx, tx ∈ transactions_of st user → tx ≠ data) as Hne.
    { intros user tx Htx ->. by apply Hdata, (Ha user). }
    split_and!.
    + intros user tx. rewrite transactions_of_log_transaction.
      case_decide as Hu.
      * intros [Htx| ->%list_elem_of_singleton]%elem_of_last_n%elem_of_app.
        -- apply elem_of_app. left. by apply (Ha u).
        -- apply elem_of_app. right. by apply list_elem_of_singleton.
      * intros Htx. apply elem_of_app. left. by apply (Ha user).
    + intros tx [Htx| ->%list_elem_of_singleton]%elem_of_app.
      * destruct (Hb tx Htx) as [Hex (t & Ht & Hin)].
        split; [by apply heap_log_transaction_old|].
        exists t. rewrite stamp_log_transaction_ne by (by intros ->).
        split; [done|]. apply elem_of_app. by left.
      * split; [by apply heap_log_transaction_old|].
        exists now. rewrite stamp_log_transaction_eq by done.
        split; [done|]. apply elem_of_app. right. by apply list_elem_of_singleton.
    + intros user. unfold transaction_times.
      rewrite transactions_of_log_transaction.
      assert (∀ user',
        (λ tx, default 0%Z (stamp (log_transaction u data now st).2 tx))
          <$> transactions_of st user' = transaction_times st user') as Hold.
      { intros user'. apply list_fmap_ext. intros i tx Htx. cbv beta.
        rewrite stamp_log_transaction_ne; [done|].
        apply (Hne user'). by eapply list_elem_of_lookup_2. }
      case_decide as Hu; [|by rewrite Hold].
      rewrite fmap_last_n, fmap_app, Hold, list_fmap_singleton.
      rewrite stamp_log_transaction_eq by done. cbn [from_option id].
      apply nondecreasing_last_n, nondecreasing_snoc; [apply Hc|].
      intros x (tx & -> & Htx)%list_elem_of_fmap.
      destruct (Hb tx) as [_ (t & Ht & Hin)]; [by apply (Ha u)|].
      rewrite Ht. cbn [from_option id]. by eapply nondecreasing_snoc_bound.
  - (* a voice command *)
    rewrite !app_nil_r in *.
    destruct IH as (Ha & Hb & Hc); [by eapply nondecreasing_app_l | done..|].
    split_and!.
    + intros user tx. rewrite transactions_of_log_voice_command. apply Ha.
    + intros tx Htx. destruct (Hb tx Htx) as [Hex (t & Ht & Hin)].
      split; [by rewrite log_voice_command_run|].
      exists t. rewrite stamp_log_voice_command.
      split; [done|]. apply elem_of_app. by left.
    + intros user. unfold transaction_times.
      rewrite transactions_of_log_voice_command.
      erewrite list_fmap_ext; [apply (Hc user)|].
      intros i tx Htx. cbv beta. by rewrite stamp_log_voice_command.
Qed.

Lemma ledger_ok_stamped cs st user : ledger_ok cs st → stamped st user.
Proof.
  intros (Ha & Hb & _). apply Forall_forall. intros tx Htx.
  destruct (Hb tx) as [_ (t & -> & _)]; [by apply (Ha user)|]. by eexists.
Qed.

(** C6 (as amended).  After any sequence of calls on a new service object,
    an identity's transaction history holds at most 100 references and its
    voice history at most 50 records, and they are exactly the most recent
    ones logged for it, the oldest having been dropped from the front; after
    150 logged transactions exactly the last 100 remain.  The voice history
    is in non-decreasing timestamp order whenever the clock readings of the
    calls are non-decreasing.  The transaction history is stamped and in
    non-decreasing timestamp order whenever, moreover, no dict is handed to
    [log_transaction] twice (each call logs an existing dict that was not
    logged before, as the route does with the payload it has just parsed). *)
Theorem ledger_bounded_and_ordered (cs : list call) (user : pystr) :
  let st := perform_all cs init in
  length (transactions_of st user) ≤ 100
  ∧ length (commands_of st user) ≤ 50
  ∧ transactions_of st user = last_n 100 (logged_transactions user cs)
  ∧ commands_of st user = last_n 50 (logged_commands user cs)
  ∧ (length (logged_transactions user cs) = 150 →
     transactions_of st user = drop 50 (logged_transactions user cs)
     ∧ length (transactions_of st user) = 100)
  ∧ (nondecreasing (call_times cs) → nondecreasing (command_times st user))
  ∧ (nondecreasing (call_times cs) → NoDup (logged_dicts cs) → dicts_exist init cs →
     stamped st user ∧ nondecreasing (transaction_times st user)).
Proof.
  intros st. subst st.
  rewrite transactions_of_perform_all, commands_of_perform_all.
  split_and!; [| |done|done| | |].
  - rewrite last_n_length. lia.
  - rewrite last_n_length. lia.
  - intros Hlen. unfold last_n. rewrite length_drop, Hlen. done.
  - intros Htimes. by apply voice_invariant.
  - intros Htimes Hnodup Hexist.
    pose proof (ledger_invariant cs Htimes Hnodup Hexist) as Hok.
    split; [by eapply ledger_ok_stamped | apply Hok].
Qed.

(** The order claimed for every sequence of calls fails when a dict is
    logged again: its stamp is overwritten in place, also where the history
    already refers to it. *)
Lemma relogged_dict_breaks_order :
  let u := py "u" in
  let d := Example.request (Some "u"%string) (Some (JInt 250)) None in
  let cs := [NewDict d; NewDict d;
             LogTransaction u 1%positive (Example.at_time 9 0);
             LogTransaction u 2%positive (Example.at_time 9 10);
             LogTransaction u 1%positive (Example.at_time 9 20)] in
  call_times cs = [Example.at_time 9 0; Example.at_time 9 10; Example.at_time 9 20]
  ∧ dicts_exist init cs
  ∧ transaction_times (perform_all cs init) u
      = [Example.at_time 9 20; Example.at_time 9 10; Example.at_time 9 20]
  ∧ ¬ nondecreasing (transaction_times (perform_all cs init) u).
Proof.
  intros u d cs.
  assert (transaction_times (perform_all cs init) u
          = [Example.at_time 9 20; Example.at_time 9 10; Example.at_time 9 20]) as Ht
    by (vm_compute; reflexivity).
  split_and!; [done | | done |].
  - vm_compute. repeat split; by eexists.
  - rewrite Ht. intros H.
    specialize (H 0 1 (Example.at_time 9 20) (Example.at_time 9 10)).
    vm_compute in H. by apply H; [lia|..].
Qed.

Lemma ledger_bounded_and_ordered_witness :
  let u := py "u" in
  let d := Example.request (Some "u"%string) (Some (JInt 250)) None in
  let cs := [NewDict d;
             LogTransaction u 1%positive (Example.at_time 9 0);
             LogVoiceCommand u (py "balance") (Example.at_time 9 1);
             NewDict d;
             LogTransaction u 2%positive (Example.at_time 9 10)] in
  (stamped (perform_all cs init) u
   ∧ nondecreasing (transaction_times (perform_all cs init) u))
  ∧ nondecreasing (command_times (perform_all cs init) u)
  ∧ length (transactions_of (perform_all (burst u 150) init) u) = 100.
Proof.
  intros u d cs.
  assert (nondecreasing (call_times cs)) as Htimes.
  { intros i j x y Hij Hi Hj.
    destruct i as [|[|[|i]]], j as [|[|[|j]]]; vm_compute in Hi, Hj;
      simplify_eq; lia. }
  destruct (ledger_bounded_and_ordered cs u) as (_ & _ & _ & _ & _ & Hvoice & Htx).
  destruct (ledger_bounded_and_ordered (burst u 150) u) as (_ & _ & _ & _ & Hburst & _).
  split; [|split].
  - apply Htx; [done | |].
    + apply (bool_decide_unpack _). vm_compute. exact I.
    + vm_compute. repeat split; by eexists.
  - by apply Hvoice.
  - apply Hburst. vm_compute. reflexivity.
Defined.

(** *** The route: record, then evaluate *)

Lemma nonempty_ne (s : pystr) : nonempty s = true ↔ s ≠ [].
Proof. by destruct s. Qed.

Lemma stamp_is_Some_heap st tx : is_Some (stamp st tx) → is_Some (heap st !! tx).
Proof.
  unfold stamp. rewrite lookup_total_alt.
  destruct (heap st !! tx); [by eexists|]. by intros [? [=]].
Qed.

Lemma stamped_elem st user tx :
  stamped st user → tx ∈ transactions_of st user → is_Some (stamp st tx).
Proof. unfold stamped. rewrite Forall_forall. auto. Qed.

Section Route.
Context {U : Unicode}.

Lemma detect_fraud_body_run body clk st user :
  user_id body = Some user → user ≠ [] →
  let data := fresh (dom (heap st)) in
  detect_fraud_body body clk st
    = detect_fraud data (now_detect clk)
        (perform_all (route_calls body clk user data) st).
Proof.
  intros Hu Hne data. unfold detect_fraud_body, route_calls.
  unfold mbind at 1, M_bind at 1, bind at 1. cbn [new_dict]. fold data.
  rewrite run_deref. cbn [heap]. rewrite lookup_total_insert_eq, Hu.
  apply nonempty_ne in Hne. rewrite Hne.
  unfold mbind, M_bind, bind.
  rewrite log_transaction_run.
  destruct (voice_command body) as [cmd|]; [rewrite log_voice_command_run|];
    cbn [perform_all foldl app perform new_dict snd];
    rewrite ?log_transaction_run, ?log_voice_command_run; done.
Qed.

End Route.

(** The ledger the rules read in the route: the current request is the most
    recent entry of its identity's history, stamped with the time it was
    logged, and the older entries are as they were. *)
Lemma route_calls_ledger body clk st user :
  stamped st user →
  let data := fresh (dom (heap st)) in
  let st1 := perform_all (route_calls body clk user data) st in
  heap st1 !!! data = set_timestamp (now_log_transaction clk) body
  ∧ transactions_of st1 user = last_n 100 (transactions_of st user ++ [data])
  ∧ stamp st1 data = Some (now_log_transaction clk)
  ∧ (∀ tx, tx ∈ transactions_of st user → stamp st1 tx = stamp st tx)
  ∧ stamped st1 user.
Proof.
  intros Hst data st1.
  assert (heap st !! data = None) as Hfresh.
  { apply not_elem_of_dom, is_fresh. }
  assert (∀ tx, tx ∈ transactions_of st user → tx ≠ data) as Hold.
  { intros tx Htx ->.
    apply (stamped_elem st user), stamp_is_Some_heap in Htx; [|done].
    rewrite Hfresh in Htx. by destruct Htx. }
  set (st2 := (log_transaction user data (now_log_transaction clk)
                 (new_dict body st).2).2).
  assert (heap st1 = heap st2 ∧ transaction_history st1 = transaction_history st2)
    as [Hheap Hhist].
  { subst st1 st2. unfold route_calls.
    destruct (voice_command body); cbn [perform_all foldl app perform]; [|done].
    by rewrite log_voice_command_run. }
  assert (∀ tx, stamp st1 tx = stamp st2 tx) as Hstamp.
  { intros tx. unfold stamp. by rewrite Hheap. }
  assert (∀ u, transactions_of st1 u = transactions_of st2 u) as Htxs.
  { intros u. unfold transactions_of. by rewrite Hhist. }
  assert (stamp st2 data = Some (now_log_transaction clk)) as Hdata.
  { subst st2. apply stamp_log_transaction_eq. cbn. rewrite lookup_insert_eq. by eexists. }
  assert (∀ tx, tx ∈ transactions_of st user → stamp st2 tx = stamp st tx) as Hsame.
  { intros tx Htx. subst st2.
    rewrite stamp_log_transaction_ne by by apply Hold.
    unfold stamp. cbn. rewrite !lookup_total_alt, lookup_insert_ne; [done|].
    intros <-. by eapply Hold. }
  assert (transactions_of st2 user
          = last_n 100 (transactions_of st user ++ [data])) as Htx2.
  { unfold st2. by rewrite transactions_of_log_transaction, decide_True. }
  split_and!.
  - rewrite Hheap. unfold st2.
    rewrite lookup_total_alt, heap_log_transaction, decide_True by done.
    cbn. by rewrite lookup_insert_eq.
  - by rewrite Htxs.
  - by rewrite Hstamp.
  - intros tx Htx. rewrite Hstamp. by apply Hsame.
  - unfold stamped. rewrite Htxs, Htx2.
    apply Forall_forall.
    intros tx [Htx| ->%list_elem_of_singleton]%elem_of_last_n%elem_of_app.
    + rewrite Hstamp, Hsame by done. by eapply stamped_elem.
    + rewrite Hstamp, Hdata. by eexists.
Qed.

(** C5.  For a request that carries a (non-empty) [user_id], on a ledger
    whose stored transactions of that identity are stamped: the route first
    appends the request to the identity's history, so the history the rule
    reads ends with the current request, stamped with the time of logging;
    the rule then returns [True] exactly when more than 5 stored transactions
    of the identity lie within the last hour or more than 10 within the last
    24 hours; the current request is among those counted as soon as the rule
    reads the clock less than an hour after the request was logged; and
    [suspicious_transaction_pattern] is in the verdict the route replies with
    exactly in that case. *)
Theorem transaction_rate_rule `{U : Unicode} (body : payload) (clk : route_clock)
    (st : state) (user : pystr) :
  user_id body = Some user → user ≠ [] → stamped st user →
  let data := fresh (dom (heap st)) in
  let st1 := (detect_fraud_route body clk st).2 in
  let now := now_transactions (now_detect clk) in
  let hourly := count_within st1 user now (timedelta_hours 1) in
  let daily := count_within st1 user now (timedelta_days 1) in
  transactions_of st1 user = last_n 100 (transactions_of st user ++ [data])
  ∧ stamp st1 data = Some (now_log_transaction clk)
  ∧ _check_transaction_patterns data now st1
      = (Ok (bool_decide (5 < hourly ∨ 10 < daily)), st1)
  ∧ ((now - now_log_transaction clk < timedelta_hours 1)%Z →
     in_window st1 now (timedelta_hours 1) data ∧ 1 ≤ hourly)
  ∧ (∀ v, (detect_fraud_route body clk st).1 = Reply v →
       ("suspicious_transaction_pattern"%string ∈ fraud_indicators v
        ↔ 5 < hourly ∨ 10 < daily)).
Proof.
  intros Hu Hne Hst data st1 now hourly daily.
  destruct (route_calls_ledger body clk st user Hst)
    as (Hdict & Htxs & Hstamp & Hold & Hst1).
  fold data in Hdict, Htxs, Hstamp, Hold, Hst1.
  set (st2 := perform_all (route_calls body clk user data) st) in *.
  assert (empty_dict body = false) as Hbody.
  { unfold empty_dict. rewrite Hu. done. }
  assert (detect_fraud_route body clk st
          = match detect_fraud data (now_detect clk) st2 with
            | (Ok result, st') => (Reply result, st')
            | (Raise _, st') => (Failure 500 "Internal server error", st')
            end) as Hroute.
  { unfold detect_fraud_route. rewrite Hbody.
    by rewrite (detect_fraud_body_run body clk st user). }
  assert (st1 = st2) as ->.
  { subst st1. rewrite Hroute.
    pose proof (readonly_detect_fraud data (now_detect clk) st2) as Hro.
    by destruct (detect_fraud data (now_detect clk) st2) as [[v|e] st']. }
  assert (history_readable st2 data) as Hread.
  { unfold history_readable. rewrite Hdict. cbn. by rewrite Hu. }
  assert (_check_transaction_patterns data now st2
          = (Ok (bool_decide (5 < hourly ∨ 10 < daily)), st2)) as Hrule.
  { rewrite check_transaction_patterns_run by done.
    rewrite Hdict. cbn [set_timestamp user_id]. rewrite Hu.
    apply nonempty_ne in Hne. rewrite Hne. cbn [andb].
    do 2 f_equal. subst hourly daily.
    repeat case_bool_decide; naive_solver. }
  split_and!; [done..| |].
  - intros Hnow.
    assert (in_window st2 now (timedelta_hours 1) data) as Hin.
    { unfold in_window. by rewrite Hstamp. }
    split; [done|].
    subst hourly. unfold count_within. rewrite Htxs.
    assert (data ∈ filter (in_window st2 now (timedelta_hours 1))
                     (last_n 100 (transactions_of st user ++ [data]))) as Hmem.
    { apply list_elem_of_filter. split; [done|].
      unfold last_n. apply list_elem_of_lookup.
      exists (length (transactions_of st user) - (length (transactions_of st user ++ [data]) - 100)).
      rewrite lookup_drop, length_app. cbn.
      replace (_ + _) with (length (transactions_of st user)) by lia.
      by rewrite list_lookup_middle. }
    destruct (filter _ _); [by apply elem_of_nil in Hmem | cbn; lia].
  - intros v Hv. rewrite Hroute in Hv.
    destruct (detect_fraud data (now_detect clk) st2) as [[v'|e] st'] eqn:Hd;
      [|done].
    injection Hv as ->.
    apply detect_fraud_inv in Hd as (-> & g & t & a & vo & _ & Ht & _ & _ & ->).
    fold now in Ht. rewrite Hrule in Ht. injection Ht as <-.
    by rewrite assemble_has_transaction, bool_decide_eq_true.
Qed.

Lemma transaction_rate_rule_witness :
  let body := Example.request (Some "u"%string) (Some (JInt 250)) None in
  let fifth := detect_fraud_route (U:=ascii_database) body
                 (Example.steady_route (Example.at_time 9 4))
                 (served (U:=ascii_database) body [0; 1; 2; 3]%Z init) in
  let sixth := detect_fraud_route (U:=ascii_database) body
                 (Example.steady_route (Example.at_time 9 5))
                 (served (U:=ascii_database) body [0; 1; 2; 3; 4]%Z init) in
  (∃ v, fifth.1 = Reply v
        ∧ "suspicious_transaction_pattern"%string ∉ fraud_indicators v)
  ∧ (∃ v, sixth.1 = Reply v
          ∧ "suspicious_transaction_pattern"%string ∈ fraud_indicators v).
Proof.
  intros body fifth sixth. split.
  - destruct (transaction_rate_rule (U:=ascii_database) body
                (Example.steady_route (Example.at_time 9 4))
                (served (U:=ascii_database) body [0; 1; 2; 3]%Z init) (py "u"))
      as (_ & _ & _ & _ & Hv).
    + done.
    + done.
    + apply (bool_decide_unpack _). vm_compute. exact I.
    + eexists. split; [vm_compute; reflexivity|].
      rewrite Hv by (vm_compute; reflexivity).
      apply (bool_decide_unpack _). vm_compute. exact I.
  - destruct (transaction_rate_rule (U:=ascii_database) body
                (Example.steady_route (Example.at_time 9 5))
                (served (U:=ascii_database) body [0; 1; 2; 3; 4]%Z init) (py "u"))
      as (_ & _ & _ & _ & Hv).
    + done.
    + done.
    + apply (bool_decide_unpack _). vm_compute. exact I.
    + eexists. split; [vm_compute; reflexivity|].
      rewrite Hv by (vm_compute; reflexivity).
      apply (bool_decide_unpack _). vm_compute. exact I.
Defined.

(** *** The amount rule *)

Lemma amount_rule_examples :
  amount_rule (Example.request None (Some (JInt 11111)) None) = Ok true
  ∧ amount_rule (Example.request None (Some (JInt 15000)) None) = Ok true
  ∧ amount_rule (Example.request None (Some (JInt 12345)) None) = Ok false
  ∧ amount_rule (Example.request None (Some (JInt 50001)) None) = Ok true.
Proof. by vm_compute. Qed.

(** A request without an amount is evaluated as amount 0, whose one digit
    makes the rule return [True]. *)
Lemma absent_amount_is_flagged : amount_rule (Example.request None None None) = Ok true.
Proof. by vm_compute. Qed.

(** C1 (at the failing inputs).  For every one-digit amount the rule returns
    [True]: [str(int(amount))] is a single character, so the set of its
    characters has exactly one element, although the amount has no repeated
    digit, is not above 50000 and is not a multiple of 1000 above 10000. *)
Theorem single_digit_amount_is_flagged (data : loc) (st : state) (d : Z) :
  amount (heap st !!! data) = Some (JInt d) → (0 ≤ d ≤ 9)%Z →
  length (str_of_int d) = 1
  ∧ (d ≤ 50000)%Z ∧ (d ≤ 10000)%Z
  ∧ _check_amount_patterns data st = (Ok true, st).
Proof.
  intros Ha Hd. rewrite check_amount_patterns_run. unfold amount_rule. rewrite Ha.
  assert (d = 0 ∨ d = 1 ∨ d = 2 ∨ d = 3 ∨ d = 4 ∨ d = 5 ∨ d = 6 ∨ d = 7
          ∨ d = 8 ∨ d = 9)%Z as Hcases by lia.
  destruct_or!; subst d; by vm_compute.
Qed.

Lemma single_digit_amount_is_flagged_witness :
  let st := Example.with_dict (Example.request None (Some (JInt 5)) None) in
  _check_amount_patterns 1%positive st = (Ok true, st).
Proof.
  intros st.
  apply (single_digit_amount_is_flagged 1%positive st 5); [by vm_compute | lia].
Defined.

Section MalformedAmount.
Context {U : Unicode}.

Lemma detect_fraud_non_numeric data clk st :
  non_numeric_amount (heap st !!! data) →
  (∃ e, detect_fraud data clk st = (Raise e, st))
  ∧ (history_readable st data → detect_fraud data clk st = (Raise TypeError, st)).
Proof.
  intros Ha. rewrite detect_fraud_run, check_amount_patterns_run.
  rewrite (amount_rule_non_numeric _ Ha).
  destruct (check_gambling_keywords_returns data st) as [g ->]. cbn [fst].
  split.
  - destruct (_ .1) as [t|e]; by eexists.
  - intros Hh. by rewrite check_transaction_patterns_run.
Qed.

(** Whatever the route logs first, it evaluates the rules on the dict it
    parsed, whose amount is the one of the payload. *)
Lemma detect_fraud_body_amount body clk st :
  ∃ st', detect_fraud_body body clk st
           = detect_fraud (fresh (dom (heap st))) (now_detect clk) st'
         ∧ amount (heap st' !!! fresh (dom (heap st))) = amount body.
Proof.
  unfold detect_fraud_body.
  unfold mbind at 1, M_bind at 1, bind at 1. cbn [new_dict].
  set (data := fresh (dom (heap st))).
  rewrite run_deref. cbn [heap]. rewrite lookup_total_insert_eq.
  unfold mbind, M_bind, bind.
  destruct (user_id body) as [user|]; [destruct (nonempty user)|].
  - rewrite log_transaction_run.
    destruct (voice_command body) as [cmd|]; [rewrite log_voice_command_run|];
      eexists; (split; [reflexivity|]); cbn [heap];
      by rewrite lookup_total_alt, lookup_alter_eq, lookup_insert_eq.
  - eexists. split; [reflexivity|]. cbn [heap]. by rewrite lookup_total_insert_eq.
  - eexists. split; [reflexivity|]. cbn [heap]. by rewrite lookup_total_insert_eq.
Qed.

End MalformedAmount.

(** C2 (as amended).  When the amount of a request is present and is not a
    number (a string, null, an array or an object), the amount rule raises
    [TypeError]; [detect_fraud] then returns no verdict: it raises, leaving
    the state as it found it, and the exception is that [TypeError] whenever
    the history rule before it could read the ledger; the route answers such
    a payload with status 500. *)
Theorem non_numeric_amount_fails `{U : Unicode} :
  (∀ data clk st,
     non_numeric_amount (heap st !!! data) →
     _check_amount_patterns data st = (Raise TypeError, st)
     ∧ (∃ e, detect_fraud data clk st = (Raise e, st))
     ∧ (history_readable st data → detect_fraud data clk st = (Raise TypeError, st)))
  ∧ (∀ body rclk st,
       non_numeric_amount body →
       (detect_fraud_route body rclk st).1 = Failure 500 "Internal server error").
Proof.
  split.
  - intros data clk st Ha. split_and!.
    + rewrite check_amount_patterns_run. by rewrite amount_rule_non_numeric.
    + by apply detect_fraud_non_numeric.
    + by apply detect_fraud_non_numeric.
  - intros body rclk st Ha. unfold detect_fraud_route.
    assert (empty_dict body = false) as ->.
    { unfold empty_dict, non_numeric_amount in *.
      destruct (amount _); [|done]. by rewrite andb_false_r. }
    destruct (detect_fraud_body_amount body rclk st) as (st' & -> & Hamt).
    destruct (detect_fraud_non_numeric (fresh (dom (heap st))) (now_detect rclk) st')
      as [[e ->] _]; [|done].
    unfold non_numeric_amount in *. by rewrite Hamt.
Qed.

(** The claim as first stated fails: a request whose amount is the string
    "abc" gets no verdict. *)
Lemma string_amount_raises :
  let body := Example.request (Some "u"%string) (Some (JStr (py "abc"))) None in
  let st := Example.with_dict body in
  let clk := Example.steady (Example.at_time 10 0) in
  detect_fraud (U:=ascii_database) 1%positive clk st = (Raise TypeError, st)
  ∧ (detect_fraud_route (U:=ascii_database) body
       (Example.steady_route (Example.at_time 10 0)) init).1
    = Failure 500 "Internal server error".
Proof. by vm_compute. Qed.

Lemma non_numeric_amount_fails_witness :
  let body := Example.request (Some "u"%string) (Some (JStr (py "abc"))) None in
  let st := Example.with_dict body in
  detect_fraud (U:=ascii_database) 1%positive (Example.steady (Example.at_time 10 0)) st
    = (Raise TypeError, st).
Proof.
  intros body st.
  destruct (non_numeric_amount_fails (U:=ascii_database)) as [Hcore _].
  apply (Hcore 1%positive (Example.steady (Example.at_time 10 0)) st); by vm_compute.
Defined.

(** *** What a match guarantees *)

(** Every pattern the service hands to [re.search] is inside the fragment. *)
Lemma service_patterns_compile :
  Forall (λ pattern, is_Some (Re.compile pattern))
    (SUSPICIOUS_PATTERNS ++ send_patterns ++ receive_patterns
     ++ balance_patterns ++ history_patterns ++ help_patterns).
Proof. apply (bool_decide_unpack _). vm_compute. exact I. Qed.

Section MatcherSound.
Context {U : Unicode}.
Import Re.

Lemma greedy_sound {R} cs lo hi (k : option char → pystr → option R) res s :
  ∀ n prev,
    greedy cs lo hi n prev s k = Some res →
    ∃ w rest prev',
      s = w ++ rest ∧ Forall (λ c, cset_mem cs c = true) w
      ∧ lo ≤ n + length w ∧ k prev' rest = Some res.
Proof.
  assert (∀ n prev s',
    (if lo <=? n then k prev s' else None) = Some res →
    ∃ w rest prev',
      s' = w ++ rest ∧ Forall (λ c, cset_mem cs c = true) w
      ∧ lo ≤ n + length w ∧ k prev' rest = Some res) as Hstop.
  { intros n prev s' Hk. destruct (lo <=? n) eqn:Hlo; [|done].
    apply Nat.leb_le in Hlo. exists [], s', prev. cbn. split_and!; [done..|lia|done]. }
  induction s as [|c s IH]; intros n prev; cbn [greedy]; [apply Hstop|].
  destruct (cset_mem cs c && below hi n) eqn:Hc; [|apply Hstop].
  destruct (greedy cs lo hi (S n) (Some c) s k) as [res'|] eqn:Hg; [|apply Hstop].
  intros [= ->]. apply andb_true_iff in Hc as [Hc _].
  destruct (IH _ _ Hg) as (w & rest & prev' & -> & Hw & Hlen & Hk).
  exists (c :: w), rest, prev'. cbn. split_and!; [done|by constructor|lia|done].
Qed.

Lemma run_sound {R} r :
  ∀ prev s caps (k : option char → pystr → captures → option R) res,
    run r prev s caps k = Some res →
    ∃ w rest prev' caps',
      s = w ++ rest ∧ consumes r w ∧ binds r caps caps'
      ∧ k prev' rest caps' = Some res.
Proof.
  induction r as [|cs lo hi| |r1 IH1 r2 IH2|r1 IH1 r2 IH2|i r1 IH1];
    intros prev s caps k res; cbn [run consumes binds].
  - intros Hk. by exists [], s, prev, caps.
  - intros (w & rest & prev' & -> & Hw & Hlen & Hk)%greedy_sound.
    exists w, rest, prev', caps. split_and!; [done..|lia|done|done].
  - destruct (xorb _ _); [|done]. intros Hk. by exists [], s, prev, caps.
  - intros (w1 & rest1 & prev1 & caps1 & -> & Hw1 & Hb1 & Hk1)%IH1.
    apply IH2 in Hk1 as (w2 & rest2 & prev2 & caps2 & -> & Hw2 & Hb2 & Hk2).
    exists (w1 ++ w2), rest2, prev2, caps2.
    split_and!; [by rewrite app_assoc | by exists w1, w2 | by exists caps1 | done].
  - destruct (run r1 prev s caps k) as [res'|] eqn:H1.
    + intros [= ->].
      apply IH1 in H1 as (w & rest & prev' & caps' & -> & Hw & Hb & Hk).
      exists w, rest, prev', caps'. split_and!; [done|by left|by left|done].
    + intros (w & rest & prev' & caps' & -> & Hw & Hb & Hk)%IH2.
      exists w, rest, prev', caps'. split_and!; [done|by right|by right|done].
  - intros (w & rest & prev' & caps' & -> & Hw & Hb & Hk)%IH1.
    rewrite length_app in Hk.
    replace (length w + length rest - length rest) with (length w) in Hk by lia.
    rewrite take_app_length in Hk.
    exists w, rest, prev', (<[i := w]> caps').
    split_and!; [done|done| by exists caps', w |done].
Qed.

Lemma search_from_sound r s :
  ∀ prev m, search_from r prev s = Some m → binds r ∅ m.
Proof.
  induction s as [|c s IH]; intros prev m; cbn [search_from];
    destruct (run r prev _ ∅ _) as [caps|] eqn:Hrun; try done.
  - intros [= ->].
    by apply run_sound in Hrun as (w & rest & prev' & caps' & _ & _ & Hb & [= ->]).
  - intros [= ->].
    by apply run_sound in Hrun as (w & rest & prev' & caps' & _ & _ & Hb & [= ->]).
  - apply IH.
Qed.

Lemma search_sound pattern text m :
  search pattern text = Some m →
  ∃ r, compile pattern = Some r ∧ binds r ∅ m.
Proof.
  unfold search. destruct (compile pattern) as [r|]; [|done]. cbn.
  intros Hm%search_from_sound. by exists r.
Qed.

(** [float()] accepts what [\d+] matched. *)
Lemma digits_value_is_Some w :
  Forall (λ c, cset_mem [IDigit] c = true) w → ∀ acc, is_Some (digits_value acc w).
Proof.
  induction 1 as [|c w Hc _ IH]; intros acc; cbn; [by eexists|].
  cbn in Hc. rewrite orb_false_r in Hc. unfold is_digit in Hc.
  apply bool_decide_eq_true in Hc as [d ->]. cbn. apply IH.
Qed.

Lemma float_of_digits_returns w :
  Forall (λ c, cset_mem [IDigit] c = true) w → 1 ≤ length w →
  ∃ x, float_of_digits w = Ok x.
Proof.
  intros Hw Hlen. unfold float_of_digits.
  destruct w as [|c w]; [cbn in Hlen; lia|].
  destruct (digits_value_is_Some _ Hw 0%Z) as [n ->]. by eexists.
Qed.

End MatcherSound.

(** *** The intent extractor *)

Section Intent.
Context {U : Unicode}.
Import Re.

Lemma digit_group_floats w :
  consumes (Seq (Chars [IDigit] 1 None) Empty) w → ∃ x, float_of_digits w = Ok x.
Proof.
  intros (w1 & w2 & -> & [Hw Hlen] & ->). rewrite app_nil_r.
  by apply float_of_digits_returns.
Qed.

Ltac destruct_binds :=
  repeat match goal with
         | H : ∃ _, _ |- _ => destruct H
         | H : _ ∧ _ |- _ => destruct H
         end; subst.

(** A send pattern that matched always yields a send-money dict: its
    amount group holds decimal digits, which [float()] accepts. *)
Lemma send_money_returns pattern cmd m :
  pattern ∈ send_patterns → search pattern cmd = Some m →
  ∃ amt who, send_money pattern m = Ok (send_intent amt who).
Proof.
  intros Hin (r & Hc & Hb)%search_sound.
  unfold send_patterns in Hin. cbn [map] in Hin.
  repeat (apply elem_of_cons in Hin as [->|Hin]);
    [..|by apply elem_of_nil in Hin];
    vm_compute in Hc; injection Hc as <-;
    cbn [binds] in Hb; destruct_binds; unfold send_money;
    match goal with
    | |- context [if ?b then _ else _] =>
      let v := eval vm_compute in b in change b with v; cbv iota
    end;
    unfold group, captures; rewrite ?lookup_insert_eq, ?lookup_insert_ne by done;
    rewrite ?lookup_insert_eq; cbn [from_option id];
    match goal with
    | H : consumes (Seq (Chars [IDigit] 1 None) Empty) ?w |- _ =>
      destruct (digit_group_floats w H) as [x ->]
    end;
    by eexists _, _.
Qed.

Lemma first_send_spec patterns cmd :
  match first_send patterns cmd with
  | Some r =>
    ∃ pre pattern post m,
      patterns = pre ++ pattern :: post
      ∧ (∀ p, p ∈ pre → search p cmd = None)
      ∧ search pattern cmd = Some m
      ∧ r = send_money pattern m
  | None => ∀ pattern, pattern ∈ patterns → search pattern cmd = None
  end.
Proof.
  induction patterns as [|p ps IH]; cbn [first_send].
  { intros pattern. by intros ?%elem_of_nil. }
  destruct (search p cmd) as [m|] eqn:Hp.
  - exists [], p, ps, m. split_and!; [done| |done|done].
    intros p'. by intros ?%elem_of_nil.
  - destruct (first_send ps cmd) as [r|].
    + destruct IH as (pre & pattern & post & m & -> & Hpre & Hs & ->).
      exists (p :: pre), pattern, post, m. split_and!; [done| |done|done].
      intros p' [->|Hin]%elem_of_cons; [done|by apply Hpre].
    + intros pattern [->|Hin]%elem_of_cons; [done|by apply IH].
Qed.

Lemma any_match_spec patterns cmd :
  any_match patterns cmd = true ↔ matches patterns cmd.
Proof.
  unfold any_match, matches. rewrite existsb_exists.
  split; intros (p & Hp & Hm); exists p.
  - split; [by apply list_elem_of_In|by apply bool_decide_eq_true in Hm].
  - split; [by apply list_elem_of_In|by apply bool_decide_eq_true].
Qed.

Lemma any_match_false patterns cmd :
  any_match patterns cmd = false ↔ ¬ matches patterns cmd.
Proof. rewrite <-any_match_spec. by destruct (any_match patterns cmd). Qed.

Lemma first_send_None cmd :
  first_send send_patterns cmd = None ↔ ¬ matches send_patterns cmd.
Proof.
  pose proof (first_send_spec send_patterns cmd) as H.
  destruct (first_send send_patterns cmd) as [r|]; split; try done.
  - intros Hno. destruct Hno.
    destruct H as (pre & p & post & m & Heq & _ & Hs & _).
    exists p. rewrite Hs, Heq. split; [|by eexists].
    apply elem_of_app. right. by left.
  - intros _ (p & Hin & [m Hs]). by rewrite (H p Hin) in Hs.
Qed.

End Intent.

(** C7 (as amended).  The extractor always returns a dict.  It consults its
    pattern groups in the order send-money, receive-money, balance, history,
    help and returns at the first group that matches, whatever the later
    groups would say; inside the send-money group the first pattern that
    matches decides, and its amount group always converts.  A pattern
    matches when it is found anywhere in the command, and the search is
    case-sensitive: the patterns are lower-case, and it is the
    [/process-voice] route that lower-cases the command before it calls the
    extractor.  The four commands of the specification give the stated
    dicts. *)
Theorem intent_first_match_wins `{U : Unicode} (cmd : pystr) :
  (∃ i, extract_voice_intent cmd = Ok i)
  ∧ (matches send_patterns cmd →
     ∃ pre pattern post m amt who,
       send_patterns = pre ++ pattern :: post
       ∧ (∀ p, p ∈ pre → Re.search p cmd = None)
       ∧ Re.search pattern cmd = Some m
       ∧ extract_voice_intent cmd = send_money pattern m
       ∧ send_money pattern m = Ok (send_intent amt who))
  ∧ (¬ matches send_patterns cmd → matches receive_patterns cmd →
     extract_voice_intent cmd = Ok (plain_intent "receive_money"))
  ∧ (¬ matches send_patterns cmd → ¬ matches receive_patterns cmd →
     matches balance_patterns cmd →
     extract_voice_intent cmd = Ok (plain_intent "check_balance"))
  ∧ (¬ matches send_patterns cmd → ¬ matches receive_patterns cmd →
     ¬ matches balance_patterns cmd → matches history_patterns cmd →
     extract_voice_intent cmd = Ok (plain_intent "view_history"))
  ∧ (¬ matches send_patterns cmd → ¬ matches receive_patterns cmd →
     ¬ matches balance_patterns cmd → ¬ matches history_patterns cmd →
     matches help_patterns cmd →
     extract_voice_intent cmd = Ok (plain_intent "help"))
  ∧ (¬ matches send_patterns cmd → ¬ matches receive_patterns cmd →
     ¬ matches balance_patterns cmd → ¬ matches history_patterns cmd →
     ¬ matches help_patterns cmd →
     extract_voice_intent cmd = Ok (unknown_intent cmd))
  ∧ extract_voice_intent (py "send 500 to Ravi")
      = Ok (send_intent (FFin (inject_Z 500)) (py "Ravi"))
  ∧ extract_voice_intent (py "Ravi ko 500 bhej")
      = Ok (send_intent (FFin (inject_Z 500)) (py "Ravi"))
  ∧ extract_voice_intent (py "what is my balance") = Ok (plain_intent "check_balance")
  ∧ extract_voice_intent (py "xyz random text")
      = Ok (unknown_intent (py "xyz random text"))
  ∧ (∀ user now st,
       (process_voice {| payload_command := Some cmd; payload_user_id := user |}
          now st).1
       = match extract_voice_intent (str_lower cmd) with
         | Ok result => Reply result
         | Raise _ => Failure 500 "Internal server error"
         end).
Proof.
  assert (matches send_patterns cmd →
     ∃ pre pattern post m amt who,
       send_patterns = pre ++ pattern :: post
       ∧ (∀ p, p ∈ pre → Re.search p cmd = None)
       ∧ Re.search pattern cmd = Some m
       ∧ extract_voice_intent cmd = send_money pattern m
       ∧ send_money pattern m = Ok (send_intent amt who)) as Hsend.
  { intros Hm. unfold extract_voice_intent.
    pose proof (first_send_spec send_patterns cmd) as Hspec.
    destruct (first_send send_patterns cmd) as [r|] eqn:Hfirst.
    - destruct Hspec as (pre & pattern & post & m & Heq & Hpre & Hs & ->).
      destruct (send_money_returns pattern cmd m) as (amt & who & Hok); [|done|].
      { rewrite Heq. apply elem_of_app. right. by left. }
      by exists pre, pattern, post, m, amt, who.
    - by apply first_send_None in Hfirst. }
  assert (¬ matches send_patterns cmd →
          extract_voice_intent cmd =
            if any_match receive_patterns cmd then Ok (plain_intent "receive_money")
            else if any_match balance_patterns cmd then Ok (plain_intent "check_balance")
            else if any_match history_patterns cmd then Ok (plain_intent "view_history")
            else if any_match help_patterns cmd then Ok (plain_intent "help")
            else Ok (unknown_intent cmd)) as Hrest.
  { intros Hno%first_send_None. unfold extract_voice_intent. by rewrite Hno. }
  split_and!.
  - destruct (first_send send_patterns cmd) as [r|] eqn:Hfirst.
    + destruct Hsend as (pre & pattern & post & m & amt & who & _ & _ & _ & -> & ->).
      { pose proof (first_send_spec send_patterns cmd) as Hspec.
        rewrite Hfirst in Hspec.
        destruct Hspec as (pre & p & post & m & Heq & _ & Hs & _).
        exists p. rewrite Hs, Heq. split; [|by eexists].
        apply elem_of_app. right. by left. }
      by eexists.
    + apply first_send_None in Hfirst. rewrite (Hrest Hfirst).
      repeat (destruct (any_match _ _); [by eexists|]). by eexists.
  - done.
  - intros Hs Hr%any_match_spec. by rewrite (Hrest Hs), Hr.
  - intros Hs Hr%any_match_false Hb%any_match_spec. by rewrite (Hrest Hs), Hr, Hb.
  - intros Hs Hr%any_match_false Hb%any_match_false Hh%any_match_spec.
    by rewrite (Hrest Hs), Hr, Hb, Hh.
  - intros Hs Hr%any_match_false Hb%any_match_false Hh%any_match_false
      Hp%any_match_spec.
    by rewrite (Hrest Hs), Hr, Hb, Hh, Hp.
  - intros Hs Hr%any_match_false Hb%any_match_false Hh%any_match_false
      Hp%any_match_false.
    by rewrite (Hrest Hs), Hr, Hb, Hh, Hp.
  - vm_compute. reflexivity.
  - vm_compute. reflexivity.
  - vm_compute. reflexivity.
  - vm_compute. reflexivity.
  - intros user now st. unfold process_voice. cbn [payload_command payload_user_id].
    by destruct (extract_voice_intent (str_lower cmd)).
Qed.

(** The claim as first stated fails: matching is not case-insensitive in
    the extractor.  An upper-case balance query is not recognised, and
    through the route, which lower-cases first, the recipient of
    "send 500 to Ravi" comes back as "ravi". *)
Lemma uppercase_command_is_unknown :
  extract_voice_intent (U:=ascii_database) (py "WHAT IS MY BALANCE")
    = Ok (unknown_intent (py "WHAT IS MY BALANCE"))
  ∧ extract_voice_intent (U:=ascii_database) (py "what is my balance")
    = Ok (plain_intent "check_balance")
  ∧ (process_voice (U:=ascii_database)
       {| payload_command := Some (py "send 500 to Ravi"); payload_user_id := None |}
       0%Z init).1
    = Reply (send_intent (FFin (inject_Z 500)) (py "ravi")).
Proof. by vm_compute. Qed.

Lemma intent_first_match_wins_witness :
  let cmd := py "send 500 to Ravi and show my balance history" in
  ∃ amt who, extract_voice_intent (U:=ascii_database) cmd = Ok (send_intent amt who).
Proof.
  intros cmd.
  destruct (intent_first_match_wins (U:=ascii_database) cmd) as (_ & Hsend & _).
  destruct Hsend as (pre & pattern & post & m & amt & who & _ & _ & _ & Hx & Hok).
  - exists (py "send\s+(\d+)\s+to\s+([a-zA-Z\s]+)"). split.
    + unfold send_patterns. cbn [map]. by left.
    + vm_compute. by eexists.
  - exists amt, who. by rewrite Hx.
Defined.

(** *** Ledgers the routes can reach *)

Lemma ledger_stamped_init : ledger_stamped init.
Proof. intros user. unfold stamped. rewrite transactions_of_init. constructor. Qed.

Lemma stamped_new_dict p st user :
  stamped st user → stamped (new_dict p st).2 user.
Proof.
  unfold stamped. rewrite transactions_of_new_dict, !Forall_forall.
  intros Hst tx Htx. rewrite stamp_new_dict; [by apply Hst|].
  by apply stamp_is_Some_heap, Hst.
Qed.

Lemma stamped_log_voice_command u cmd now st user :
  stamped st user → stamped (log_voice_command u cmd now st).2 user.
Proof.
  unfold stamped. rewrite transactions_of_log_voice_command, !Forall_forall.
  intros Hst tx Htx. rewrite stamp_log_voice_command. by apply Hst.
Qed.

Lemma stamped_log_transaction u data now st :
  is_Some (heap st !! data) → ledger_stamped st →
  ledger_stamped (log_transaction u data now st).2.
Proof.
  intros Hdata Hst user. unfold stamped.
  assert (∀ tx, tx ∈ transactions_of st user ∨ tx = data →
                is_Some (stamp (log_transaction u data now st).2 tx)) as Hall.
  { intros tx Htx. destruct (decide (tx = data)) as [->|Hne].
    - rewrite stamp_log_transaction_eq by done. by eexists.
    - rewrite stamp_log_transaction_ne by done.
      destruct Htx as [Htx|Htx]; [|done]. by eapply stamped_elem. }
  rewrite transactions_of_log_transaction, Forall_forall.
  case_decide as Hu.
  - subst u. intros tx [Htx|Htx%list_elem_of_singleton]%elem_of_last_n%elem_of_app;
      apply Hall; auto.
  - intros tx Htx. apply Hall. by left.
Qed.

Section ReachableLedgers.
Context {U : Unicode}.

(** The state the [/detect-fraud] route leaves behind, whether it replies
    with a verdict or with an error. *)
Lemma detect_fraud_route_state body clk st :
  (detect_fraud_route body clk st).2 =
    if empty_dict body then st
    else
      let data := fresh (dom (heap st)) in
      match user_id body with
      | Some user =>
        if nonempty user then perform_all (route_calls body clk user data) st
        else (new_dict body st).2
      | None => (new_dict body st).2
      end.
Proof.
  unfold detect_fraud_route. destruct (empty_dict body); [done|]. cbv zeta.
  assert (∀ data clk' st', (match detect_fraud data clk' st' with
            | (Ok result, st'') => (Reply result, st'')
            | (Raise _, st'') => (Failure 500 "Internal server error", st'')
            end).2 = st') as Hro.
  { intros data clk' st'. pose proof (readonly_detect_fraud data clk' st') as H.
    by destruct (detect_fraud data clk' st') as [[v|e] st'']. }
  destruct (user_id body) as [user|] eqn:Hu; [destruct (nonempty user) eqn:Hne|].
  - rewrite (detect_fraud_body_run body clk st user) by (by try apply nonempty_ne).
    apply Hro.
  - unfold detect_fraud_body.
    unfold mbind at 1, M_bind at 1, bind at 1. cbn [new_dict].
    rewrite run_deref. cbn [heap]. rewrite lookup_total_insert_eq, Hu, Hne.
    unfold mbind, M_bind, bind. cbn [mret M_ret ret]. apply Hro.
  - unfold detect_fraud_body.
    unfold mbind at 1, M_bind at 1, bind at 1. cbn [new_dict].
    rewrite run_deref. cbn [heap]. rewrite lookup_total_insert_eq, Hu.
    unfold mbind, M_bind, bind. cbn [mret M_ret ret]. apply Hro.
Qed.

(** Both routes keep every stored transaction stamped, so the ledgers the
    service reaches from [init] are the ones the history rule can read. *)
Lemma detect_fraud_route_stamped body clk st :
  ledger_stamped st → ledger_stamped (detect_fraud_route body clk st).2.
Proof.
  intros Hst. rewrite detect_fraud_route_state.
  destruct (empty_dict body); [done|]. cbv zeta.
  assert (ledger_stamped (new_dict body st).2) as Hnew.
  { intros user. by apply stamped_new_dict. }
  destruct (user_id body) as [user|]; [destruct (nonempty user)|]; [|done..].
  unfold route_calls.
  assert (ledger_stamped
            (log_transaction user (fresh (dom (heap st))) (now_log_transaction clk)
               (new_dict body st).2).2) as Hlog.
  { apply stamped_log_transaction; [|done]. cbn. rewrite lookup_insert_eq. by eexists. }
  destruct (voice_command body) as [cmd|]; cbn [perform_all foldl app perform]; [|done].
  intros u. by apply stamped_log_voice_command.
Qed.

Lemma process_voice_stamped body now st :
  ledger_stamped st → ledger_stamped (process_voice body now st).2.
Proof.
  intros Hst. unfold process_voice.
  destruct (payload_command body) as [c|]; [|done].
  assert (ledger_stamped
            (if nonempty (default [] (payload_user_id body))
             then (log_voice_command (default [] (payload_user_id body))
                     (str_lower c) now st).2
             else st)) as Hst'.
  { destruct (nonempty _); [|done]. intros u. by apply stamped_log_voice_command. }
  by destruct (extract_voice_intent (str_lower c)).
Qed.

Lemma ledger_stamped_readable st data : ledger_stamped st → history_readable st data.
Proof. intros Hst. unfold history_readable. by destruct (user_id _). Qed.

End ReachableLedgers.

(** *** The digits of an amount *)

Lemma repunit_S m : repunit (S m) = (10 * repunit m + 1)%Z.
Proof.
  unfold repunit. rewrite Nat2Z.inj_succ, Z.pow_succ_r by lia.
  assert (∃ q, 10 ^ Z.of_nat m - 1 = 9 * q)%Z as [q Hq].
  { induction m as [|m [q IH]]; [by exists 0%Z|].
    exists (10 * q + 1)%Z. rewrite Nat2Z.inj_succ, Z.pow_succ_r by lia. lia. }
  replace (10 * 10 ^ Z.of_nat m - 1)%Z with ((10 * q + 1) * 9)%Z by lia.
  rewrite Hq, Z.div_mul by lia.
  replace (9 * q)%Z with (q * 9)%Z by lia. rewrite Z.div_mul by lia. lia.
Qed.

Lemma repunit_pos m : (1 ≤ repunit (S m))%Z.
Proof. induction m as [|m IH]; [done|]. rewrite repunit_S. lia. Qed.

Lemma digits_upto_fuel f f' n :
  (0 ≤ n < 10 ^ Z.of_nat (S f))%Z → (0 ≤ n < 10 ^ Z.of_nat (S f'))%Z →
  digits_upto (S f) n = digits_upto (S f') n.
Proof.
  revert f' n. induction f as [|f IH]; intros f' n Hf Hf'; cbn [digits_upto].
  - assert (n < 10)%Z as Hn by (change (10 ^ Z.of_nat 1)%Z with 10%Z in Hf; lia).
    apply Z.ltb_lt in Hn. by rewrite Hn.
  - destruct (n <? 10)%Z eqn:Hn; [done|]. apply Z.ltb_ge in Hn.
    destruct f' as [|f'].
    { change (10 ^ Z.of_nat 1)%Z with 10%Z in Hf'. lia. }
    f_equal. apply IH.
    + rewrite Nat2Z.inj_succ, Z.pow_succ_r in Hf by lia.
      split; [apply Z.div_pos; lia|]. apply Z.div_lt_upper_bound; lia.
    + rewrite Nat2Z.inj_succ, Z.pow_succ_r in Hf' by lia.
      split; [apply Z.div_pos; lia|]. apply Z.div_lt_upper_bound; lia.
Qed.

Lemma digits_fuel_enough n :
  (0 ≤ n)%Z → (0 ≤ n < 10 ^ Z.of_nat (S (Z.to_nat (Z.log2 n))))%Z.
Proof.
  intros Hn. split; [done|].
  rewrite Nat2Z.inj_succ, Z2Nat.id by apply Z.log2_nonneg.
  destruct (decide (n = 0%Z)) as [->|Hne]; [done|].
  eapply Z.lt_le_trans; [apply Z.log2_spec; lia|].
  apply Z.pow_le_mono_l. lia.
Qed.

(** [str(n)] digit by digit: the fuel of [digits] never runs out. *)
Lemma digits_unfold n :
  (0 ≤ n)%Z →
  digits n = if (n <? 10)%Z then [digit_char n]
             else digits (n / 10) ++ [digit_char (n mod 10)].
Proof.
  intros Hn. unfold digits at 1. cbn [digits_upto].
  destruct (n <? 10)%Z eqn:Hlt; [done|]. apply Z.ltb_ge in Hlt. f_equal.
  assert (0 ≤ n / 10)%Z as Hdiv by (apply Z.div_pos; lia).
  pose proof (digits_fuel_enough n Hn) as Hfuel.
  destruct (Z.to_nat (Z.log2 n)) as [|f] eqn:Hlog.
  { change (10 ^ Z.of_nat 1)%Z with 10%Z in Hfuel. lia. }
  unfold digits. apply digits_upto_fuel; [|by apply digits_fuel_enough].
  rewrite Nat2Z.inj_succ, Z.pow_succ_r in Hfuel by lia.
  split; [done|]. apply Z.div_lt_upper_bound; lia.
Qed.

Lemma digit_char_inj d d' :
  (0 ≤ d ≤ 9)%Z → (0 ≤ d' ≤ 9)%Z → digit_char d = digit_char d' → d = d'.
Proof. unfold digit_char. lia. Qed.

Lemma replicate_snoc {A} k (x : A) : replicate (S k) x = replicate k x ++ [x].
Proof. induction k as [|k IH]; [done|]. cbn in *. by rewrite <-IH. Qed.

Lemma digits_repdigit d k :
  (1 ≤ d ≤ 9)%Z → digits (d * repunit (S k)) = replicate (S k) (digit_char d).
Proof.
  intros Hd. induction k as [|k IH].
  - change (repunit 1) with 1%Z. rewrite Z.mul_1_r, digits_unfold by lia.
    assert (d < 10)%Z as Hlt%Z.ltb_lt by lia. by rewrite Hlt.
  - pose proof (repunit_pos k) as Hpos.
    rewrite repunit_S, digits_unfold by nia.
    assert (¬ (d * (10 * repunit (S k) + 1) < 10))%Z as Hge%Z.ltb_nlt by nia.
    rewrite Hge.
    replace (d * (10 * repunit (S k) + 1))%Z
      with (d + (d * repunit (S k)) * 10)%Z by lia.
    rewrite Z.div_add, Z.mod_add, Z.div_small, Z.mod_small by lia.
    rewrite Z.add_0_l, IH. by rewrite <-replicate_snoc.
Qed.

Lemma digits_nonempty n : (0 ≤ n)%Z → digits n ≠ [].
Proof.
  intros Hn. rewrite digits_unfold by done.
  destruct (n <? 10)%Z; [done|]. by intros [? ?]%app_eq_nil.
Qed.

(** A number whose digits are all the same character is a repdigit. *)
Lemma digits_replicate k :
  ∀ n c, (0 ≤ n)%Z → digits n = replicate (S k) c →
         ∃ d, (0 ≤ d ≤ 9)%Z ∧ c = digit_char d ∧ n = (d * repunit (S k))%Z.
Proof.
  induction k as [|k IH]; intros n c Hn; rewrite digits_unfold by done;
    destruct (n <? 10)%Z eqn:Hlt.
  - apply Z.ltb_lt in Hlt. intros [= <-]. exists n.
    change (repunit 1) with 1%Z. split_and!; [lia..|done|lia].
  - intros Heq. apply (f_equal length) in Heq.
    rewrite length_app, length_replicate in Heq. cbn [length] in Heq.
    assert (0 ≤ n / 10)%Z as Hdiv by (apply Z.div_pos; lia).
    pose proof (digits_nonempty (n / 10) Hdiv) as Hne.
    destruct (digits (n / 10)); [done|]. cbn [length] in Heq. lia.
  - intros Heq. by apply (f_equal length) in Heq.
  - apply Z.ltb_ge in Hlt. rewrite (replicate_snoc (S k)).
    intros [Hhigh [= Hlow]]%app_inj_tail.
    assert (0 ≤ n / 10)%Z as Hdiv by (apply Z.div_pos; lia).
    destruct (IH (n / 10)%Z c Hdiv Hhigh) as (d & Hd & -> & Hval).
    apply digit_char_inj in Hlow; [|pose proof (Z.mod_pos_bound n 10); lia|done].
    exists d. split_and!; [lia..|done|].
    rewrite repunit_S. pose proof (Z.div_mod n 10). lia.
Qed.


Lemma digits_upto_range f n c :
  (0 ≤ n)%Z → c ∈ digits_upto f n → (48 ≤ c ≤ 57)%N.
Proof.
  revert n. induction f as [|f IH]; intros n Hn; cbn [digits_upto].
  { by intros ?%elem_of_nil. }
  destruct (n <? 10)%Z eqn:Hlt.
  - apply Z.ltb_lt in Hlt. intros ->%list_elem_of_singleton. unfold digit_char. lia.
  - intros [Hc| ->%list_elem_of_singleton]%elem_of_app.
    + apply (IH (n / 10)%Z); [|done]. apply Z.div_pos; lia.
    + pose proof (Z.mod_pos_bound n 10). unfold digit_char. lia.
Qed.

(** [len(set(s)) == 1]: the string is one character, one or more times. *)
Lemma distinct_chars_one (s : pystr) :
  distinct_chars s = 1 ↔ ∃ c k, s = replicate (S k) c.
Proof.
  unfold distinct_chars. split.
  - intros [c Hc]%size_1_elem_of.
    assert (∀ x, x ∈ s → x = c) as Hall.
    { intros x Hx. apply (elem_of_list_to_set (C:=gset char)) in Hx.
      rewrite Hc in Hx. by apply elem_of_singleton in Hx. }
    destruct s as [|x s].
    { exfalso. cbn in Hc. assert (c ∈ (∅ : gset char)) as H by (rewrite Hc; set_solver).
      by apply not_elem_of_empty in H. }
    exists c, (length s). symmetry. apply replicate_as_elem_of. split; [done|].
    intros y Hy. by apply Hall.
  - intros (c & k & ->).
    assert (list_to_set (replicate (S k) c) = ({[c]} : gset char)) as ->.
    { induction k as [|k IH]; [set_solver|].
      change (replicate (S (S k)) c) with (c :: replicate (S k) c).
      rewrite list_to_set_cons, IH. set_solver. }
    apply size_singleton.
Qed.

(** The same-digits test of the rule succeeds exactly on the non-negative
    repdigits, the one-digit numbers among them. *)
Lemma same_digits_iff n :
  distinct_chars (str_of_int n) = 1 ↔ (0 ≤ n)%Z ∧ repdigit n.
Proof.
  rewrite distinct_chars_one. unfold str_of_int, repdigit.
  destruct (n <? 0)%Z eqn:Hneg.
  - apply Z.ltb_lt in Hneg. split; [|lia].
    intros (c & k & Heq). exfalso.
    assert (0 ≤ - n)%Z as Hpos by lia.
    pose proof (digits_nonempty (- n) Hpos) as Hne.
    cbn [replicate] in Heq. injection Heq as <- Hrest.
    destruct k as [|k]; [done|]. cbn [replicate] in Hrest.
    assert (45%N ∈ digits (- n)) as Hin by (rewrite Hrest; by left).
    apply digits_upto_range in Hin; [lia|done].
  - apply Z.ltb_ge in Hneg. split.
    + intros (c & k & Heq). split; [done|].
      destruct (digits_replicate k n c Hneg Heq) as (d & Hd & _ & Hn).
      by exists d, k.
    + intros [_ (d & k & Hd & ->)].
      destruct (decide (d = 0%Z)) as [->|Hd0].
      * exists (digit_char 0), 0. by rewrite Z.mul_0_l.
      * exists (digit_char d), k. apply digits_repdigit. lia.
Qed.


(** The amount rule on a number the rule can evaluate, with the integer
    part [n] that [int()] gives: it returns [True] exactly when the amount
    is above 50000, or [n] is a non-negative repdigit (a single digit is
    one), or the amount is above 10000 and a multiple of 1000. *)
Lemma amount_rule_characterised (d : payload) (a : number) (n : Z) :
  as_number (default (JInt 0) (amount d)) = Some a → num_int a = Ok n →
  ∃ b, amount_rule d = Ok b
       ∧ (b = true ↔
          num_gt a MAX_SINGLE_TRANSACTION = true
          ∨ ((0 ≤ n)%Z ∧ repdigit n)
          ∨ (num_gt a SUSPICIOUS_AMOUNT_THRESHOLD = true
             ∧ num_mod_is_zero a 1000 = true)).
Proof.
  intros Ha Hn. unfold amount_rule. rewrite Ha, Hn.
  destruct (num_gt a MAX_SINGLE_TRANSACTION) eqn:Hmax.
  { exists true. split; [done|]. naive_solver. }
  eexists. split; [done|].
  rewrite orb_true_iff, andb_true_iff, bool_decide_eq_true, same_digits_iff.
  naive_solver.
Qed.





(** *** A gambling keyword *)

(** The description "Casino bonus" raises [gambling_keywords_detected], which
    contributes 30 to the score. *)
Lemma casino_bonus_is_flagged :
  let body :=
    {| user_id := None; amount := Some (JInt 250);
       description := Some (py "Casino bonus"); voice_command := None;
       recipient_name := None; timestamp := None; other_keys := [] |} in
  ∃ v, (detect_fraud_route (U:=ascii_database) body
          (Example.steady_route (Example.at_time 10 0)) init).1 = Reply v
       ∧ fraud_indicators v = ["gambling_keywords_detected"%string]
       ∧ risk_score v = 30%Z.
Proof. intros body. eexists. by vm_compute. Qed.

(** *** What the weights imply *)

Section VerdictArithmetic.
Context {U : Unicode}.

Lemma detect_fraud_assembles data clk st v st' :
  detect_fraud data clk st = (Ok v, st') →
  ∃ g t a vo ti, v = assemble g t a vo ti clk.
Proof.
  intros (-> & g & t & a & vo & _ & _ & _ & _ & ->)%detect_fraud_inv.
  by eexists g, t, a, vo, _.
Qed.

End VerdictArithmetic.

(** In every verdict, [is_fraud] holds exactly when at least two rules were
    triggered.  The score test never decides on its own: no single weight
    reaches 50 (one indicator means a score of at most 30), and a score of
    50 or more takes two rules. *)
Theorem fraud_iff_two_indicators `{U : Unicode} (data : loc) (clk : clock)
    (st st' : state) (v : verdict) :
  detect_fraud data clk st = (Ok v, st') →
  (is_fraud v = true ↔ 2 ≤ length (fraud_indicators v))
  ∧ ((50 ≤ risk_score v)%Z → 2 ≤ length (fraud_indicators v))
  ∧ (length (fraud_indicators v) ≤ 1 → (risk_score v ≤ 30)%Z).
Proof.
  intros (g & t & a & vo & ti & ->)%detect_fraud_assembles.
  destruct g, t, a, vo, ti; vm_compute; split_and!; try split; try done; try lia.
Qed.

Lemma fraud_iff_two_indicators_witness :
  let st := Example.with_dict
              (Example.request None (Some (JInt 11111)) (Some "urgent"%string)) in
  ∃ v, detect_fraud (U:=ascii_database) 1%positive
         (Example.steady (Example.at_time 10 0)) st = (Ok v, st)
       ∧ is_fraud v = true ∧ 2 ≤ length (fraud_indicators v).
Proof.
  intros st. eexists. split; [vm_compute; reflexivity|].
  assert (∀ v, detect_fraud (U:=ascii_database) 1%positive
                 (Example.steady (Example.at_time 10 0)) st = (Ok v, st) →
               2 ≤ length (fraud_indicators v) →
               is_fraud v = true ∧ 2 ≤ length (fraud_indicators v)) as Hw.
  { intros v Hv Hlen. split; [|done].
    by apply (fraud_iff_two_indicators (U:=ascii_database) _ _ _ _ _ Hv). }
  apply Hw; [vm_compute; reflexivity|]. vm_compute. lia.
Defined.

(** The two caps of the verdict never cut anything: the weights add up to
    exactly 100, so [risk_score] is the plain sum of the triggered weights,
    [confidence] is [risk_score / 100], and the score is 100 exactly when
    all five rules were triggered. *)
Theorem risk_score_is_plain_sum `{U : Unicode} (data : loc) (clk : clock)
    (st st' : state) (v : verdict) :
  detect_fraud data clk st = (Ok v, st') →
  risk_score v = total (weight_of <$> triggered_rules data clk st)
  ∧ confidence v = Qmake (risk_score v) 100
  ∧ (risk_score v = 100%Z ↔ length (fraud_indicators v) = 5).
Proof.
  intros Hd.
  pose proof Hd as (-> & g & t & a & vo & Hg & Ht & Ha & Hvo & ->)%detect_fraud_inv.
  destruct (triggered_rules_run data clk st g t a vo Hg Ht Ha Hvo) as [_ Hw].
  rewrite Hw.
  destruct g, t, a, vo, (bool_decide _); vm_compute; split_and!; try split; try done.
Qed.

Lemma risk_score_is_plain_sum_witness :
  let st := Example.with_dict
              (Example.request None (Some (JInt 11111)) (Some "urgent"%string)) in
  ∃ v, detect_fraud (U:=ascii_database) 1%positive
         (Example.steady (Example.at_time 10 0)) st = (Ok v, st)
       ∧ confidence v = Qmake (risk_score v) 100.
Proof.
  intros st. eexists. split; [vm_compute; reflexivity|].
  eapply (risk_score_is_plain_sum (U:=ascii_database) 1%positive
            (Example.steady (Example.at_time 10 0)) st st).
  vm_compute. reflexivity.
Defined.


(** *** The [/detect-fraud] route, request by request *)

Section RouteRecords.
Context {U : Unicode}.

Lemma detect_fraud_route_run body clk st :
  detect_fraud_route body clk st =
    if empty_dict body then (Failure 400 "No data provided", st)
    else
      match (detect_fraud (fresh (dom (heap st))) (now_detect clk)
               (recorded body clk st)).1 with
      | Ok v => (Reply v, recorded body clk st)
      | Raise _ => (Failure 500 "Internal server error", recorded body clk st)
      end.
Proof.
  unfold detect_fraud_route. destruct (empty_dict body); [done|].
  assert (detect_fraud_body body clk st
          = detect_fraud (fresh (dom (heap st))) (now_detect clk)
              (recorded body clk st)) as ->.
  { unfold recorded. cbv zeta.
    destruct (user_id body) as [user|] eqn:Hu; [destruct (nonempty user) eqn:Hne|].
    - by rewrite (detect_fraud_body_run body clk st user) by (by try apply nonempty_ne).
    - unfold detect_fraud_body.
      unfold mbind at 1, M_bind at 1, bind at 1. cbn [new_dict].
      rewrite run_deref. cbn [heap]. by rewrite lookup_total_insert_eq, Hu, Hne.
    - unfold detect_fraud_body.
      unfold mbind at 1, M_bind at 1, bind at 1. cbn [new_dict].
      rewrite run_deref. cbn [heap]. by rewrite lookup_total_insert_eq, Hu. }
  pose proof (readonly_detect_fraud (fresh (dom (heap st))) (now_detect clk)
                (recorded body clk st)) as Hro.
  destruct (detect_fraud _ _ _) as [[v|e] st']; cbn in *; by subst.
Qed.

Lemma recorded_anonymous body clk st :
  anonymous body → recorded body clk st = (new_dict body st).2.
Proof. unfold recorded. by intros [->| ->]. Qed.

Lemma recorded_user body clk st user :
  user_id body = Some user → user ≠ [] →
  recorded body clk st
  = perform_all (route_calls body clk user (fresh (dom (heap st)))) st.
Proof. unfold recorded. intros -> ->%nonempty_ne. done. Qed.

Lemma recorded_stamped body clk st :
  ledger_stamped st → ledger_stamped (recorded body clk st).
Proof.
  intros Hst. unfold recorded. cbv zeta.
  assert (ledger_stamped (new_dict body st).2) as Hnew.
  { intros user. by apply stamped_new_dict. }
  destruct (user_id body) as [user|]; [destruct (nonempty user)|]; [|done..].
  unfold route_calls.
  assert (ledger_stamped
            (log_transaction user (fresh (dom (heap st))) (now_log_transaction clk)
               (new_dict body st).2).2) as Hlog.
  { apply stamped_log_transaction; [|done]. cbn. rewrite lookup_insert_eq. by eexists. }
  destruct (voice_command body) as [cmd|]; cbn [perform_all foldl app perform]; [|done].
  intros u. by apply stamped_log_voice_command.
Qed.


End RouteRecords.

Section RouteStatus.
Context {U : Unicode}.




End RouteStatus.



Lemma serve_all_snoc `{U : Unicode} cs c :
  serve_all (cs ++ [c]) = serve (serve_all cs) c.
Proof. unfold serve_all. by rewrite foldl_app. Qed.


(** *** What a verdict says about each rule *)

Section VoiceRule.
Context {U : Unicode}.

Lemma check_voice_patterns_run data now st :
  _check_voice_patterns data now st = (Ok (voice_rule (heap st !!! data) now st), st).
Proof.
  unfold _check_voice_patterns, voice_rule, voice_rate. rewrite run_deref.
  destruct (voice_command _) as [cmd|]; cbn [from_option id nonempty negb]; [|done].
  destruct (nonempty cmd); [|done]. cbn [negb andb].
  fold (any_match SUSPICIOUS_PATTERNS (str_lower cmd)).
  destruct (any_match _ _); [done|]. cbn [orb].
  destruct (user_id _) as [user|]; [|done].
  destruct (nonempty user); [|done]. cbn [negb andb].
  rewrite run_gets. fold (commands_of st user).
  by destruct (bool_decide _).
Qed.

Lemma assemble_has_voice g t a vo ti clk :
  "suspicious_voice_pattern"%string ∈ fraud_indicators (assemble g t a vo ti clk)
  ↔ vo = true.
Proof.
  rewrite assemble_indicators, !elem_of_app, !elem_of_flagged. naive_solver.
Qed.

(** What a verdict says about each rule. *)
Lemma verdict_indicators data clk st v st' :
  detect_fraud data clk st = (Ok v, st') →
  let d := heap st !!! data in
  ("gambling_keywords_detected"%string ∈ fraud_indicators v ↔ gambling_rule d = true)
  ∧ ("suspicious_amount_pattern"%string ∈ fraud_indicators v ↔ amount_rule d = Ok true)
  ∧ ("suspicious_voice_pattern"%string ∈ fraud_indicators v
     ↔ voice_rule d (now_voice clk) st = true)
  ∧ ("suspicious_transaction_pattern"%string ∈ fraud_indicators v
     ↔ (_check_transaction_patterns data (now_transactions clk) st).1 = Ok true).
Proof.
  intros (-> & g & t & a & vo & Hg & Ht & Ha & Hvo & ->)%detect_fraud_inv d.
  rewrite check_gambling_keywords_run in Hg. rewrite check_amount_patterns_run in Ha.
  rewrite check_voice_patterns_run in Hvo. cbn [fst] in Hg, Ha, Hvo.
  injection Hg as <-. injection Hvo as <-. fold d in Ha. rewrite Ha, Ht.
  rewrite assemble_has_gambling, assemble_has_amount, assemble_has_voice,
    assemble_has_transaction.
  split_and!; [done| |done|]; split; congruence.
Qed.

End VoiceRule.

Section RouteEffect.
Context {U : Unicode}.

Lemma detect_fraud_route_recorded body clk st :
  (detect_fraud_route body clk st).2 = if empty_dict body then st else recorded body clk st.
Proof.
  rewrite detect_fraud_route_run. destruct (empty_dict body); [done|].
  by destruct (_ .1).
Qed.

Lemma fresh_dict_is_new st : heap st !! fresh (dom (heap st)) = None.
Proof. apply not_elem_of_dom, is_fresh. Qed.

End RouteEffect.

(** The ledger the route has recorded a request in, for a request that
    carries a [user_id]. *)
Lemma recorded_ledger (body : payload) (clk : route_clock)
    (st : state) (user : pystr) :
  user_id body = Some user → user ≠ [] →
  let data := fresh (dom (heap st)) in
  let st1 := recorded body clk st in
  heap st !! data = None
  ∧ heap st1 !! data = Some (set_timestamp (now_log_transaction clk) body)
  ∧ transactions_of st1 user = last_n 100 (transactions_of st user ++ [data])
  ∧ commands_of st1 user =
      match voice_command body with
      | Some cmd =>
        last_n 50 (commands_of st user
                   ++ [{| command := cmd; command_timestamp := now_log_voice clk |}])
      | None => commands_of st user
      end
  ∧ (∀ other, other ≠ user →
       transactions_of st1 other = transactions_of st other
       ∧ commands_of st1 other = commands_of st other)
  ∧ (∀ l, l ≠ data → heap st1 !! l = heap st !! l).
Proof.
  intros Hu Hne data st1.
  assert (st1 = perform_all (route_calls body clk user data) st) as ->.
  { subst st1. by apply recorded_user. }
  unfold route_calls.
  pose proof (fresh_dict_is_new st) as Hfresh. fold data in Hfresh.
  set (st0 := (new_dict body st).2).
  set (st2 := (log_transaction user data (now_log_transaction clk) st0).2).
  assert (heap st2 !! data = Some (set_timestamp (now_log_transaction clk) body)) as Hd.
  { subst st2. rewrite heap_log_transaction, decide_True by done.
    subst st0. cbn [new_dict snd heap]. fold data. by rewrite lookup_insert_eq. }
  assert (transactions_of st2 user = last_n 100 (transactions_of st user ++ [data]))
    as Htx.
  { subst st2. by rewrite transactions_of_log_transaction, decide_True. }
  assert (∀ other, other ≠ user → transactions_of st2 other = transactions_of st other)
    as Htxo.
  { intros other Ho. subst st2.
    by rewrite transactions_of_log_transaction, decide_False. }
  assert (∀ u, commands_of st2 u = commands_of st u) as Hcmd.
  { intros u. subst st2. by rewrite commands_of_log_transaction. }
  assert (∀ l, l ≠ data → heap st2 !! l = heap st !! l) as Hheap.
  { intros l Hl. subst st2. rewrite heap_log_transaction, decide_False by done.
    subst st0. cbn [new_dict snd heap]. fold data. by rewrite lookup_insert_ne. }
  destruct (voice_command body) as [cmd|];
    cbn [perform_all foldl app perform]; fold st0; fold st2.
  - split_and!; [done| | | | |].
    + by rewrite log_voice_command_run.
    + by rewrite transactions_of_log_voice_command.
    + by rewrite commands_of_log_voice_command, decide_True, Hcmd.
    + intros other Ho.
      rewrite transactions_of_log_voice_command, commands_of_log_voice_command.
      rewrite decide_False by done. split; [by apply Htxo|by apply Hcmd].
    + intros l Hl. rewrite log_voice_command_run. by apply Hheap.
  - split_and!; [done..| |done]. intros other Ho. split; [by apply Htxo|by apply Hcmd].
Qed.

(** The [/detect-fraud] route records a request that carries a [user_id]
    before it evaluates it, and the record stays whatever the answer is: the
    parsed dict, with the server's time under ['timestamp'] in place of
    anything the client sent, is the newest entry of the identity's
    transaction history; the voice command, when the key is present, is
    logged as it was sent; nothing else in the ledger changes. *)
Theorem detect_fraud_route_records `{U : Unicode} (body : payload) (clk : route_clock)
    (st : state) (user : pystr) :
  user_id body = Some user → user ≠ [] →
  let data := fresh (dom (heap st)) in
  let st1 := (detect_fraud_route body clk st).2 in
  heap st !! data = None
  ∧ heap st1 !! data = Some (set_timestamp (now_log_transaction clk) body)
  ∧ transactions_of st1 user = last_n 100 (transactions_of st user ++ [data])
  ∧ commands_of st1 user =
      match voice_command body with
      | Some cmd =>
        last_n 50 (commands_of st user
                   ++ [{| command := cmd; command_timestamp := now_log_voice clk |}])
      | None => commands_of st user
      end
  ∧ (∀ other, other ≠ user →
       transactions_of st1 other = transactions_of st other
       ∧ commands_of st1 other = commands_of st other)
  ∧ (∀ l, l ≠ data → heap st1 !! l = heap st !! l).
Proof.
  intros Hu Hne data st1.
  assert (st1 = recorded body clk st) as ->.
  { subst st1. rewrite detect_fraud_route_recorded.
    assert (empty_dict body = false) as ->; [|done]. unfold empty_dict. by rewrite Hu. }
  by apply recorded_ledger.
Qed.

Lemma detect_fraud_route_records_witness :
  let body := Example.request (Some "u"%string) (Some (JStr (py "abc"))) None in
  let reply := detect_fraud_route (U:=ascii_database) body
                 (Example.steady_route (Example.at_time 10 0)) init in
  reply.1 = Failure 500 "Internal server error"
  ∧ transactions_of reply.2 (py "u") = [1%positive]
  ∧ heap reply.2 !! 1%positive = Some (set_timestamp (Example.at_time 10 0) body).
Proof.
  intros body reply.
  destruct (detect_fraud_route_records (U:=ascii_database) body
              (Example.steady_route (Example.at_time 10 0)) init (py "u"))
    as (_ & Hd & Htx & _); [done|done|].
  split_and!; [vm_compute; reflexivity|exact Htx|exact Hd].
Defined.

(** A request without a usable [user_id] is not recorded and is never
    counted: both histories stay as they were, the transaction-rate rule is
    not triggered, and the voice rule can only be triggered by the wording of
    the command. *)
Theorem anonymous_request_is_not_recorded `{U : Unicode} (body : payload)
    (clk : route_clock) (st : state) :
  anonymous body →
  let st1 := (detect_fraud_route body clk st).2 in
  transaction_history st1 = transaction_history st
  ∧ voice_command_history st1 = voice_command_history st
  ∧ (∀ l, is_Some (heap st !! l) → heap st1 !! l = heap st !! l)
  ∧ ∀ v, (detect_fraud_route body clk st).1 = Reply v →
      ("suspicious_transaction_pattern"%string ∉ fraud_indicators v)
      ∧ ("suspicious_voice_pattern"%string ∈ fraud_indicators v
         ↔ ∃ cmd, voice_command body = Some cmd ∧ cmd ≠ []
                  ∧ matches SUSPICIOUS_PATTERNS (str_lower cmd)).
Proof.
  intros Hanon st1. subst st1. rewrite detect_fraud_route_recorded.
  rewrite detect_fraud_route_run, (recorded_anonymous body clk st Hanon).
  destruct (empty_dict body); [by split_and!|].
  set (data := fresh (dom (heap st))). set (st0 := (new_dict body st).2).
  assert (heap st0 !!! data = body) as Hd.
  { subst st0 data. cbn [new_dict snd heap]. by rewrite lookup_total_insert_eq. }
  split_and!; [done|done| |].
  - intros l Hl. subst st0. cbn [new_dict snd heap]. fold data.
    rewrite lookup_insert_ne; [done|]. intros <-.
    pose proof (fresh_dict_is_new st) as Hf. fold data in Hf. rewrite Hf in Hl.
    by destruct Hl.
  - intros v Hv.
    destruct (detect_fraud data (now_detect clk) st0) as [[v'|e] st'] eqn:Hrun;
      cbn [fst] in Hv; [|done]. injection Hv as ->.
    destruct (verdict_indicators _ _ _ _ _ Hrun) as (_ & _ & Hvoice & Htx).
    cbv zeta in Hvoice. rewrite Hd in Hvoice. rewrite Hvoice, Htx. clear Hvoice Htx.
    split.
    + unfold _check_transaction_patterns. rewrite run_deref, Hd.
      by destruct Hanon as [->| ->].
    + unfold voice_rule, voice_rate. destruct (voice_command body) as [cmd|]; [|naive_solver].
      rewrite andb_true_iff, nonempty_ne.
      assert (match user_id body with
              | Some user =>
                nonempty user
                && bool_decide (3 < length (recent_commands (now_voice (now_detect clk)) 0
                                              (commands_of st0 user)))
              | None => false
              end = false) as ->.
      { by destruct Hanon as [->| ->]. }
      rewrite orb_false_r, any_match_spec. naive_solver.
Qed.

Lemma anonymous_request_is_not_recorded_witness :
  let body := Example.request None (Some (JInt 250)) (Some "hello"%string) in
  let reply := detect_fraud_route (U:=ascii_database) body
                 (Example.steady_route (Example.at_time 10 0)) init in
  transaction_history reply.2 = transaction_history init
  ∧ voice_command_history reply.2 = voice_command_history init.
Proof.
  intros body reply.
  destruct (anonymous_request_is_not_recorded (U:=ascii_database) body
              (Example.steady_route (Example.at_time 10 0)) init)
    as (Htx & Hvc & _); [by left|].
  by split.
Defined.


(** *** Substring search *)

Lemma starts_with_spec (p s : pystr) :
  starts_with p s = true ↔ ∃ post, s = p ++ post.
Proof.
  revert s. induction p as [|a p IH]; intros s; cbn [starts_with].
  { split; [by exists s|done]. }
  destruct s as [|b s].
  { split; [done|]. by intros [post [=]]. }
  rewrite andb_true_iff, N.eqb_eq, IH. split.
  - intros [-> [post ->]]. by exists post.
  - intros [post [= -> ->]]. split; [done|by exists post].
Qed.

Lemma contains_spec (needle hay : pystr) :
  contains needle hay = true ↔ ∃ pre post, hay = pre ++ needle ++ post.
Proof.
  induction hay as [|c hay IH]; cbn [contains].
  - rewrite orb_false_r, starts_with_spec. split.
    + intros [post Hp]. by exists [], post.
    + intros (pre & post & Hp). symmetry in Hp.
      apply app_eq_nil in Hp as [-> Hp]. exists post. by rewrite <-Hp.
  - rewrite orb_true_iff, IH, starts_with_spec. split.
    + intros [[post Hp]|(pre & post & ->)].
      * by exists [], post.
      * by exists (c :: pre), post.
    + intros ([|c' pre] & post & Hp).
      * left. by exists post.
      * right. injection Hp as -> ->. by exists pre, post.
Qed.




Section GamblingRule.
Context {U : Unicode}.






End GamblingRule.



(** *** The matcher finds what there is to find *)

Lemma last_or_nil prev : last_or prev [] = prev.
Proof. done. Qed.

Lemma last_or_cons prev c w : last_or prev (c :: w) = last_or (Some c) w.
Proof.
  unfold last_or. destruct w as [|c' w]; [done|].
  change (last (c :: c' :: w)) with (last (c' :: w)).
  by destruct (last (c' :: w)) eqn:Hl; [|apply last_None in Hl].
Qed.

Lemma last_or_app prev w1 w2 : last_or prev (w1 ++ w2) = last_or (last_or prev w1) w2.
Proof.
  revert prev. induction w1 as [|c w1 IH]; intros prev; [done|].
  cbn [app]. by rewrite !last_or_cons, IH.
Qed.

Section MatcherComplete.
Context {U : Unicode}.
Import Re.

Lemma greedy_stop {R} cs lo hi n prev s (k : option char → pystr → option R) :
  lo ≤ n → is_Some (k prev s) → is_Some (greedy cs lo hi n prev s k).
Proof.
  intros Hlo Hk.
  assert (is_Some (if lo <=? n then k prev s else None)) as Hstop.
  { by rewrite (proj2 (Nat.leb_le lo n) Hlo). }
  destruct s as [|c s]; cbn [greedy]; [done|].
  destruct (cset_mem cs c && below hi n); [|done].
  by destruct (greedy cs lo hi (S n) (Some c) s k).
Qed.

(** Greedy repetition tries every admissible count: it succeeds as soon as
    the continuation succeeds after one of them. *)
Lemma greedy_complete {R} cs lo hi (k : option char → pystr → option R) w rest :
  ∀ n prev,
    Forall (λ c, cset_mem cs c = true) w →
    lo ≤ n + length w →
    match hi with Some h => n + length w ≤ h | None => True end →
    is_Some (k (last_or prev w) rest) →
    is_Some (greedy cs lo hi n prev (w ++ rest) k).
Proof.
  induction w as [|c w IH]; intros n prev Hw Hlo Hhi Hk.
  { cbn [app]. apply greedy_stop; [cbn in Hlo; lia|done]. }
  apply Forall_cons in Hw as [Hc Hw]. cbn [app greedy length] in *.
  assert (below hi n = true) as ->.
  { destruct hi as [h|]; [|done]. apply Nat.ltb_lt. lia. }
  rewrite Hc. cbn [andb].
  rewrite last_or_cons in Hk.
  destruct (IH (S n) (Some c) Hw) as [res ->]; [lia| |done|done].
  destruct hi; [lia|done].
Qed.

Lemma greedy_spans {R} cs lo hi (k : option char → pystr → option R) res s :
  ∀ n prev,
    greedy cs lo hi n prev s k = Some res →
    ∃ w rest,
      s = w ++ rest ∧ Forall (λ c, cset_mem cs c = true) w
      ∧ lo ≤ n + length w
      ∧ match hi with Some h => n ≤ h → n + length w ≤ h | None => True end
      ∧ k (last_or prev w) rest = Some res.
Proof.
  assert (∀ n prev s',
    (if lo <=? n then k prev s' else None) = Some res →
    ∃ w rest,
      s' = w ++ rest ∧ Forall (λ c, cset_mem cs c = true) w
      ∧ lo ≤ n + length w
      ∧ match hi with Some h => n ≤ h → n + length w ≤ h | None => True end
      ∧ k (last_or prev w) rest = Some res) as Hstop.
  { intros n prev s' Hk. destruct (lo <=? n) eqn:Hlo; [|done].
    apply Nat.leb_le in Hlo. exists [], s'. cbn.
    split_and!; [done..|lia| |done]. destruct hi; [lia|done]. }
  induction s as [|c s IH]; intros n prev; cbn [greedy]; [apply Hstop|].
  destruct (cset_mem cs c && below hi n) eqn:Hc; [|apply Hstop].
  destruct (greedy cs lo hi (S n) (Some c) s k) as [res'|] eqn:Hg; [|apply Hstop].
  intros [= ->]. apply andb_true_iff in Hc as [Hc Hb].
  destruct (IH _ _ Hg) as (w & rest & -> & Hw & Hlen & Hhi & Hk).
  exists (c :: w), rest. rewrite last_or_cons. cbn [length].
  split_and!; [done|by constructor|lia| |done].
  destruct hi as [h|]; [|done]. cbn in Hb. apply Nat.ltb_lt in Hb. lia.
Qed.

Lemma run_spans {R} r :
  ∀ prev s caps (k : option char → pystr → captures → option R) res,
    run r prev s caps k = Some res →
    ∃ w rest prev' caps',
      s = w ++ rest ∧ spans r w ∧ k prev' rest caps' = Some res.
Proof.
  induction r as [|cs lo hi| |r1 IH1 r2 IH2|r1 IH1 r2 IH2|i r1 IH1];
    intros prev s caps k res; cbn [run spans].
  - intros Hk. by exists [], s, prev, caps.
  - intros (w & rest & -> & Hw & Hlen & Hhi & Hk)%greedy_spans.
    exists w, rest, (last_or prev w), caps. split_and!; [done..|lia| |done].
    destruct hi; [apply Hhi; lia|done].
  - destruct (xorb _ _); [|done]. intros Hk. by exists [], s, prev, caps.
  - intros (w1 & rest1 & prev1 & caps1 & -> & Hw1 & Hk1)%IH1.
    apply IH2 in Hk1 as (w2 & rest2 & prev2 & caps2 & -> & Hw2 & Hk2).
    exists (w1 ++ w2), rest2, prev2, caps2.
    split_and!; [by rewrite app_assoc | by exists w1, w2 | done].
  - destruct (run r1 prev s caps k) as [res'|] eqn:H1.
    + intros [= ->].
      apply IH1 in H1 as (w & rest & prev' & caps' & -> & Hw & Hk).
      exists w, rest, prev', caps'. split_and!; [done|by left|done].
    + intros (w & rest & prev' & caps' & -> & Hw & Hk)%IH2.
      exists w, rest, prev', caps'. split_and!; [done|by right|done].
  - intros (w & rest & prev' & caps' & -> & Hw & Hk)%IH1.
    by eexists w, rest, prev', _.
Qed.

Lemma run_complete {R} r :
  boundary_free r = true →
  ∀ w rest prev caps (k : option char → pystr → captures → option R),
    spans r w → (∀ p c, is_Some (k p rest c)) →
    is_Some (run r prev (w ++ rest) caps k).
Proof.
  induction r as [|cs lo hi| |r1 IH1 r2 IH2|r1 IH1 r2 IH2|i r1 IH1];
    intros Hfree w rest prev caps k; cbn [run spans boundary_free] in *.
  - intros -> Hk. apply Hk.
  - intros (Hw & Hlo & Hhi) Hk. apply greedy_complete; [done|lia| |apply Hk].
    destruct hi; [lia|done].
  - done.
  - apply andb_true_iff in Hfree as [H1 H2].
    intros (w1 & w2 & -> & Hw1 & Hw2) Hk. rewrite <-app_assoc.
    apply IH1; [done..|]. intros p c. by apply IH2.
  - apply andb_true_iff in Hfree as [H1 H2].
    intros [Hw|Hw] Hk.
    + by destruct (IH1 H1 w rest prev caps k Hw Hk) as [res ->].
    + destruct (run r1 prev (w ++ rest) caps k); [done|]. by apply IH2.
  - intros Hw Hk. apply IH1; [done..|]. intros p c. apply Hk.
Qed.

Lemma search_from_split r s :
  ∀ prev,
    is_Some (search_from r prev s) ↔
    ∃ pre post, s = pre ++ post ∧ is_Some (run r (last_or prev pre) post ∅ found).
Proof.
  induction s as [|c s IH]; intros prev; cbn [search_from]; fold found.
  - destruct (run r prev [] ∅ found) as [caps|] eqn:Hrun.
    + split; [|done]. intros _. exists [], []. by rewrite last_or_nil, Hrun.
    + split; [by intros [? [=]]|].
      intros (pre & post & Hs & Hm). symmetry in Hs.
      apply app_eq_nil in Hs as [-> ->]. by rewrite last_or_nil, Hrun in Hm.
  - destruct (run r prev (c :: s) ∅ found) as [caps|] eqn:Hrun.
    + split; [|done]. intros _. exists [], (c :: s). by rewrite last_or_nil, Hrun.
    + rewrite IH. split.
      * intros (pre & post & -> & Hm). exists (c :: pre), post.
        by rewrite last_or_cons.
      * intros ([|c' pre] & post & Hs & Hm).
        { cbn [app] in Hs. subst post. rewrite last_or_nil, Hrun in Hm.
          by destruct Hm. }
        injection Hs as <- ->. exists pre, post. by rewrite last_or_cons in Hm.
Qed.

(** A pattern without [\b] is found in a text exactly when some part of
    the text is one of the texts it matches. *)
Lemma search_from_spans r prev s :
  boundary_free r = true →
  is_Some (search_from r prev s) ↔ ∃ pre w post, s = pre ++ w ++ post ∧ spans r w.
Proof.
  intros Hfree. rewrite search_from_split. split.
  - intros (pre & post & -> & [res Hrun]).
    apply run_spans in Hrun as (w & rest & _ & _ & -> & Hw & _).
    by exists pre, w, rest.
  - intros (pre & w & post & -> & Hw). exists pre, (w ++ post). split; [done|].
    by apply run_complete.
Qed.

Lemma spans_literal l w : spans (literal l) w ↔ w = l.
Proof.
  revert w. induction l as [|c l IH]; intros w; cbn [literal foldr spans]; [done|].
  fold (literal l). setoid_rewrite IH. split.
  - intros (w1 & w2 & -> & (Hw & Hlo & Hhi) & ->).
    destruct w1 as [|c1 [|c2 w1]]; cbn in Hlo, Hhi; [lia| |lia].
    apply Forall_cons in Hw as [Hc _]. cbn in Hc. rewrite orb_false_r in Hc.
    by apply N.eqb_eq in Hc as ->.
  - intros ->. exists [c], l. split_and!; [done| |done|done|done].
    constructor; [|done]. cbn. by rewrite N.eqb_refl.
Qed.

Lemma boundary_free_literal l : boundary_free (literal l) = true.
Proof.
  induction l as [|c l IH]; [done|].
  change (literal (c :: l)) with (Seq (Chars [IChar c] 1 (Some 1)) (literal l)).
  cbn [boundary_free]. by rewrite IH.
Qed.

Lemma spans_one_of l ls w : spans (one_of l ls) w ↔ w ∈ l :: ls.
Proof.
  revert l. induction ls as [|l' ls IH]; intros l; cbn [one_of spans].
  - rewrite spans_literal, list_elem_of_singleton. done.
  - rewrite spans_literal, IH, (elem_of_cons (l' :: ls)). done.
Qed.

Lemma boundary_free_one_of l ls : boundary_free (one_of l ls) = true.
Proof.
  revert l. induction ls as [|l' ls IH]; intros l; cbn [one_of boundary_free].
  - apply boundary_free_literal.
  - by rewrite boundary_free_literal, IH.
Qed.

(** Searching for one of several fixed texts is substring search. *)
Lemma search_one_of pattern l ls text :
  compile pattern = Some (one_of l ls) →
  is_Some (search pattern text) ↔ ∃ x, x ∈ l :: ls ∧ contains x text = true.
Proof.
  intros Hc. unfold search. rewrite Hc. cbn [mbind option_bind].
  rewrite search_from_spans by apply boundary_free_one_of.
  setoid_rewrite spans_one_of. setoid_rewrite contains_spec. naive_solver.
Qed.

End MatcherComplete.

(** *** The wording of a voice command *)

Section VoiceWording.
Context {U : Unicode}.
Import Re.

Lemma last_or_None w : last_or None w = last w.
Proof. unfold last_or. by destruct (last w). Qed.

Lemma run_digit_run lo hi prev s :
  is_Some (run (Seq WordBoundary (Seq (Chars [IDigit] lo hi) (Seq WordBoundary Empty)))
             prev s ∅ found)
  ↔ xorb (word_before prev) (word_after s) = true
    ∧ ∃ w rest,
        s = w ++ rest ∧ Forall (λ c, is_digit c = true) w
        ∧ lo ≤ length w ∧ match hi with Some h => length w ≤ h | None => True end
        ∧ xorb (word_before (last_or prev w)) (word_after rest) = true.
Proof.
  cbn [run]. destruct (xorb (word_before prev) (word_after s)); [|naive_solver].
  assert (∀ c, cset_mem [IDigit] c = is_digit c) as Hmem.
  { intros c. cbn. by rewrite orb_false_r. }
  split.
  - intros [res (w & rest & -> & Hw & Hlo & Hhi & Hk)%greedy_spans].
    split; [done|]. exists w, rest.
    destruct (xorb (word_before (last_or prev w)) (word_after rest)); [|done].
    split_and!; [done| |lia| |done].
    + eapply Forall_impl; [exact Hw|]. intros c Hc. by rewrite <-Hmem.
    + destruct hi; [apply Hhi; lia|done].
  - intros (_ & w & rest & -> & Hw & Hlo & Hhi & Hb).
    apply greedy_complete.
    + eapply Forall_impl; [exact Hw|]. intros c Hc. cbn beta. by rewrite Hmem.
    + lia.
    + by destruct hi.
    + by rewrite Hb.
Qed.

Lemma search_digit_run pattern lo hi text :
  compile pattern
  = Some (Seq WordBoundary (Seq (Chars [IDigit] lo hi) (Seq WordBoundary Empty))) →
  is_Some (search pattern text) ↔ digit_run lo hi text.
Proof.
  intros Hc. unfold search. rewrite Hc. cbn [mbind option_bind].
  rewrite search_from_split. unfold digit_run.
  setoid_rewrite run_digit_run. setoid_rewrite last_or_None.
  split.
  - intros (pre & post & -> & Hb & w & rest & -> & Hw & Hlo & Hhi & Hb').
    by exists pre, w, rest.
  - intros (pre & w & post & -> & Hw & Hlo & Hhi & Hb & Hb').
    exists pre, (w ++ post). split_and!; [done..|]. by exists w, post.
Qed.

Lemma matches_cons p ps text :
  matches (p :: ps) text ↔ is_Some (search p text) ∨ matches ps text.
Proof.
  unfold matches. split.
  - intros (p' & [->|Hin]%elem_of_cons & Hm); [by left|right; by exists p'].
  - intros [Hm|(p' & Hin & Hm)]; [exists p|exists p']; split; try done.
    + by left.
    + by right.
Qed.

Lemma matches_nil text : ¬ matches [] text.
Proof. by intros (p & Hin%elem_of_nil & _). Qed.

Lemma alarm_phrases_patterns text :
  matches (drop 2 SUSPICIOUS_PATTERNS) text
  ↔ ∃ phrase, phrase ∈ alarm_phrases ∧ contains phrase text = true.
Proof.
  change (drop 2 SUSPICIOUS_PATTERNS) with
    [py "urgent|emergency|quick|fast|immediate"; py "secret|confidential|private";
     py "call me|contact me|message me"].
  rewrite !matches_cons.
  rewrite (search_one_of _ (py "urgent")
             [py "emergency"; py "quick"; py "fast"; py "immediate"])
    by (vm_compute; reflexivity).
  rewrite (search_one_of _ (py "secret") [py "confidential"; py "private"])
    by (vm_compute; reflexivity).
  rewrite (search_one_of _ (py "call me") [py "contact me"; py "message me"])
    by (vm_compute; reflexivity).
  pose proof (matches_nil text).
  unfold alarm_phrases. cbn [map].
  split.
  - intros [(x & Hx & Hc)|[(x & Hx & Hc)|[(x & Hx & Hc)|?]]]; [..|done];
      exists x; (split; [|done]);
      repeat (apply elem_of_cons in Hx as [->|Hx]);
      try (by apply elem_of_nil in Hx);
      repeat first [apply list_elem_of_here | apply list_elem_of_further].
  - intros (x & Hx & Hc).
    repeat (apply elem_of_cons in Hx as [->|Hx]);
      [| | | | | | | | | | |by apply elem_of_nil in Hx];
      first [ left; eexists; split; [|exact Hc];
              by repeat first [apply list_elem_of_here | apply list_elem_of_further]
            | right; left; eexists; split; [|exact Hc];
              by repeat first [apply list_elem_of_here | apply list_elem_of_further]
            | right; right; left; eexists; split; [|exact Hc];
              by repeat first [apply list_elem_of_here | apply list_elem_of_further] ].
Qed.

Lemma suspicious_patterns_wording text :
  matches SUSPICIOUS_PATTERNS text ↔ suspicious_wording text.
Proof.
  unfold suspicious_wording. rewrite <-alarm_phrases_patterns.
  rewrite <-(search_digit_run (py "\b\d{4,6}\b")) by (vm_compute; reflexivity).
  rewrite <-(search_digit_run (py "\b\d{10,}\b")) by (vm_compute; reflexivity).
  change SUSPICIOUS_PATTERNS with
    (py "\b\d{4,6}\b" :: py "\b\d{10,}\b" :: drop 2 SUSPICIOUS_PATTERNS).
  by rewrite !matches_cons.
Qed.

End VoiceWording.

Lemma str_lower_nil `{U : Unicode} : str_lower [] = [].
Proof. done. Qed.

Lemma ascii_digit_is_digit `{U : Unicode} c : ascii_digit c = true → is_digit c = true.
Proof.
  intros Hc. unfold is_digit, decimal_value.
  assert (is_ascii c = true) as ->.
  { unfold ascii_digit, in_range, is_ascii in *.
    apply andb_true_iff in Hc as [_ Hc%N.leb_le]. apply N.ltb_lt. lia. }
  rewrite Hc. apply bool_decide_eq_true. by eexists.
Qed.

Lemma ascii_digit_is_word `{U : Unicode} c : ascii_digit c = true → is_word c = true.
Proof.
  intros Hc. unfold is_word.
  assert (is_ascii c = true) as ->.
  { unfold ascii_digit, in_range, is_ascii in *.
    apply andb_true_iff in Hc as [_ Hc%N.leb_le]. apply N.ltb_lt. lia. }
  rewrite Hc. by rewrite orb_true_r.
Qed.

(** A number of ASCII digits standing on its own is a digit run. *)
Lemma lone_number_is_digit_run `{U : Unicode} lo hi pre w post :
  Forall (λ c, ascii_digit c = true) w → 1 ≤ lo → lo ≤ length w →
  match hi with Some h => length w ≤ h | None => True end →
  Re.word_before (last pre) = false → Re.word_after post = false →
  digit_run lo hi (pre ++ w ++ post).
Proof.
  intros Hw Hlo Hlen Hhi Hpre Hpost. exists pre, w, post.
  split_and!; [done| |done|done| |].
  - eapply Forall_impl; [exact Hw|]. intros c. apply ascii_digit_is_digit.
  - rewrite Hpre. destruct w as [|c w]; [cbn in Hlen; lia|].
    apply Forall_cons in Hw as [Hc _]. cbn. by apply ascii_digit_is_word.
  - rewrite Hpost, xorb_false_r. unfold last_or.
    destruct (last w) as [c|] eqn:Hl.
    + cbn. apply ascii_digit_is_word.
      rewrite Forall_forall in Hw. apply Hw.
      rewrite last_lookup in Hl. by eapply list_elem_of_lookup_2.
    + apply last_None in Hl. subst w. cbn in Hlen. lia.
Qed.

(** What the voice rule looks for in the wording of a command, and what it
    returns: [True] for every non-empty command whose lower-cased text holds
    a number of 4 to 6 digits or of 10 digits or more between word
    boundaries, or one of the eleven urgency, secrecy and contact phrases
    anywhere (as a substring); for any other wording the rule leaves the
    decision to the count of the identity's recent commands.  In
    particular a number of 4 to 6 ASCII digits that stands on its own is
    enough, as in a command to send an amount of a thousand or more. *)
Theorem voice_wording `{U : Unicode} (data : loc) (now : nat → datetime)
    (st : state) (cmd : pystr) :
  voice_command (heap st !!! data) = Some cmd → cmd ≠ [] →
  let text := str_lower cmd in
  (matches SUSPICIOUS_PATTERNS text ↔ suspicious_wording text)
  ∧ (suspicious_wording text → _check_voice_patterns data now st = (Ok true, st))
  ∧ (¬ suspicious_wording text →
     _check_voice_patterns data now st = (Ok (voice_rate (heap st !!! data) now st), st))
  ∧ (∀ pre w post,
       text = pre ++ w ++ post → Forall (λ c, ascii_digit c = true) w →
       4 ≤ length w ≤ 6 →
       Re.word_before (last pre) = false → Re.word_after post = false →
       suspicious_wording text).
Proof.
  intros Hcmd Hne text.
  pose proof (suspicious_patterns_wording text) as Hiff.
  rewrite check_voice_patterns_run. unfold voice_rule, voice_rate. rewrite Hcmd.
  apply nonempty_ne in Hne. rewrite Hne. cbn [andb]. fold text.
  fold (voice_rate (heap st !!! data) now st).
  split_and!; [done| | |].
  - intros Hw%Hiff%any_match_spec. by rewrite Hw.
  - intros Hw. assert (any_match SUSPICIOUS_PATTERNS text = false) as ->; [|done].
    apply any_match_false. by rewrite Hiff.
  - intros pre w post Heq Hw [Hlo Hhi] Hpre Hpost. rewrite Heq. left.
    apply lone_number_is_digit_run; [done|lia|done..].
Qed.

Lemma voice_wording_witness :
  let body := Example.request None (Some (JInt 250)) (Some "Send 5000 to Ravi"%string) in
  let st := Example.with_dict body in
  _check_voice_patterns (U:=ascii_database) 1%positive (λ _, Example.at_time 10 0) st
  = (Ok true, st).
Proof.
  intros body st.
  destruct (voice_wording (U:=ascii_database) 1%positive (λ _, Example.at_time 10 0) st
              (py "Send 5000 to Ravi")) as (_ & Hflag & _ & Hnum);
    [vm_compute; reflexivity | vm_compute; discriminate |].
  apply Hflag.
  apply (Hnum (py "send ") (py "5000") (py " to ravi")).
  - vm_compute. reflexivity.
  - apply (bool_decide_unpack _). vm_compute. exact I.
  - change (length (py "5000")) with 4. lia.
  - vm_compute. reflexivity.
  - vm_compute. reflexivity.
Defined.

Lemma recent_commands_steady now t cmds :
  (∀ i, now i = t) → ∀ i, recent_commands now i cmds = recent_at t cmds.
Proof.
  intros Hnow. unfold recent_at.
  induction cmds as [|r cmds IH]; intros i; [done|].
  cbn [recent_commands]. rewrite filter_cons, IH, Hnow.
  case_bool_decide; by case_decide.
Qed.

Lemma lookup_total_of_lookup (st : state) l d :
  heap st !! l = Some d → heap st !!! l = d.
Proof. intros H. by rewrite lookup_total_alt, H. Qed.

(** The voice rule on the [/detect-fraud] route, for a request that carries
    a [user_id] and a voice command whose wording is not suspicious: the
    route logs the command first, so the identity's voice history ends with
    it; the indicator is in the verdict exactly when more than 3 of the
    stored commands, the current one included when the clock has moved less
    than five minutes since it was logged, are less than five minutes old. *)
Theorem voice_rate_rule `{U : Unicode} (body : payload) (clk : route_clock)
    (st : state) (user cmd : pystr) (t : datetime) :
  user_id body = Some user → user ≠ [] →
  voice_command body = Some cmd → cmd ≠ [] →
  ¬ suspicious_wording (str_lower cmd) →
  (∀ i, now_voice (now_detect clk) i = t) →
  let st1 := (detect_fraud_route body clk st).2 in
  let current := {| command := cmd; command_timestamp := now_log_voice clk |} in
  commands_of st1 user = last_n 50 (commands_of st user ++ [current])
  ∧ ((t - now_log_voice clk < timedelta_minutes 5)%Z →
     current ∈ recent_at t (commands_of st1 user))
  ∧ (∀ v, (detect_fraud_route body clk st).1 = Reply v →
       ("suspicious_voice_pattern"%string ∈ fraud_indicators v
        ↔ 3 < length (recent_at t (commands_of st1 user)))).
Proof.
  intros Hu Hne Hcmd Hcne Hword Hnow st1 current.
  assert (empty_dict body = false) as Hbody.
  { unfold empty_dict. by rewrite Hu. }
  assert (st1 = recorded body clk st) as ->.
  { subst st1. by rewrite detect_fraud_route_recorded, Hbody. }
  destruct (recorded_ledger body clk st user Hu Hne) as (_ & Hd & _ & Hcmds & _).
  rewrite Hcmd in Hcmds. fold current in Hcmds.
  apply lookup_total_of_lookup in Hd.
  split_and!; [done| |].
  - intros Hnew. unfold recent_at. apply list_elem_of_filter. split; [done|].
    rewrite Hcmds. unfold last_n. apply list_elem_of_lookup.
    exists (length (commands_of st user)
            - (length (commands_of st user ++ [current]) - 50)).
    rewrite lookup_drop, length_app. cbn [length].
    replace (_ + _) with (length (commands_of st user)) by lia.
    by rewrite list_lookup_middle.
  - intros v Hv. rewrite detect_fraud_route_run, Hbody in Hv.
    destruct (detect_fraud _ _ (recorded body clk st)) as [[v'|e] st'] eqn:Hrun;
      cbn [fst] in Hv; [|done]. injection Hv as ->.
    destruct (verdict_indicators _ _ _ _ _ Hrun) as (_ & _ & Hvoice & _).
    cbv zeta in Hvoice. rewrite Hvoice, Hd. clear Hvoice.
    unfold voice_rule, voice_rate. cbn [set_timestamp voice_command user_id].
    rewrite Hcmd, Hu.
    apply nonempty_ne in Hne, Hcne. rewrite Hne, Hcne. cbn [andb].
    assert (any_match SUSPICIOUS_PATTERNS (str_lower cmd) = false) as ->.
    { apply any_match_false. by rewrite suspicious_patterns_wording. }
    cbn [orb]. rewrite bool_decide_eq_true.
    by rewrite (recent_commands_steady _ t).
Qed.

Lemma voice_rate_rule_witness :
  let body := Example.request (Some "u"%string) (Some (JInt 250)) (Some "hello"%string) in
  let third := detect_fraud_route (U:=ascii_database) body
                 (Example.steady_route (Example.at_time 9 2))
                 (served (U:=ascii_database) body [0; 1]%Z init) in
  let fourth := detect_fraud_route (U:=ascii_database) body
                  (Example.steady_route (Example.at_time 9 3))
                  (served (U:=ascii_database) body [0; 1; 2]%Z init) in
  (∃ v, third.1 = Reply v ∧ "suspicious_voice_pattern"%string ∉ fraud_indicators v)
  ∧ (∃ v, fourth.1 = Reply v ∧ "suspicious_voice_pattern"%string ∈ fraud_indicators v).
Proof.
  intros body third fourth.
  assert (¬ suspicious_wording (U:=ascii_database) (str_lower (U:=ascii_database) (py "hello")))
    as Hplain.
  { rewrite <-suspicious_patterns_wording, <-any_match_false. vm_compute. reflexivity. }
  split.
  - destruct (voice_rate_rule (U:=ascii_database) body
                (Example.steady_route (Example.at_time 9 2))
                (served (U:=ascii_database) body [0; 1]%Z init) (py "u") (py "hello")
                (Example.at_time 9 2))
      as (_ & _ & Hv); [done|done|done|done|exact Hplain|done|].
    eexists. split; [vm_compute; reflexivity|].
    rewrite Hv by (vm_compute; reflexivity).
    apply (bool_decide_unpack _). vm_compute. exact I.
  - destruct (voice_rate_rule (U:=ascii_database) body
                (Example.steady_route (Example.at_time 9 3))
                (served (U:=ascii_database) body [0; 1; 2]%Z init) (py "u") (py "hello")
                (Example.at_time 9 3))
      as (_ & _ & Hv); [done|done|done|done|exact Hplain|done|].
    eexists. split; [vm_compute; reflexivity|].
    rewrite Hv by (vm_compute; reflexivity).
    apply (bool_decide_unpack _). vm_compute. exact I.
Defined.

(** *** [strip] *)

Lemma lstrip_suffix s : ∃ pre, s = pre ++ lstrip s.
Proof.
  induction s as [|c s [pre IH]]; [by exists []|]. cbn [lstrip].
  destruct (is_space c); [|by exists []].
  exists (c :: pre). cbn. by rewrite <-IH.
Qed.

Lemma lstrip_head s c : head (lstrip s) = Some c → is_space c = false.
Proof.
  induction s as [|c' s IH]; [done|]. cbn [lstrip].
  destruct (is_space c') eqn:Hc; [done|]. by intros [= <-].
Qed.

Lemma last_suffix {A} (pre s : list A) x : last s = Some x → last (pre ++ s) = Some x.
Proof. intros Hs. rewrite last_app, Hs. done. Qed.

Lemma head_rev {A} (s : list A) : head (rev s) = last s.
Proof. rewrite rev_alt. apply head_reverse. Qed.

Lemma strip_stripped s : stripped (strip s).
Proof.
  unfold stripped, strip. split; intros c.
  - rewrite head_rev. intros Hl.
    destruct (lstrip_suffix (rev (lstrip s))) as [pre Hpre].
    apply (last_suffix pre) in Hl. rewrite <-Hpre in Hl.
    rewrite <-head_rev, rev_involutive in Hl. by apply lstrip_head in Hl.
  - rewrite <-head_rev, rev_involutive. apply lstrip_head.
Qed.

Lemma Forall_lstrip (P : char → Prop) s : Forall P s → Forall P (lstrip s).
Proof.
  intros Hs. destruct (lstrip_suffix s) as [pre Hpre].
  rewrite Hpre in Hs. by apply Forall_app in Hs as [_ Hs].
Qed.

Lemma Forall_strip (P : char → Prop) s : Forall P s → Forall P (strip s).
Proof.
  intros Hs. unfold strip.
  apply Forall_rev, Forall_lstrip, Forall_rev, Forall_lstrip, Hs.
Qed.

Lemma lstrip_id s : (∀ c, head s = Some c → is_space c = false) → lstrip s = s.
Proof.
  destruct s as [|c s]; [done|]. intros Hc. cbn [lstrip].
  by rewrite (Hc c).
Qed.

Lemma strip_id s : stripped s → strip s = s.
Proof.
  intros [Hh Hl]. unfold strip. rewrite (lstrip_id s Hh).
  rewrite lstrip_id; [apply rev_involutive|].
  intros c. rewrite head_rev. apply Hl.
Qed.

(** *** The dict the extractor returns *)

Section IntentSchema.
Context {U : Unicode}.
Import Re.

Lemma name_group_chars w :
  consumes (Seq (Chars [IRange 97%N 122%N; IRange 65%N 90%N; ISpace] 1 None) Empty) w →
  w ≠ [] ∧ Forall (λ c, name_char c = true) w.
Proof.
  intros (w1 & w2 & -> & [Hw Hlen] & ->). rewrite app_nil_r. split.
  - intros ->. cbn in Hlen. lia.
  - eapply Forall_impl; [exact Hw|]. intros c. cbn. unfold name_char.
    unfold ascii_lower_letter, ascii_upper. by rewrite orb_false_r, orb_assoc.
Qed.

Lemma digit_group_value w :
  consumes (Seq (Chars [IDigit] 1 None) Empty) w →
  ∃ n, float_of_digits w = Ok (round_to_double n).
Proof.
  intros (w1 & w2 & -> & [Hw Hlen] & ->). rewrite app_nil_r.
  unfold float_of_digits. destruct w1 as [|c w1]; [cbn in Hlen; lia|].
  destruct (digits_value_is_Some _ Hw 0%Z) as [n ->]. by exists n.
Qed.

Ltac destruct_groups :=
  repeat match goal with
         | H : ∃ _, _ |- _ => destruct H
         | H : _ ∧ _ |- _ => destruct H
         end; subst.

(** The dict a send pattern yields: the amount is what [float()] makes of
    the digits of the amount group, the recipient is the name group,
    stripped. *)
Lemma send_money_fields pattern cmd m :
  pattern ∈ send_patterns → search pattern cmd = Some m →
  ∃ n name,
    send_money pattern m = Ok (send_intent (round_to_double n) (strip name))
    ∧ name ≠ [] ∧ Forall (λ c, name_char c = true) name.
Proof.
  intros Hin (r & Hc & Hb)%search_sound.
  unfold send_patterns in Hin. cbn [map] in Hin.
  repeat (apply elem_of_cons in Hin as [->|Hin]);
    [..|by apply elem_of_nil in Hin];
    vm_compute in Hc; injection Hc as <-;
    cbn [binds] in Hb; destruct_groups; unfold send_money;
    match goal with
    | |- context [if ?b then _ else _] =>
      let v := eval vm_compute in b in change b with v; cbv iota
    end;
    unfold group, captures; rewrite ?lookup_insert_eq, ?lookup_insert_ne by done;
    rewrite ?lookup_insert_eq; cbn [from_option id];
    match goal with
    | H : consumes (Seq (Chars [IDigit] 1 None) Empty) ?w |- _ =>
      destruct (digit_group_value w H) as [n ->]
    end;
    match goal with
    | H : consumes (Seq (Chars [IRange _ _; IRange _ _; ISpace] 1 None) Empty) ?w |- _ =>
      destruct (name_group_chars w H) as [Hne Hchars]; by exists n, w
    end.
Qed.

Lemma extract_voice_intent_cases cmd :
  (∃ pattern m, pattern ∈ send_patterns ∧ search pattern cmd = Some m
                ∧ extract_voice_intent cmd = send_money pattern m)
  ∨ (∃ i, i ∈ plain_intents ∧ extract_voice_intent cmd = Ok i)
  ∨ extract_voice_intent cmd = Ok (unknown_intent cmd).
Proof.
  unfold extract_voice_intent.
  pose proof (first_send_spec send_patterns cmd) as Hspec.
  destruct (first_send send_patterns cmd) as [r|].
  { left. destruct Hspec as (pre & pattern & post & m & Heq & _ & Hs & ->).
    exists pattern, m. split_and!; [|done..]. rewrite Heq.
    apply elem_of_app. right. by left. }
  right. unfold plain_intents.
  repeat (destruct (any_match _ _);
          [left; eexists; split; [|reflexivity];
           by repeat first [apply list_elem_of_here | apply list_elem_of_further]|]).
  by right.
Qed.

Lemma extract_voice_intent_returns cmd : ∃ i, extract_voice_intent cmd = Ok i.
Proof.
  destruct (extract_voice_intent_cases cmd)
    as [(pattern & m & Hin & Hs & ->)|[(i & _ & ->)| ->]]; [|by eexists..].
  destruct (send_money_fields pattern cmd m Hin Hs) as (n & name & -> & _).
  by eexists.
Qed.

End IntentSchema.

(** The extractor returns, for every command, a dict of one of three
    shapes: a send-money dict, whose amount is the value [float()] gives the
    digits of the amount (an integral value or plus infinity, never NaN)
    and whose recipient is made of ASCII letters and whitespace only, with
    no whitespace at either end; one of the four parameterless intents, with
    confidence 0.8; or the unknown intent, which hands the command back and
    has confidence 0.1. *)
Theorem voice_intent_schema `{U : Unicode} (cmd : pystr) :
  ∃ i, extract_voice_intent cmd = Ok i
       ∧ ((∃ n who, i = send_intent (round_to_double n) who
                    ∧ Forall (λ c, name_char c = true) who ∧ stripped who)
          ∨ i ∈ plain_intents
          ∨ i = unknown_intent cmd).
Proof.
  destruct (extract_voice_intent_cases cmd)
    as [(pattern & m & Hin & Hs & ->)|[(i & Hi & ->)| ->]].
  - destruct (send_money_fields pattern cmd m Hin Hs) as (n & name & -> & _ & Hchars).
    eexists. split; [done|]. left. exists n, (strip name).
    split_and!; [done|by apply Forall_strip|apply strip_stripped].
  - exists i. split; [done|]. right. by left.
  - eexists. split; [done|]. right. by right.
Qed.

(** The [/process-voice] route answers 400 and changes nothing when the
    payload has no command.  Otherwise it never fails: it lower-cases the
    command, logs the lower-cased text in the voice history of [user_id]
    when one is given (keeping the last 50 entries and touching nothing
    else), and replies with the intent of the lower-cased text. *)
Theorem process_voice_serves `{U : Unicode} (body : voice_payload) (now : datetime)
    (st : state) :
  (payload_command body = None →
     process_voice body now st = (Failure 400 "No command provided", st))
  ∧ (∀ c, payload_command body = Some c →
       let st1 := (process_voice body now st).2 in
       let user := default [] (payload_user_id body) in
       (∃ i, (process_voice body now st).1 = Reply i
             ∧ extract_voice_intent (str_lower c) = Ok i)
       ∧ heap st1 = heap st
       ∧ transaction_history st1 = transaction_history st
       ∧ (user = [] → st1 = st)
       ∧ (user ≠ [] →
          commands_of st1 user
          = last_n 50 (commands_of st user
                       ++ [{| command := str_lower c; command_timestamp := now |}])
          ∧ ∀ other, other ≠ user → commands_of st1 other = commands_of st other)).
Proof.
  split; [unfold process_voice; by intros ->|].
  intros c Hc st1 user. subst st1. unfold process_voice. rewrite Hc. fold user.
  destruct (extract_voice_intent_returns (str_lower c)) as [i Hi]. rewrite Hi.
  cbn [fst snd]. split_and!.
  - by exists i.
  - destruct (nonempty user); [|done]. by rewrite log_voice_command_run.
  - destruct (nonempty user); [|done]. by rewrite log_voice_command_run.
  - by intros ->.
  - intros Hne%nonempty_ne. rewrite Hne. split.
    + by rewrite commands_of_log_voice_command, decide_True.
    + intros other Ho. by rewrite commands_of_log_voice_command, decide_False.
Qed.

Lemma process_voice_serves_witness :
  let body := {| payload_command := Some (py "What is my BALANCE");
                 payload_user_id := Some (py "u") |} in
  (process_voice (U:=ascii_database) body (Example.at_time 9 0) init).1
  = Reply (plain_intent "check_balance").
Proof.
  intros body.
  destruct (process_voice_serves (U:=ascii_database) body (Example.at_time 9 0) init)
    as [_ Hserve].
  destruct (Hserve (py "What is my BALANCE") eq_refl) as ((i & -> & Hi) & _).
  f_equal. vm_compute in Hi. by injection Hi as <-.
Defined.

(** *** Matches that take all they can *)

Section MatcherExact.
Context {U : Unicode}.
Import Re.

Lemma greedy_one {R} cs prev s (k : option char → pystr → option R) :
  greedy cs 1 (Some 1) 0 prev s k =
    match s with
    | c :: s' => if cset_mem cs c then k (Some c) s' else None
    | [] => None
    end.
Proof.
  destruct s as [|c s]; [done|]. cbn [greedy below Nat.leb Nat.ltb].
  destruct (cset_mem cs c); [|done]. cbn [andb].
  destruct s as [|c' s]; cbn [greedy below Nat.leb Nat.ltb].
  - by destruct (k (Some c) []).
  - rewrite andb_false_r. by destruct (k (Some c) (c' :: s)).
Qed.

(** When the continuation accepts what is left after the longest run, that
    is the match. *)
Lemma greedy_max {R} cs lo (k : option char → pystr → option R) w rest res :
  ∀ n prev,
    Forall (λ c, cset_mem cs c = true) w →
    (∀ c, head rest = Some c → cset_mem cs c = false) →
    lo ≤ n + length w →
    k (last_or prev w) rest = Some res →
    greedy cs lo None n prev (w ++ rest) k = Some res.
Proof.
  induction w as [|c w IH]; intros n prev Hw Hrest Hlo Hk.
  - cbn [app length] in *. rewrite last_or_nil in Hk.
    assert ((lo <=? n) = true) as Hle by (apply Nat.leb_le; lia).
    destruct rest as [|c rest]; cbn [greedy]; rewrite ?Hle; [done|].
    by rewrite (Hrest c).
  - apply Forall_cons in Hw as [Hc Hw]. cbn [app greedy below length] in *.
    rewrite Hc. cbn [andb]. rewrite last_or_cons in Hk.
    rewrite (IH (S n) (Some c)); [done..|lia|done].
Qed.

Lemma run_char {R} c r prev s caps (k : option char → pystr → captures → option R) :
  run (Seq (Chars [IChar c] 1 (Some 1)) r) prev (c :: s) caps k = run r (Some c) s caps k.
Proof.
  cbn [run]. rewrite greedy_one. cbn [cset_mem existsb citem_mem].
  by rewrite N.eqb_refl.
Qed.

Lemma run_class_max {R} cs lo r prev w rest caps
    (k : option char → pystr → captures → option R) res :
  Forall (λ c, cset_mem cs c = true) w →
  (∀ c, head rest = Some c → cset_mem cs c = false) →
  lo ≤ length w →
  run r (last_or prev w) rest caps k = Some res →
  run (Seq (Chars cs lo None) r) prev (w ++ rest) caps k = Some res.
Proof. intros Hw Hrest Hlo Hk. cbn [run]. by apply greedy_max. Qed.

Lemma run_group_max {R} i cs lo r prev w rest caps
    (k : option char → pystr → captures → option R) res :
  Forall (λ c, cset_mem cs c = true) w →
  (∀ c, head rest = Some c → cset_mem cs c = false) →
  lo ≤ length w →
  run r (last_or prev w) rest (<[i := w]> caps) k = Some res →
  run (Seq (Group i (Seq (Chars cs lo None) Empty)) r) prev (w ++ rest) caps k = Some res.
Proof.
  intros Hw Hrest Hlo Hk. cbn [run]. apply greedy_max; [done..|].
  rewrite length_app.
  replace (length w + length rest - length rest) with (length w) by lia.
  by rewrite take_app_length.
Qed.

Lemma search_from_found r prev s caps :
  run r prev s ∅ found = Some caps → search_from r prev s = Some caps.
Proof. intros Hrun. destruct s; cbn [search_from]; fold found; by rewrite Hrun. Qed.

End MatcherExact.

(** *** Decimal round trip *)

Section Decimal.
Context {U : Unicode}.

Lemma digits_chars n c : (0 ≤ n)%Z → c ∈ digits n → ascii_digit c = true.
Proof.
  intros Hn Hc. apply digits_upto_range in Hc; [|done].
  unfold ascii_digit, in_range. apply andb_true_iff.
  split; apply N.leb_le; lia.
Qed.

Lemma decimal_value_ascii c :
  ascii_digit c = true → decimal_value c = Some (Z.of_N c - 48)%Z.
Proof.
  intros Hc. unfold decimal_value. rewrite Hc.
  assert (is_ascii c = true) as ->; [|done].
  unfold ascii_digit, in_range, is_ascii in *.
  apply andb_true_iff in Hc as [_ Hc%N.leb_le]. apply N.ltb_lt. lia.
Qed.

Lemma decimal_value_digit_char d :
  (0 ≤ d ≤ 9)%Z → decimal_value (digit_char d) = Some d.
Proof.
  intros Hd. rewrite decimal_value_ascii.
  - f_equal. unfold digit_char. lia.
  - unfold ascii_digit, in_range, digit_char. apply andb_true_iff.
    split; apply N.leb_le; lia.
Qed.

Lemma digits_value_snoc s c acc :
  digits_value acc (s ++ [c])
  = v ← digits_value acc s; d ← decimal_value c; Some (10 * v + d)%Z.
Proof.
  revert acc. induction s as [|x s IH]; intros acc; cbn [app digits_value].
  - by destruct (decimal_value c).
  - destruct (decimal_value x) as [d|]; [|done]. cbn. apply IH.
Qed.

(** Reading back the digits [str()] wrote gives the number. *)
Lemma digits_value_digits n : (0 ≤ n)%Z → digits_value 0 (digits n) = Some n.
Proof.
  intros Hn. remember (Z.to_nat n) as m eqn:Hm.
  revert n Hn Hm. induction m as [m IH] using lt_wf_ind. intros n Hn ->.
  rewrite digits_unfold by done.
  destruct (n <? 10)%Z eqn:Hlt.
  - apply Z.ltb_lt in Hlt. cbn [digits_value].
    rewrite decimal_value_digit_char by lia. cbn. f_equal; lia.
  - apply Z.ltb_ge in Hlt. rewrite digits_value_snoc.
    assert (0 ≤ n / 10)%Z as Hdiv by (apply Z.div_pos; lia).
    rewrite (IH (Z.to_nat (n / 10))); [| |done|done].
    + pose proof (Z.mod_pos_bound n 10). cbn.
      rewrite decimal_value_digit_char by lia. cbn. f_equal.
      pose proof (Z.div_mod n 10). lia.
    + apply Z2Nat.inj_lt; [done|lia|]. apply Z.div_lt; lia.
Qed.

Lemma float_of_digits_digits n :
  (0 ≤ n)%Z → float_of_digits (digits n) = Ok (round_to_double n).
Proof.
  intros Hn. unfold float_of_digits.
  pose proof (digits_nonempty n Hn). destruct (digits n) eqn:Hd; [done|].
  rewrite <-Hd. by rewrite digits_value_digits.
Qed.

End Decimal.

Lemma not_space_printable c : (32 < c < 133)%N → is_space c = false.
Proof.
  intros Hc. unfold is_space, in_range.
  assert ((c <=? 13)%N = false) as -> by (apply N.leb_gt; lia).
  assert ((c <=? 32)%N = false) as -> by (apply N.leb_gt; lia).
  assert ((c =? 133)%N = false) as -> by (apply N.eqb_neq; lia).
  assert ((c =? 160)%N = false) as -> by (apply N.eqb_neq; lia).
  assert ((c =? 5760)%N = false) as -> by (apply N.eqb_neq; lia).
  assert ((8192 <=? c)%N = false) as -> by (apply N.leb_gt; lia).
  assert ((c =? 8232)%N = false) as -> by (apply N.eqb_neq; lia).
  assert ((c =? 8233)%N = false) as -> by (apply N.eqb_neq; lia).
  assert ((c =? 8239)%N = false) as -> by (apply N.eqb_neq; lia).
  assert ((c =? 8287)%N = false) as -> by (apply N.eqb_neq; lia).
  assert ((c =? 12288)%N = false) as -> by (apply N.eqb_neq; lia).
  by rewrite !andb_false_r.
Qed.

Lemma ascii_digit_not_space c : ascii_digit c = true → is_space c = false.
Proof.
  unfold ascii_digit, in_range. intros [H1%N.leb_le H2%N.leb_le]%andb_true_iff.
  apply not_space_printable. lia.
Qed.

(** *** Writing a send command and reading it back *)

Section SendCommand.
Context {U : Unicode}.
Import Re.

Lemma name_class_mem c :
  cset_mem [IRange 97%N 122%N; IRange 65%N 90%N; ISpace] c = name_char c.
Proof.
  cbn. unfold name_char, ascii_lower_letter, ascii_upper.
  by rewrite orb_false_r, orb_assoc.
Qed.

Lemma search_send_command n name :
  (0 ≤ n)%Z → plain_name name →
  search (py "send\s+(\d+)\s+to\s+([a-zA-Z\s]+)") (send_command n name)
  = Some (<[2 := name]> (<[1 := digits n]> ∅)).
Proof.
  intros Hn [Hchars (c0 & name' & Hname & Hc0)].
  unfold search.
  set (r := compile _). vm_compute in r. subst r. cbn [mbind option_bind].
  apply search_from_found.
  unfold send_command, str_of_int.
  assert ((n <? 0)%Z = false) as -> by (apply Z.ltb_ge; lia).
  pose proof (digits_nonempty n Hn) as Hne.
  assert (Forall (λ c, ascii_digit c = true) (digits n)) as Hds.
  { apply Forall_forall. intros c. by apply digits_chars. }
  destruct (digits n) as [|d0 ds] eqn:Hd; [done|]. clear Hne.
  pose proof Hds as [Hd0 _]%Forall_cons.
  change (py "send " ++ (d0 :: ds) ++ py " to " ++ name)
    with (115 :: 101 :: 110 :: 100 :: [32]
          ++ ((d0 :: ds) ++ [32] ++ (116 :: 111 :: [32] ++ name)))%N.
  rewrite !run_char.
  apply run_class_max.
  { constructor; [done|constructor]. }
  { intros c [= <-]. cbn. rewrite orb_false_r. by apply ascii_digit_not_space. }
  { cbn. lia. }
  apply run_group_max.
  { eapply Forall_impl; [exact Hds|]. intros c Hc. cbn. rewrite orb_false_r.
    by apply ascii_digit_is_digit. }
  { by intros c [= <-]. }
  { cbn. lia. }
  apply run_class_max.
  { constructor; [done|constructor]. }
  { by intros c [= <-]. }
  { cbn. lia. }
  rewrite !run_char.
  apply run_class_max.
  { constructor; [done|constructor]. }
  { rewrite Hname. intros c [= <-]. cbn. by rewrite orb_false_r. }
  { cbn. lia. }
  rewrite <-(app_nil_r name) at 1.
  apply run_group_max.
  { eapply Forall_impl; [exact Hchars|]. intros c Hc. by rewrite name_class_mem. }
  { done. }
  { rewrite Hname. cbn. lia. }
  done.
Qed.

End SendCommand.


Section LowerCase.
Context {U : Unicode}.

Lemma str_lower_ascii s : forallb is_ascii s = true → str_lower s = map lower_char s.
Proof. intros Hs. unfold str_lower. by rewrite Hs. Qed.

Lemma lower_char_digit c : ascii_digit c = true → lower_char c = c.
Proof.
  unfold ascii_digit, lower_char, ascii_upper, in_range.
  intros [H1%N.leb_le H2%N.leb_le]%andb_true_iff.
  assert ((65 <=? c)%N = false) as -> by (apply N.leb_gt; lia). done.
Qed.

Lemma ascii_digit_is_ascii c : ascii_digit c = true → is_ascii c = true.
Proof.
  unfold ascii_digit, in_range, is_ascii.
  intros [_ H2%N.leb_le]%andb_true_iff. apply N.ltb_lt. lia.
Qed.

Lemma name_char_lower c : name_char c = true → name_char (lower_char c) = true.
Proof.
  unfold lower_char.
  destruct (ascii_upper c) eqn:Hup; [|done]. intros _.
  unfold name_char, ascii_upper, ascii_lower_letter, in_range in *.
  apply andb_true_iff in Hup as [H1%N.leb_le H2%N.leb_le].
  assert ((97 <=? c + 32)%N = true) as -> by (apply N.leb_le; lia).
  assert ((c + 32 <=? 122)%N = true) as -> by (apply N.leb_le; lia). done.
Qed.

Lemma lower_char_not_space c :
  name_char c = true → is_space c = false → is_space (lower_char c) = false.
Proof.
  unfold lower_char. destruct (ascii_upper c) eqn:Hup; [|done]. intros _ _.
  unfold ascii_upper, in_range in Hup.
  apply andb_true_iff in Hup as [H1%N.leb_le H2%N.leb_le].
  apply not_space_printable. lia.
Qed.

Lemma plain_name_lower name : plain_name name → plain_name (map lower_char name).
Proof.
  intros [Hchars (c & rest & -> & Hc)]. split.
  - apply Forall_map. eapply Forall_impl; [exact Hchars|].
    intros x. apply name_char_lower.
  - exists (lower_char c), (map lower_char rest). split; [done|].
    apply Forall_cons in Hchars as [Hn _]. by apply lower_char_not_space.
Qed.

Lemma str_lower_send_command n name :
  (0 ≤ n)%Z → forallb is_ascii name = true →
  str_lower (send_command n name) = send_command n (map lower_char name).
Proof.
  intros Hn Hname.
  assert (Forall (λ c, ascii_digit c = true) (digits n)) as Hds.
  { apply Forall_forall. intros c. by apply digits_chars. }
  unfold send_command, str_of_int.
  assert ((n <? 0)%Z = false) as -> by (apply Z.ltb_ge; lia).
  rewrite str_lower_ascii.
  - rewrite !map_app.
    change (map lower_char (py "send ")) with (py "send ").
    change (map lower_char (py " to ")) with (py " to ").
    assert (map lower_char (digits n) = digits n) as ->; [|done].
    transitivity (map (λ c, c) (digits n)); [|apply map_id].
    apply map_ext_in. intros c Hc%list_elem_of_In.
    rewrite Forall_forall in Hds. by apply lower_char_digit, Hds.
  - rewrite !forallb_app, Hname.
    assert (forallb is_ascii (digits n) = true) as ->; [|done].
    apply forallb_forall. intros c Hc%list_elem_of_In.
    rewrite Forall_forall in Hds. by apply ascii_digit_is_ascii, Hds.
Qed.

End LowerCase.

(** Writing a send command and reading it back: for every amount [n >= 0]
    and every name of ASCII letters and whitespace that begins with a
    letter, the extractor takes [send <n> to <name>] for a send-money
    command, whatever words the name contains, with the amount [float(n)]
    (exactly [n] below 2^53) and the name, stripped, as recipient.  Sent to
    the [/process-voice] route, an ASCII name comes back lower-cased. *)
Theorem send_command_round_trip `{U : Unicode} (n : Z) (name : pystr) :
  (0 ≤ n)%Z → plain_name name →
  extract_voice_intent (send_command n name)
  = Ok (send_intent (round_to_double n) (strip name))
  ∧ ((n < 2 ^ 53)%Z → round_to_double n = FFin (inject_Z n))
  ∧ (forallb is_ascii name = true →
     ∀ user now st,
       (process_voice {| payload_command := Some (send_command n name);
                         payload_user_id := user |} now st).1
       = Reply (send_intent (round_to_double n) (strip (map lower_char name)))).
Proof.
  intros Hn Hname.
  assert (∀ name', plain_name name' →
            extract_voice_intent (send_command n name')
            = Ok (send_intent (round_to_double n) (strip name'))) as Hx.
  { clear name Hname. intros name Hname.
    unfold extract_voice_intent, send_patterns. cbn [map first_send].
    rewrite search_send_command by done.
    unfold send_money.
    match goal with
    | |- context [if ?b then _ else _] =>
      let v := eval vm_compute in b in change b with v; cbv iota
    end.
    unfold Re.group, Re.captures.
    rewrite lookup_insert_eq, lookup_insert_ne, lookup_insert_eq by done.
    cbn [from_option id]. by rewrite float_of_digits_digits. }
  split_and!.
  - by apply Hx.
  - intros Hlt. unfold round_to_double.
    assert ((Z.log2 n + 1 <=? 53)%Z = true) as ->; [|done].
    apply Z.leb_le. destruct (decide (n = 0%Z)) as [->|Hn0]; [done|].
    assert (Z.log2 n < 53)%Z; [|lia]. apply Z.log2_lt_pow2; lia.
  - intros Hascii user now st. unfold process_voice. cbn [payload_command].
    rewrite str_lower_send_command by done.
    by rewrite Hx by by apply plain_name_lower.
Qed.

Lemma send_command_round_trip_witness :
  extract_voice_intent (U:=ascii_database) (py "send 1200 to help desk")
  = Ok (send_intent (FFin (inject_Z 1200)) (py "help desk")).
Proof.
  destruct (send_command_round_trip (U:=ascii_database) 1200 (py "help desk"))
    as (Hx & Hexact & _).
  - lia.
  - split.
    + apply (bool_decide_unpack _). vm_compute. exact I.
    + eexists _, _. split; vm_compute; reflexivity.
  - rewrite Hexact in Hx by lia. exact Hx.
Defined.

(** *** Amounts that are not integers *)

Lemma num_gt_float q k : num_gt (NFloat (FFin q)) k = true ↔ (inject_Z k < q)%Q.
Proof. cbn. rewrite Z.ltb_lt. unfold Qlt. cbn. lia. Qed.

Lemma num_mod_is_zero_float q k :
  (0 < k)%Z →
  num_mod_is_zero (NFloat (FFin q)) k = true ↔ ∃ m : Z, (q == inject_Z (k * m))%Q.
Proof.
  intros Hk. cbn. rewrite Z.eqb_eq, Z.mod_divide by lia. unfold Qeq. cbn.
  split.
  - intros [m Hm]. exists m. lia.
  - intros [m Hm]. exists m. lia.
Qed.

Lemma truncated_small q : (inject_Z (-1) < q)%Q → (q < inject_Z 10)%Q → (0 ≤ truncated q ≤ 9)%Z.
Proof.
  unfold Qlt, truncated. cbn. intros Hlo Hhi.
  destruct (decide (0 ≤ Qnum q)%Z) as [Hpos|Hneg].
  - rewrite Z.quot_div_nonneg by lia. split; [apply Z.div_pos; lia|].
    assert (Qnum q / Z.pos (Qden q) < 10)%Z; [|lia].
    apply Z.div_lt_upper_bound; lia.
  - assert (Z.quot (Qnum q) (Z.pos (Qden q)) = 0)%Z as ->; [|lia].
    apply Z.quot_small_iff; lia.
Qed.

(** The amount rule on the numbers that are not [int]s.  A finite float is
    flagged exactly when it is above 50000, or its integer part (towards
    zero) is a non-negative repdigit, or it is above 10000 and a whole
    multiple of 1000; so every float strictly between -1 and 10 is flagged,
    its integer part being one digit.  A boolean counts as 0 or 1 and is
    flagged.  Plus infinity is flagged as above the limit; on minus infinity
    and NaN [int()] raises. *)
Theorem amount_rule_on_other_numbers (data : loc) (st : state) :
  let d := heap st !!! data in
  (∀ q, amount d = Some (JFloat (FFin q)) →
     ∃ b, _check_amount_patterns data st = (Ok b, st)
          ∧ (b = true ↔
             (inject_Z 50000 < q)%Q
             ∨ ((0 ≤ truncated q)%Z ∧ repdigit (truncated q))
             ∨ ((inject_Z 10000 < q)%Q ∧ ∃ m : Z, (q == inject_Z (1000 * m))%Q))
          ∧ ((inject_Z (-1) < q)%Q → (q < inject_Z 10)%Q → b = true))
  ∧ (∀ b, amount d = Some (JBool b) →
       _check_amount_patterns data st = (Ok true, st))
  ∧ (amount d = Some (JFloat (FInf false)) →
       _check_amount_patterns data st = (Ok true, st))
  ∧ (amount d = Some (JFloat (FInf true)) →
       _check_amount_patterns data st = (Raise OverflowError, st))
  ∧ (amount d = Some (JFloat FNan) →
       _check_amount_patterns data st = (Raise ValueError, st)).
Proof.
  intros d. rewrite check_amount_patterns_run. fold d.
  split_and!.
  - intros q Ha.
    destruct (amount_rule_characterised d (NFloat (FFin q)) (truncated q))
      as (b & Hb & Hiff); [by rewrite Ha|done|].
    exists b. split; [by rewrite Hb|].
    rewrite !num_gt_float, num_mod_is_zero_float in Hiff by done.
    split; [done|]. intros Hlo Hhi. apply Hiff. right. left.
    pose proof (truncated_small q Hlo Hhi) as Ht. split; [lia|].
    exists (truncated q), 0. change (repunit 1) with 1%Z. split; lia.
  - intros b Ha. unfold amount_rule. rewrite Ha. by destruct b.
  - intros Ha. unfold amount_rule. by rewrite Ha.
  - intros Ha. unfold amount_rule. by rewrite Ha.
  - intros Ha. unfold amount_rule. by rewrite Ha.
Qed.


(** *** Ledgers built by the routes *)

Lemma route_ledger_init : route_ledger init.
Proof.
  split.
  - intros user tx. rewrite transactions_of_init. by intros ?%elem_of_nil.
  - apply ledger_stamped_init.
  - intros user. rewrite transactions_of_init. constructor.
  - intros user other tx. rewrite transactions_of_init. by intros ?%elem_of_nil.
  - intros user. rewrite transactions_of_init, commands_of_init. cbn. lia.
Qed.

Lemma NoDup_last_n {A} n (l : list A) : NoDup l → NoDup (last_n n l).
Proof. intros Hl. eapply sublist_NoDup; [exact Hl|]. apply sublist_drop. Qed.

Lemma last_n_bound {A} n (l : list A) : length (last_n n l) ≤ n.
Proof. rewrite last_n_length. lia. Qed.

Lemma route_ledger_new_dict body st :
  route_ledger st → route_ledger (new_dict body st).2.
Proof.
  intros [Hex Hst Hnd Hap Hb]. split.
  - intros user tx Htx. by apply heap_new_dict_old, (Hex user).
  - intros user. by apply stamped_new_dict.
  - done.
  - done.
  - done.
Qed.

Lemma route_ledger_recorded body clk st :
  route_ledger st → route_ledger (recorded body clk st).
Proof.
  intros Hwf.
  destruct (user_id body) as [user|] eqn:Hu;
    [destruct (decide (user = [])) as [->|Hne]|];
    [rewrite recorded_anonymous by (by right); by apply route_ledger_new_dict| |
     rewrite recorded_anonymous by (by left); by apply route_ledger_new_dict].
  destruct Hwf as [Hex Hst Hnd Hap Hb].
  destruct (recorded_ledger body clk st user Hu Hne)
    as (Hfresh & Hd & Htx & Hcmd & Hother & Hheap).
  set (data := fresh (dom (heap st))) in *.
  set (st1 := recorded body clk st) in *.
  assert (∀ u tx, tx ∈ transactions_of st u → tx ≠ data) as Hold.
  { intros u tx Htx' ->. apply Hex in Htx'. rewrite Hfresh in Htx'. by destruct Htx'. }
  assert (∀ u tx, tx ∈ transactions_of st1 u →
                  tx ∈ transactions_of st u ∨ (u = user ∧ tx = data)) as Hin.
  { intros u tx. destruct (decide (u = user)) as [->|Hu'].
    - rewrite Htx. intros [?| ->%list_elem_of_singleton]%elem_of_last_n%elem_of_app;
        [by left|by right].
    - destruct (Hother u Hu') as [-> _]. by left. }
  split.
  - intros u tx [Htx'|[-> ->]]%Hin; [|by rewrite Hd].
    rewrite Hheap by by eapply Hold. by eapply Hex.
  - by apply recorded_stamped.
  - intros u. destruct (decide (u = user)) as [->|Hu'].
    + rewrite Htx. apply NoDup_last_n, NoDup_app. split_and!; [done| |apply NoDup_singleton].
      intros tx Htx' ->%list_elem_of_singleton. by eapply Hold.
    + by destruct (Hother u Hu') as [-> _].
  - intros u1 u2 tx [H1|[-> ->]]%Hin [H2|[-> H2]]%Hin; [by eapply Hap| | |done].
    + by destruct (Hold _ _ H1).
    + by destruct (Hold _ _ H2).
  - intros u. destruct (decide (u = user)) as [->|Hu'].
    + rewrite Htx, Hcmd. split; [apply last_n_bound|].
      destruct (voice_command body); [apply last_n_bound|apply Hb].
    + destruct (Hother u Hu') as [-> ->]. apply Hb.
Qed.

Lemma route_ledger_log_voice_command user cmd now st :
  route_ledger st → route_ledger (log_voice_command user cmd now st).2.
Proof.
  intros [Hex Hst Hnd Hap Hb]. split.
  - intros u tx. rewrite transactions_of_log_voice_command, log_voice_command_run.
    apply Hex.
  - intros u. by apply stamped_log_voice_command.
  - intros u. by rewrite transactions_of_log_voice_command.
  - intros u1 u2 tx. rewrite !transactions_of_log_voice_command. apply Hap.
  - intros u. rewrite transactions_of_log_voice_command, commands_of_log_voice_command.
    split; [apply Hb|]. case_decide; [apply last_n_bound|apply Hb].
Qed.

Lemma route_ledger_serve `{U : Unicode} st c : route_ledger st → route_ledger (serve st c).
Proof.
  intros Hwf. destruct c as [body clk|body now]; cbn [serve].
  - rewrite detect_fraud_route_recorded. destruct (empty_dict body); [done|].
    by apply route_ledger_recorded.
  - unfold process_voice. destruct (payload_command body) as [c|]; [|done].
    assert (route_ledger
              (if nonempty (default [] (payload_user_id body))
               then (log_voice_command (default [] (payload_user_id body))
                       (str_lower c) now st).2
               else st)) as Hst'.
    { destruct (nonempty _); [|done]. by apply route_ledger_log_voice_command. }
    by destruct (extract_voice_intent (str_lower c)).
Qed.

(** Every ledger the service reaches by serving requests on its two routes
    is well formed: each stored transaction reference points to an existing
    dict that carries its ['timestamp'], so the transaction-rate rule never
    fails on it; no dict is stored twice, in one history or in two, so
    stamping a new request in place never rewrites a stored entry; and the
    histories hold at most 100 transactions and 50 voice commands per
    identity. *)
Theorem served_ledger_is_well_formed `{U : Unicode} (cs : list api_call) :
  route_ledger (serve_all cs)
  ∧ ∀ data now, ∃ b,
      _check_transaction_patterns data now (serve_all cs) = (Ok b, serve_all cs).
Proof.
  assert (route_ledger (serve_all cs)) as Hwf.
  { induction cs as [|c cs IH] using rev_ind; [apply route_ledger_init|].
    rewrite serve_all_snoc. by apply route_ledger_serve. }
  split; [done|]. intros data now. eexists.
  apply check_transaction_patterns_run, ledger_stamped_readable, Hwf.
Qed.

Lemma nondecreasing_cons x l :
  nondecreasing (x :: l) ↔ (∀ y, y ∈ l → (x ≤ y)%Z) ∧ nondecreasing l.
Proof.
  unfold nondecreasing. split.
  - intros H. split.
    + intros y [j Hj]%list_elem_of_lookup_1. apply (H 0 (S j)); [lia|done|done].
    + intros i j a b Hij Ha Hb. apply (H (S i) (S j)); [lia|done|done].
  - intros [Hx Hl] [|i] [|j] a b Hij Ha Hb; cbn in Ha, Hb.
    + simplify_eq. lia.
    + simplify_eq. apply Hx. by eapply list_elem_of_lookup_2.
    + lia.
    + apply (Hl i j); [lia|done|done].
Qed.

Lemma nondecreasing_sublist l k : l `sublist_of` k → nondecreasing k → nondecreasing l.
Proof.
  induction 1 as [|x l k Hsub IH|x l k Hsub IH]; [done| |].
  - rewrite !nondecreasing_cons. intros [Hx Hk]. split; [|by apply IH].
    intros y Hy. apply Hx. by eapply elem_of_sublist.
  - rewrite nondecreasing_cons. intros [_ Hk]. by apply IH.
Qed.

Lemma perform_all_app cs cs' st :
  perform_all (cs ++ cs') st = perform_all cs' (perform_all cs st).
Proof. unfold perform_all. by rewrite foldl_app. Qed.

Lemma dicts_exist_app st cs cs' :
  dicts_exist st (cs ++ cs') ↔ dicts_exist st cs ∧ dicts_exist (perform_all cs st) cs'.
Proof.
  revert st. induction cs as [|c cs IH]; intros st; cbn [app dicts_exist].
  - change (perform_all [] st) with st. tauto.
  - rewrite IH. change (perform_all (c :: cs) st) with (perform_all cs (perform st c)).
    tauto.
Qed.

Section Trace.
Context {U : Unicode}.

Lemma serve_operations st c : serve st c = perform_all (operations st c) st.
Proof.
  destruct c as [body clk|body now]; cbn [serve operations].
  - rewrite detect_fraud_route_recorded. unfold recorded.
    destruct (empty_dict body); [done|]. cbv zeta.
    by destruct (user_id body) as [user|]; [destruct (nonempty user)|].
  - unfold process_voice. destruct (payload_command body) as [c|]; [|done].
    cbv zeta.
    destruct (extract_voice_intent (str_lower c));
      by destruct (nonempty (default [] (payload_user_id body))).
Qed.

Lemma trace_snoc cs c : ∀ st,
  trace st (cs ++ [c]) = trace st cs ++ operations (foldl serve st cs) c.
Proof.
  induction cs as [|c' cs IH]; intros st; cbn [app trace foldl].
  - by rewrite app_nil_r.
  - by rewrite IH, app_assoc.
Qed.

Lemma serve_all_trace cs : serve_all cs = perform_all (trace init cs) init.
Proof.
  induction cs as [|c cs IH] using rev_ind; [done|].
  rewrite serve_all_snoc, trace_snoc, perform_all_app, <-IH.
  apply serve_operations.
Qed.

Lemma call_times_app cs cs' : call_times (cs ++ cs') = call_times cs ++ call_times cs'.
Proof. unfold call_times. apply omap_app. Qed.

Lemma logged_dicts_app cs cs' : logged_dicts (cs ++ cs') = logged_dicts cs ++ logged_dicts cs'.
Proof. unfold logged_dicts. apply omap_app. Qed.

Lemma call_times_operations st c : call_times (operations st c) `sublist_of` readings c.
Proof.
  destruct c as [body clk|body now]; cbn [operations readings].
  - destruct (empty_dict body); [apply sublist_nil_l|].
    destruct (user_id body) as [user|]; [destruct (nonempty user)|];
      [|apply sublist_nil_l..].
    unfold route_calls. destruct (voice_command body); cbn; [reflexivity|].
    apply sublist_skip, sublist_nil_l.
  - destruct (payload_command body); [|apply sublist_nil_l]. cbv zeta.
    destruct (nonempty _); [reflexivity|apply sublist_nil_l].
Qed.

Lemma call_times_trace cs : ∀ st,
  call_times (trace st cs) `sublist_of` concat (readings <$> cs).
Proof.
  induction cs as [|c cs IH]; intros st; [done|].
  cbn [trace fmap list_fmap concat]. rewrite call_times_app.
  apply sublist_app; [apply call_times_operations|apply IH].
Qed.

(** The dicts the routes hand to [log_transaction] are all different and
    exist when they are handed over. *)
Lemma trace_dicts cs :
  let tr := trace init cs in
  NoDup (logged_dicts tr) ∧ dicts_exist init tr
  ∧ ∀ l, l ∈ logged_dicts tr → is_Some (heap (serve_all cs) !! l).
Proof.
  induction cs as [|c cs IH] using rev_ind.
  { cbn. split_and!; [constructor|done|]. intros l. by intros ?%elem_of_nil. }
  cbv zeta in *. destruct IH as (Hnd & Hex & Hin).
  rewrite trace_snoc, serve_all_snoc, logged_dicts_app, dicts_exist_app.
  fold (serve_all cs). rewrite <-serve_all_trace.
  set (st := serve_all cs) in *.
  assert (∀ body, (∀ l, l ∈ logged_dicts (trace init cs) →
                        is_Some (heap (new_dict body st).2 !! l))) as Hnew.
  { intros body l Hl. by apply heap_new_dict_old, Hin. }
  destruct c as [body clk|body now]; cbn [operations serve].
  - rewrite detect_fraud_route_recorded. unfold recorded. cbv zeta.
    destruct (empty_dict body).
    { cbn [logged_dicts omap list_omap dicts_exist]. rewrite app_nil_r. by split_and!. }
    destruct (user_id body) as [user|]; [destruct (nonempty user) eqn:Hne|];
      [|cbn; rewrite app_nil_r; split_and!; [done..|apply Hnew]
       |cbn; rewrite app_nil_r; split_and!; [done..|apply Hnew]].
    set (data := fresh (dom (heap st))).
    assert (heap st !! data = None) as Hfresh by apply fresh_dict_is_new.
    assert (logged_dicts (route_calls body clk user data) = [data]) as ->.
    { unfold route_calls. by destruct (voice_command body). }
    assert (is_Some (heap (new_dict body st).2 !! data)) as Hd0.
    { cbn. fold data. rewrite lookup_insert_eq. by eexists. }
    split_and!.
    + apply NoDup_app. split_and!; [done| |apply NoDup_singleton].
      intros l Hl ->%list_elem_of_singleton. apply Hin in Hl.
      rewrite Hfresh in Hl. by destruct Hl.
    + done.
    + unfold route_calls. destruct (voice_command body); cbn; by split_and!.
    + assert (∀ l, is_Some (heap (new_dict body st).2 !! l) →
                   is_Some (heap (perform_all (route_calls body clk user data) st) !! l))
        as Hkeep.
      { intros l Hl. unfold route_calls.
        destruct (voice_command body); cbn [perform_all foldl app perform];
          rewrite ?log_voice_command_run; cbn [heap snd];
          by apply heap_log_transaction_old. }
      intros l [Hl| ->%list_elem_of_singleton]%elem_of_app; apply Hkeep; [|done].
      by apply Hnew.
  - unfold process_voice.
    destruct (payload_command body) as [c0|]; cbv zeta;
      [destruct (nonempty (default [] (payload_user_id body)))|];
      cbn [logged_dicts omap list_omap dicts_exist]; rewrite app_nil_r;
      split_and!; try done;
      intros l Hl; try destruct (extract_voice_intent (str_lower c0)); cbn [snd];
      rewrite ?log_voice_command_run; by apply Hin.
Qed.

End Trace.

(** When the clock never goes back between the readings the requests log
    with, every history of a ledger built by the routes is in
    non-decreasing timestamp order: each request is recorded in a dict of
    its own, so no stored stamp is ever rewritten. *)
Theorem served_ledger_is_ordered `{U : Unicode} (cs : list api_call) (user : pystr) :
  nondecreasing (concat (readings <$> cs)) →
  nondecreasing (transaction_times (serve_all cs) user)
  ∧ nondecreasing (command_times (serve_all cs) user).
Proof.
  intros Hclock.
  assert (nondecreasing (call_times (trace init cs))) as Htimes.
  { eapply nondecreasing_sublist; [apply call_times_trace|done]. }
  destruct (trace_dicts cs) as (Hnd & Hex & _).
  rewrite serve_all_trace. split.
  - by destruct (ledger_invariant _ Htimes Hnd Hex) as (_ & _ & Hord).
  - by destruct (voice_invariant _ Htimes) as [_ Hord].
Qed.

Lemma served_ledger_is_ordered_witness :
  let body := Example.request (Some "u"%string) (Some (JInt 250)) (Some "hello"%string) in
  let cs := [PostDetectFraud body (Example.steady_route (Example.at_time 9 0));
             PostProcessVoice {| payload_command := Some (py "Balance");
                                 payload_user_id := Some (py "u") |}
               (Example.at_time 9 1);
             PostDetectFraud body (Example.steady_route (Example.at_time 9 2))] in
  nondecreasing (transaction_times (serve_all (U:=ascii_database) cs) (py "u"))
  ∧ nondecreasing (command_times (serve_all (U:=ascii_database) cs) (py "u")).
Proof.
  intros body cs.
  apply (served_ledger_is_ordered (U:=ascii_database) cs (py "u")).
  cbn [fmap list_fmap concat readings app cs Example.steady_route
       now_log_transaction now_log_voice].
  rewrite !nondecreasing_cons.
  split_and!; try apply nondecreasing_nil;
    intros y Hy; repeat (apply elem_of_cons in Hy as [->|Hy]);
    try (by apply elem_of_nil in Hy); vm_compute; discriminate.
Defined.

(** *** Matches that give characters back *)

Section MatcherBacktrack.
Context {U : Unicode}.
Import Re.

Section Greedy.
Context {R : Type} (cs : cset) (lo : nat) (k : option char → pystr → option R)
  (rest : pystr).

Lemma greedy_none x :
  ∀ n prev,
    Forall (λ c, cset_mem cs c = true) x →
    (∀ c, head rest = Some c → cset_mem cs c = false) →
    stops_fail lo k rest n prev x →
    greedy cs lo None n prev (x ++ rest) k = None.
Proof.
  induction x as [|c x IH]; intros n prev Hx Hrest [Hstop Hmore].
  - cbn [app] in *.
    assert ((if lo <=? n then k prev rest else None) = None) as Hs.
    { destruct (lo <=? n) eqn:Hlo; [|done]. apply Hstop. by apply Nat.leb_le. }
    destruct rest as [|c r]; cbn [greedy]; [done|]. by rewrite (Hrest c).
  - apply Forall_cons in Hx as [Hc Hx]. cbn [app greedy below].
    rewrite Hc. cbn [andb]. rewrite (IH (S n) (Some c)) by done.
    destruct (lo <=? n) eqn:Hlo; [|done]. apply Hstop. by apply Nat.leb_le.
Qed.

(** The match ends at the longest run after which the continuation
    succeeds. *)
Lemma greedy_fallback w x res :
  ∀ n prev,
    Forall (λ c, cset_mem cs c = true) w →
    Forall (λ c, cset_mem cs c = true) x →
    (∀ c, head rest = Some c → cset_mem cs c = false) →
    lo ≤ n + length w →
    k (last_or prev w) (x ++ rest) = Some res →
    match x with
    | [] => True
    | c :: x' => stops_fail lo k rest (S (n + length w)) (Some c) x'
    end →
    greedy cs lo None n prev (w ++ x ++ rest) k = Some res.
Proof.
  induction w as [|c w IH]; intros n prev Hw Hx Hrest Hlo Hk Hfail.
  - cbn [app length] in *. rewrite last_or_nil in Hk. rewrite Nat.add_0_r in *.
    assert ((lo <=? n) = true) as Hle by (by apply Nat.leb_le).
    destruct x as [|c x].
    + cbn [app]. destruct rest as [|c r]; cbn [greedy]; rewrite ?Hle; [done|].
      by rewrite (Hrest c).
    + apply Forall_cons in Hx as [Hc Hx]. cbn [app greedy below].
      rewrite Hc. cbn [andb]. rewrite greedy_none by done. by rewrite Hle.
  - apply Forall_cons in Hw as [Hc Hw]. cbn [app greedy below length] in *.
    rewrite Hc. cbn [andb]. rewrite last_or_cons in Hk.
    rewrite (IH (S n) (Some c)); [done..|lia|done|].
    destruct x; [done|]. by replace (S (S n + length w)) with (S (n + S (length w))) by lia.
Qed.

End Greedy.

Lemma run_class_none {R} cs lo r prev s caps
    (k : option char → pystr → captures → option R) :
  (∀ c, head s = Some c → cset_mem cs c = false) → 1 ≤ lo →
  run (Seq (Chars cs lo None) r) prev s caps k = None.
Proof.
  intros Hs Hlo. cbn [run].
  assert ((lo <=? 0) = false) as Hle by (apply Nat.leb_gt; lia).
  destruct s as [|c s]; cbn [greedy]; rewrite ?Hle; [done|].
  by rewrite (Hs c).
Qed.

Lemma run_char_none {R} c c' r prev s caps
    (k : option char → pystr → captures → option R) :
  c ≠ c' → run (Seq (Chars [IChar c] 1 (Some 1)) r) prev (c' :: s) caps k = None.
Proof.
  intros Hc. cbn [run]. rewrite greedy_one. cbn [cset_mem existsb citem_mem].
  by apply N.eqb_neq in Hc as ->.
Qed.

(** One whitespace character and then something the rest of the pattern
    does not accept. *)
Lemma run_space_none {R} cs r prev c s caps
    (k : option char → pystr → captures → option R) :
  cset_mem cs c = true →
  (∀ c', head s = Some c' → cset_mem cs c' = false) →
  run r (Some c) s caps k = None →
  run (Seq (Chars cs 1 None) r) prev (c :: s) caps k = None.
Proof.
  intros Hc Hs Hr. cbn [run].
  apply (greedy_none cs 1 _ s [c]); [by constructor|done|].
  cbn [stops_fail app]. split_and!; [lia|done|done].
Qed.

End MatcherBacktrack.

Section KoCommand.
Context {U : Unicode}.
Import Re.

Lemma run_group_fallback {R} i cs lo r prev w x rest caps
    (k : option char → pystr → captures → option R) res :
  Forall (λ c, cset_mem cs c = true) w →
  Forall (λ c, cset_mem cs c = true) x →
  (∀ c, head rest = Some c → cset_mem cs c = false) →
  lo ≤ length w →
  run r (last_or prev w) (x ++ rest) (<[i := w]> caps) k = Some res →
  match x with
  | [] => True
  | c :: x' =>
    stops_fail lo
      (λ p s', run r p s'
                 (<[i := take (length (w ++ x ++ rest) - length s') (w ++ x ++ rest)]> caps)
                 k)
      rest (S (length w)) (Some c) x'
  end →
  run (Seq (Group i (Seq (Chars cs lo None) Empty)) r) prev (w ++ x ++ rest) caps k
  = Some res.
Proof.
  intros Hw Hx Hrest Hlo Hk Hfail. cbn [run].
  apply greedy_fallback; [done..| |done].
  rewrite !length_app.
  replace (length w + (length x + length rest) - (length x + length rest))
    with (length w) by lia.
  by rewrite take_app_length.
Qed.

Lemma is_digit_ascii c : is_ascii c = true → is_digit c = ascii_digit c.
Proof.
  intros Hc. unfold is_digit, decimal_value. rewrite Hc.
  destruct (ascii_digit c).
  - apply bool_decide_eq_true. by eexists.
  - apply bool_decide_eq_false. by intros [? [=]].
Qed.

Lemma name_char_not_digit c : ascii_digit c = true → name_char c = false.
Proof.
  intros Hc. unfold name_char. rewrite (ascii_digit_not_space c Hc).
  unfold ascii_digit, ascii_lower_letter, ascii_upper, in_range in *.
  apply andb_true_iff in Hc as [H1%N.leb_le H2%N.leb_le].
  assert ((97 <=? c)%N = false) as -> by (apply N.leb_gt; lia).
  assert ((65 <=? c)%N = false) as -> by (apply N.leb_gt; lia). done.
Qed.

Lemma ascii_name_not_digit name :
  ascii_name name → Forall (λ c, is_digit c = false) name.
Proof.
  intros [_ Hname]. eapply Forall_impl; [exact Hname|].
  intros c [Hn Ha]. rewrite is_digit_ascii by done.
  destruct (ascii_digit c) eqn:Hd; [|done].
  by rewrite (name_char_not_digit c Hd) in Hn.
Qed.

Lemma ascii_digit_ne c c' :
  ascii_digit c = true → ascii_digit c' = false → c' ≠ c.
Proof. by intros Hc Hc' ->; rewrite Hc in Hc'. Qed.

Lemma search_ko_command n name :
  (0 ≤ n)%Z → ascii_name name →
  search (py "([a-zA-Z\s]+)\s+ko\s+(\d+)\s+bhej") (ko_command n name)
  = Some (<[2 := digits n]> (<[1 := name]> ∅)).
Proof.
  intros Hn [Hne Hname].
  unfold search.
  set (r := compile _). vm_compute in r. subst r. cbn [mbind option_bind].
  apply search_from_found.
  unfold ko_command, str_of_int.
  assert ((n <? 0)%Z = false) as -> by (apply Z.ltb_ge; lia).
  pose proof (digits_nonempty n Hn) as Hdne.
  assert (Forall (λ c, ascii_digit c = true) (digits n)) as Hds.
  { apply Forall_forall. intros c. by apply digits_chars. }
  destruct (digits n) as [|d0 ds] eqn:Hd; [done|]. clear Hdne.
  pose proof Hds as [Hd0 _]%Forall_cons.
  assert (is_space d0 = false) as Hd0s by by apply ascii_digit_not_space.
  change (name ++ py " ko " ++ (d0 :: ds) ++ py " bhej")
    with (name ++ [32; 107; 111; 32]
          ++ ((d0 :: ds) ++ [32] ++ (98 :: 104 :: 101 :: [106])))%N.
  apply run_group_fallback.
  { eapply Forall_impl; [exact Hname|]. intros c [Hc _]. by rewrite name_class_mem. }
  { repeat constructor. }
  { intros c [= <-]. rewrite name_class_mem. by apply name_char_not_digit. }
  { destruct name; [done|cbn; lia]. }
  - change ([32; 107; 111; 32] ++ (d0 :: ds) ++ [32] ++ 98 :: 104 :: 101 :: [106])%N
      with ([32] ++ (107 :: 111 :: [32]
                     ++ ((d0 :: ds) ++ [32] ++ (98 :: 104 :: 101 :: [106]))))%N.
    apply run_class_max.
    { constructor; [done|constructor]. }
    { by intros c [= <-]. }
    { cbn. lia. }
    rewrite !run_char.
    apply run_class_max.
    { constructor; [done|constructor]. }
    { intros c [= <-]. cbn. by rewrite orb_false_r. }
    { cbn. lia. }
    apply run_group_max.
    { eapply Forall_impl; [exact Hds|]. intros c Hc. cbn. rewrite orb_false_r.
      by apply ascii_digit_is_digit. }
    { by intros c [= <-]. }
    { cbn. lia. }
    apply run_class_max.
    { constructor; [done|constructor]. }
    { by intros c [= <-]. }
    { cbn. lia. }
    rewrite !run_char. done.
  - cbn [stops_fail app]. split_and!; try done; intros _; cbv beta.
    + apply run_space_none; [done| |].
      * intros c [= <-]. cbn. by rewrite orb_false_r.
      * apply run_char_none. by apply (ascii_digit_ne d0).
    + apply run_class_none; [|lia]. intros c [= <-]. cbn. by rewrite orb_false_r.
Qed.

End KoCommand.

Section KoCommandOnly.
Context {U : Unicode}.
Import Re.

(** A pattern that spans no part of a text is not found in it. *)
Lemma search_from_none r prev s :
  (∀ pre w post, s = pre ++ w ++ post → ¬ spans r w) → search_from r prev s = None.
Proof.
  intros Hno. destruct (search_from r prev s) as [m|] eqn:Hs; [|done]. exfalso.
  assert (is_Some (search_from r prev s)) as Hsome by by rewrite Hs.
  apply search_from_split in Hsome as (pre & post & -> & [res Hrun]).
  apply run_spans in Hrun as (w & rest & _ & _ & -> & Hw & _).
  by eapply Hno.
Qed.

Lemma spans_char c w : spans (Chars [IChar c] 1 (Some 1)) w → w = [c].
Proof.
  intros (Hw & Hlo & Hhi). destruct w as [|c1 [|c2 w]]; cbn in Hlo, Hhi; [lia| |lia].
  apply Forall_cons in Hw as [Hc _]. cbn in Hc. rewrite orb_false_r in Hc.
  by apply N.eqb_eq in Hc as ->.
Qed.

Lemma spans_digits w :
  spans (Chars [IDigit] 1 None) w → w ≠ [] ∧ Forall (λ c, is_digit c = true) w.
Proof.
  intros (Hw & Hlo & _). split; [intros ->; cbn in Hlo; lia|].
  eapply Forall_impl; [exact Hw|]. intros c. cbn. by rewrite orb_false_r.
Qed.

Lemma spans_spaces w :
  spans (Chars [ISpace] 1 None) w → w ≠ [] ∧ Forall (λ c, is_space c = true) w.
Proof.
  intros (Hw & Hlo & _). split; [intros ->; cbn in Hlo; lia|].
  eapply Forall_impl; [exact Hw|]. intros c. cbn. by rewrite orb_false_r.
Qed.

(** In [<name> ko <n> bhej] the only whitespace that follows a digit is
    the one before [bhej]. *)
Lemma ko_command_digit_gap n name A dg ws c B :
  (0 ≤ n)%Z → ascii_name name →
  ko_command n name = A ++ dg ++ ws ++ c :: B →
  dg ≠ [] → Forall (λ x, is_digit x = true) dg →
  ws ≠ [] → Forall (λ x, is_space x = true) ws →
  is_space c = false → c ≠ 98%N → False.
Proof.
  intros Hn Hname Heq Hdg Hdigits Hws Hspaces Hc Hb.
  unfold ko_command, str_of_int in Heq.
  assert ((n <? 0)%Z = false) as Hpos by (apply Z.ltb_ge; lia).
  rewrite Hpos in Heq. clear Hpos.
  assert (Forall (λ x, ascii_digit x = true) (digits n)) as Hds.
  { apply Forall_forall. intros x. by apply digits_chars. }
  set (N := name ++ py " ko ") in *.
  assert (Forall (λ x, is_digit x = false) N) as HN.
  { apply Forall_app. split; [by apply ascii_name_not_digit|].
    repeat constructor. }
  assert (name ++ py " ko " ++ digits n ++ py " bhej"
          = N ++ digits n ++ py " bhej") as HT by (subst N; by rewrite <-app_assoc).
  rewrite HT in Heq. clear HT.
  destruct (exists_last Hdg) as (dg' & d & ->).
  destruct ws as [|s ws']; [done|].
  apply Forall_app in Hdigits as [_ [Hd _]%Forall_cons].
  apply Forall_cons in Hspaces as [Hs Hws'].
  set (X := A ++ dg').
  assert (N ++ digits n ++ py " bhej" = X ++ d :: s :: ws' ++ c :: B) as HX.
  { rewrite Heq. subst X. by rewrite <-!app_assoc. }
  clear Heq.
  assert ((N ++ digits n ++ py " bhej") !! length X = Some d) as Hld.
  { rewrite HX. by rewrite list_lookup_middle. }
  assert ((N ++ digits n ++ py " bhej") !! S (length X) = Some s) as Hls.
  { rewrite HX. rewrite lookup_app_r by lia.
    by replace (S (length X) - length X) with 1 by lia. }
  (* the digit [d] lies among the digits of [n] *)
  apply lookup_app_Some in Hld as [Hld|[HXN Hld]].
  { rewrite Forall_forall in HN. apply list_elem_of_lookup_2, HN in Hld. congruence. }
  apply lookup_app_Some in Hld as [Hld|[HXD Hld]]; last first.
  { assert (Forall (λ x, is_digit x = false) (py " bhej")) as HQ by repeat constructor.
    rewrite Forall_forall in HQ. apply list_elem_of_lookup_2, HQ in Hld. congruence. }
  apply lookup_lt_Some in Hld.
  (* and the whitespace [s] right after them *)
  rewrite lookup_app_r in Hls by lia.
  apply lookup_app_Some in Hls as [Hls|[HsD Hls]].
  { rewrite Forall_forall in Hds. apply list_elem_of_lookup_2, Hds in Hls.
    apply ascii_digit_not_space in Hls. congruence. }
  assert (length X + 1 = length N + length (digits n)) as Hlen by lia.
  assert ((N ++ digits n) ++ py " bhej" = (X ++ [d]) ++ s :: ws' ++ c :: B) as Hsplit.
  { rewrite <-!app_assoc. exact HX. }
  apply app_inj_1 in Hsplit as [_ Hq];
    [|rewrite !length_app; change (length [d]) with 1; lia].
  change (py " bhej") with [32; 98; 104; 101; 106]%N in Hq.
  injection Hq as <- Hq.
  destruct ws' as [|x ws'].
  - cbn in Hq. injection Hq as <- _. done.
  - cbn in Hq. injection Hq as <- _.
    apply Forall_cons in Hws' as [Hx _]. done.
Qed.

Lemma search_send_to_ko_command n name :
  (0 ≤ n)%Z → ascii_name name →
  search (py "send\s+(\d+)\s+to\s+([a-zA-Z\s]+)") (ko_command n name) = None.
Proof.
  intros Hn Hname. unfold search.
  set (r := compile _). vm_compute in r. subst r. cbn [mbind option_bind].
  apply search_from_none. intros pre w post Heq Hw.
  cbn [spans] in Hw.
  destruct Hw as (w1 & ? & -> & _ & w2 & ? & -> & _ & w3 & ? & -> & _
                  & w4 & ? & -> & _ & ws1 & ? & -> & _
                  & g & ? & -> & (dg & ? & -> & Hdg%spans_digits & ->)
                  & ws2 & ? & -> & Hws2%spans_spaces
                  & wt & wrest & -> & ->%spans_char & _).
  destruct Hdg as [Hdne Hdg]. destruct Hws2 as [Hwne Hws2].
  eapply (ko_command_digit_gap n name (pre ++ w1 ++ w2 ++ w3 ++ w4 ++ ws1) dg ws2
            116%N (wrest ++ post)); try done.
  rewrite Heq, app_nil_r. by rewrite <-!app_assoc.
Qed.

Lemma search_rupees_ko_command n name :
  (0 ≤ n)%Z → ascii_name name →
  search (py "(\d+)\s+rupees?\s+to\s+([a-zA-Z\s]+)") (ko_command n name) = None.
Proof.
  intros Hn Hname. unfold search.
  set (r := compile _). vm_compute in r. subst r. cbn [mbind option_bind].
  apply search_from_none. intros pre w post Heq Hw.
  cbn [spans] in Hw.
  destruct Hw as (g & ? & -> & (dg & ? & -> & Hdg%spans_digits & ->)
                  & ws & ? & -> & Hws%spans_spaces
                  & wr & wrest & -> & ->%spans_char & _).
  destruct Hdg as [Hdne Hdg]. destruct Hws as [Hwne Hws].
  eapply (ko_command_digit_gap n name pre dg ws 114%N (wrest ++ post)); try done.
  rewrite Heq, app_nil_r. by rewrite <-!app_assoc.
Qed.

End KoCommandOnly.

Section KoLowerCase.
Context {U : Unicode}.

Lemma lower_char_ascii c : is_ascii c = true → is_ascii (lower_char c) = true.
Proof.
  unfold lower_char. destruct (ascii_upper c) eqn:Hup; [|done]. intros _.
  unfold ascii_upper, in_range, is_ascii in *.
  apply andb_true_iff in Hup as [_ H2%N.leb_le]. apply N.ltb_lt. lia.
Qed.

Lemma ascii_name_lower name : ascii_name name → ascii_name (map lower_char name).
Proof.
  intros [Hne Hname]. split; [by destruct name|].
  apply Forall_map. eapply Forall_impl; [exact Hname|].
  intros c [Hn Ha]. split; [by apply name_char_lower|by apply lower_char_ascii].
Qed.

Lemma str_lower_ko_command n name :
  (0 ≤ n)%Z → ascii_name name →
  str_lower (ko_command n name) = ko_command n (map lower_char name).
Proof.
  intros Hn [_ Hname].
  assert (Forall (λ c, ascii_digit c = true) (digits n)) as Hds.
  { apply Forall_forall. intros c. by apply digits_chars. }
  unfold ko_command, str_of_int.
  assert ((n <? 0)%Z = false) as -> by (apply Z.ltb_ge; lia).
  rewrite str_lower_ascii.
  - rewrite !map_app.
    change (map lower_char (py " ko ")) with (py " ko ").
    change (map lower_char (py " bhej")) with (py " bhej").
    assert (map lower_char (digits n) = digits n) as ->; [|done].
    transitivity (map (λ c, c) (digits n)); [|apply map_id].
    apply map_ext_in. intros c Hc%list_elem_of_In.
    rewrite Forall_forall in Hds. by apply lower_char_digit, Hds.
  - rewrite !forallb_app.
    assert (forallb is_ascii name = true) as ->.
    { apply forallb_forall. intros c Hc%list_elem_of_In.
      rewrite Forall_forall in Hname. by apply Hname. }
    assert (forallb is_ascii (digits n) = true) as ->; [|done].
    apply forallb_forall. intros c Hc%list_elem_of_In.
    rewrite Forall_forall in Hds. by apply ascii_digit_is_ascii, Hds.
Qed.

End KoLowerCase.

(** The name-first order: for every amount [n >= 0] and every name of ASCII
    letters and ASCII whitespace, [<name> ko <n> bhej] is a send-money
    command.  The two amount-first patterns, which are tried before, do not
    match it; the third does, giving characters back until [ko] follows, and
    because the pattern contains [ko] its groups are read in the other
    order: the recipient is the first group, stripped, the amount is
    [float()] of the second.  Through the [/process-voice] route the
    recipient comes back lower-cased. *)
Theorem ko_command_round_trip `{U : Unicode} (n : Z) (name : pystr) :
  (0 ≤ n)%Z → ascii_name name →
  Re.search (py "send\s+(\d+)\s+to\s+([a-zA-Z\s]+)") (ko_command n name) = None
  ∧ Re.search (py "(\d+)\s+rupees?\s+to\s+([a-zA-Z\s]+)") (ko_command n name) = None
  ∧ extract_voice_intent (ko_command n name)
    = Ok (send_intent (round_to_double n) (strip name))
  ∧ (∀ user now st,
       (process_voice {| payload_command := Some (ko_command n name);
                         payload_user_id := user |} now st).1
       = Reply (send_intent (round_to_double n) (strip (map lower_char name)))).
Proof.
  intros Hn Hname.
  assert (∀ name', ascii_name name' →
            extract_voice_intent (ko_command n name')
            = Ok (send_intent (round_to_double n) (strip name'))) as Hx.
  { clear name Hname. intros name Hname.
    unfold extract_voice_intent, send_patterns. cbn [map first_send].
    rewrite search_send_to_ko_command, search_rupees_ko_command by done.
    rewrite search_ko_command by done.
    unfold send_money.
    match goal with
    | |- context [if ?b then _ else _] =>
      let v := eval vm_compute in b in change b with v; cbv iota
    end.
    unfold Re.group, Re.captures.
    rewrite lookup_insert_eq, lookup_insert_ne, lookup_insert_eq by done.
    cbn [from_option id]. by rewrite float_of_digits_digits. }
  split_and!.
  - by apply search_send_to_ko_command.
  - by apply search_rupees_ko_command.
  - by apply Hx.
  - intros user now st. unfold process_voice. cbn [payload_command].
    rewrite str_lower_ko_command by done.
    by rewrite Hx by by apply ascii_name_lower.
Qed.

Lemma ko_command_round_trip_witness :
  extract_voice_intent (U:=ascii_database) (py "Asha Rao ko 750 bhej")
  = Ok (send_intent (FFin (inject_Z 750)) (py "Asha Rao")).
Proof.
  destruct (ko_command_round_trip (U:=ascii_database) 750 (py "Asha Rao"))
    as (_ & _ & Hx & _).
  - lia.
  - split; [done|]. apply (bool_decide_unpack _). vm_compute. exact I.
  - exact Hx.
Defined.
